(** * Call Break round/trick engine: a shallow embedding of [script.js]

    The source file holds two builds of the same game.  The first
    (lines 1-408) resolves tricks with a trump suit; the second
    (lines 410-774) compares leading-suit cards only.  [Card], the [Deck]
    constructor, [Deck.shuffle], the [Player] constructor,
    [Player.computeBid], [Game.finishRound], [Game.isLegal],
    [Game.determineTurnOrder] and the storage helpers are the same code in
    both builds and are embedded once; what differs lives in the modules
    [TrumpAware] and [LeadOnly].

    JavaScript numbers that the program only ever uses as integers are [Z];
    array indices produced by loops are [nat].  A score, the dealer index
    and the round can come from the store, so the statements that advance
    them ([p.score += delta], [this.round++], [this.dealerIndex + 1]) are
    written with the rounding of a double ([toDouble]); bids, tricks and
    card values are produced by the program itself and stay far below the
    range in which doubles round. *)

From Stdlib Require Import List ZArith Lia Bool Permutation.
From Stdlib Require String DecimalString.
Import ListNotations.
Open Scope Z_scope.

(** ** JavaScript run-time outcomes *)

(** The two exceptions the program can raise. *)
Inductive Exn : Type :=
| TypeError    (* property access on [undefined] or [null], empty [reduce] *)
| SyntaxError. (* [JSON.parse] on text that is not JSON *)

(** [OffModel] is not an exception: it marks the runs in which JavaScript
    would carry on with [undefined] stored in an array of cards, which the
    typed lists of this embedding cannot hold.  The module [Untyped] embeds
    the trick handlers of the trump-aware build on a table that can. *)
Inductive Result (A : Type) : Type :=
| Ok (a : A)
| Throw (e : Exn)
| OffModel.
Arguments Ok {A} a.
Arguments Throw {A} e.
Arguments OffModel {A}.

(** Methods mutate [this]; an exception leaves the object as it was at the
    throwing statement.  [M S A] threads the object and keeps the state
    reached when a [Throw] happens. *)
Definition M (S A : Type) : Type := S -> Result A * S.

Definition ret {S A : Type} (a : A) : M S A := fun s => (Ok a, s).

Definition bind {S A B : Type} (m : M S A) (k : A -> M S B) : M S B :=
  fun s =>
    match m s with
    | (Ok a, s') => k a s'
    | (Throw e, s') => (Throw e, s')
    | (OffModel, s') => (OffModel, s')
    end.

Definition lift {S A : Type} (r : Result A) : M S A := fun s => (r, s).
Definition throw {S A : Type} (e : Exn) : M S A := lift (Throw e).
Definition get {S : Type} : M S S := fun s => (Ok s, s).
Definition gets {S A : Type} (f : S -> A) : M S A := fun s => (Ok (f s), s).
Definition modify {S : Type} (f : S -> S) : M S unit := fun s => (Ok tt, f s).

Notation "x <- m ;; k" := (bind m (fun x => k))
  (at level 61, m at next level, right associativity).
Notation "m ;; k" := (bind m (fun _ => k))
  (at level 61, right associativity).

(** [a[i]] for an integer index: [undefined] (here [None]) outside the array. *)
Definition lookupZ {A : Type} (l : list A) (i : Z) : option A :=
  if i <? 0 then None else nth_error l (Z.to_nat i).

(** Reading a property of [a[i]]: a [TypeError] when [a[i]] is [undefined]. *)
Definition deref {A : Type} (o : option A) : Result A :=
  match o with
  | Some a => Ok a
  | None => Throw TypeError
  end.

(** [a[i] = x] for an index inside the array. *)
Fixpoint setAt {A : Type} (i : nat) (x : A) (l : list A) : list A :=
  match l, i with
  | [], _ => []
  | _ :: t, O => x :: t
  | h :: t, S i' => h :: setAt i' x t
  end.

(** [a.pop()]: the last element and the shortened array; [undefined] on an
    empty array. *)
Definition pop {A : Type} (l : list A) : option (A * list A) :=
  match rev l with
  | [] => None
  | x :: r => Some (x, rev r)
  end.

(** [a.reduce(f)] without an initial value: the first element seeds the
    accumulator, and an empty array raises a [TypeError]. *)
Definition reduce1 {A : Type} (f : A -> A -> A) (l : list A) : Result A :=
  match l with
  | [] => Throw TypeError
  | x :: r => Ok (fold_left f r x)
  end.

(** [option] read as a run that leaves the model on [None]. *)
Definition typed {A : Type} (o : option A) : Result A :=
  match o with
  | Some a => Ok a
  | None => OffModel
  end.

(** [a.sort(cmp)]: a stable sort; [cmp a b <= 0] keeps [a] in front of [b]. *)
Fixpoint insertBy {A : Type} (cmp : A -> A -> Z) (x : A) (l : list A) : list A :=
  match l with
  | [] => [x]
  | y :: r => if cmp x y <=? 0 then x :: y :: r else y :: insertBy cmp x r
  end.

Definition sortBy {A : Type} (cmp : A -> A -> Z) (l : list A) : list A :=
  fold_right (insertBy cmp) [] l.

(** Every array object is truthy, the empty one included. *)
Definition arrayTruthy {A : Type} (_ : list A) : bool := true.

(** ** Domain models (lines 22-67 and 434-477) *)

Inductive Suit : Type := Spade | Heart | Diamond | Club.

Inductive Rank : Type :=
| R2 | R3 | R4 | R5 | R6 | R7 | R8 | R9 | R10 | RJ | RQ | RK | RA.

Record Card : Type := mkCard { suit : Suit; rank : Rank }.

Definition Suit_eq_dec (a b : Suit) : {a = b} + {a <> b}.
Proof. decide equality. Defined.

Definition Rank_eq_dec (a b : Rank) : {a = b} + {a <> b}.
Proof. decide equality. Defined.

Definition Card_eq_dec (a b : Card) : {a = b} + {a <> b}.
Proof. decide equality; [apply Rank_eq_dec | apply Suit_eq_dec]. Defined.

Definition Suit_eqb (a b : Suit) : bool := if Suit_eq_dec a b then true else false.
Definition Card_eqb (a b : Card) : bool := if Card_eq_dec a b then true else false.

(** [c.suit === s] where [s] may be [null]. *)
Definition suitIs (s : option Suit) (c : Card) : bool :=
  match s with
  | Some x => Suit_eqb (suit c) x
  | None => false
  end.

(** [get value()]: the [order] table. *)
Definition value (c : Card) : Z :=
  match rank c with
  | R2 => 2 | R3 => 3 | R4 => 4 | R5 => 5 | R6 => 6 | R7 => 7 | R8 => 8
  | R9 => 9 | R10 => 10 | RJ => 11 | RQ => 12 | RK => 13 | RA => 14
  end.

Definition suits : list Suit := [Spade; Heart; Diamond; Club].
Definition ranks : list Rank :=
  [R2; R3; R4; R5; R6; R7; R8; R9; R10; RJ; RQ; RK; RA].

Record Deck : Type := mkDeck { cards : list Card }.

(** [new Deck()]: every suit, and under it every rank, pushed in order. *)
Definition newDeck : Deck :=
  mkDeck (flat_map (fun s => map (fun r => mkCard s r) ranks) suits).

(** [[a[i], a[j]] = [a[j], a[i]]].  Both reads are inside the array whenever
    [j <= i < a.length]; outside it JavaScript would store [undefined] in
    the array, which a [list Card] cannot hold, hence [None]. *)
Definition swapAt (i j : nat) (cs : list Card) : option (list Card) :=
  match nth_error cs i, nth_error cs j with
  | Some ci, Some cj => Some (setAt j ci (setAt i cj cs))
  | _, _ => None
  end.

(** The loop of [shuffle], entered at index [i].  [pick i] is the value of
    [Math.floor(Math.random() * (i + 1))] drawn at that index. *)
Fixpoint shuffleFrom (pick : nat -> nat) (i : nat) (cs : list Card)
  : option (list Card) :=
  match i with
  | O => Some cs
  | S i' =>
      match swapAt i (pick i) cs with
      | Some cs' => shuffleFrom pick i' cs'
      | None => None
      end
  end.

Definition shuffle (pick : nat -> nat) (d : Deck) : option Deck :=
  option_map mkDeck (shuffleFrom pick (length (cards d) - 1) (cards d)).

Record Player : Type := mkPlayer {
  id : Z;
  isHuman : bool;
  hand : list Card;
  bid : Z;
  tricks : Z;
  score : Z
}.

(** [new Player(id, isHuman)]. *)
Definition newPlayer (i : Z) (h : bool) : Player := mkPlayer i h [] 0 0 0.

Definition setHand (h : list Card) (p : Player) : Player :=
  mkPlayer (id p) (isHuman p) h (bid p) (tricks p) (score p).
Definition setBid (b : Z) (p : Player) : Player :=
  mkPlayer (id p) (isHuman p) (hand p) b (tricks p) (score p).
Definition setTricks (t : Z) (p : Player) : Player :=
  mkPlayer (id p) (isHuman p) (hand p) (bid p) t (score p).
Definition setScore (s : Z) (p : Player) : Player :=
  mkPlayer (id p) (isHuman p) (hand p) (bid p) (tricks p) s.

(** ** Dealing (lines 50-56 and 461-466) *)

(** One [players.forEach(p => p.hand.push(this.cards.pop()))].  [None] when
    [pop] meets an empty deck: JavaScript would then push [undefined] into a
    hand. *)
Fixpoint dealPass (cs : list Card) (ps : list Player)
  : option (list Card * list Player) :=
  match ps with
  | [] => Some (cs, [])
  | p :: ps' =>
      match pop cs with
      | None => None
      | Some (c, cs') =>
          match dealPass cs' ps' with
          | None => None
          | Some (cs'', qs) => Some (cs'', setHand (hand p ++ [c]) p :: qs)
          end
      end
  end.

(** [for (let i = 0; i < n; i++) players.forEach(...)]. *)
Fixpoint dealRounds (n : nat) (cs : list Card) (ps : list Player)
  : option (list Card * list Player) :=
  match n with
  | O => Some (cs, ps)
  | S n' =>
      match dealPass cs ps with
      | None => None
      | Some (cs', ps') => dealRounds n' cs' ps'
      end
  end.

(** ** Bidding policy (lines 70-90 and 480-500) *)

Record PointWeights : Type := mkWeights { ace : Z; king : Z; queen : Z; jack : Z }.

Definition AI_POINT_WEIGHTS : PointWeights := mkWeights 4 3 2 1.
Definition AI_ADVANCED_HEURISTIC : bool := true.

(** The callback of the first [reduce]. *)
Definition hcpStep (sum : Z) (c : Card) : Z :=
  match rank c with
  | RA => sum + ace AI_POINT_WEIGHTS
  | RK => sum + king AI_POINT_WEIGHTS
  | RQ => sum + queen AI_POINT_WEIGHTS
  | RJ => sum + jack AI_POINT_WEIGHTS
  | _ => sum
  end.

(** [m[s] = (m[s] || 0) + 1] on an object keyed by suit: a present key is
    updated where it stands, a new key is appended, so the association list
    keeps the property order [Object.values] reads. *)
Fixpoint bump (s : Suit) (m : list (Suit * Z)) : list (Suit * Z) :=
  match m with
  | [] => [(s, 0 + 1)]
  | (k, n) :: m' =>
      if Suit_eqb k s then (k, (if n =? 0 then 0 else n) + 1) :: m'
      else (k, n) :: bump s m'
  end.

Definition suitCounts (h : list Card) : list (Suit * Z) :=
  fold_left (fun m c => bump (suit c) m) h [].

Definition lengthBonus (m : list (Suit * Z)) : Z :=
  fold_left (fun b cnt => b + Z.max 0 (cnt - 4)) (map snd m) 0.

(** [computeBid] with the constant [AI_ADVANCED_HEURISTIC] as a parameter, so
    that both branches of the method are covered. *)
Definition computeBidWith (advanced : bool) (p : Player) : Player :=
  let hcp := fold_left hcpStep (hand p) 0 in
  if negb advanced then
    setBid (Z.min 13 (hcp / 2)) p
  else
    let lb := lengthBonus (suitCounts (hand p)) in
    setBid (Z.min 13 (hcp / 2 + lb)) p.

Definition computeBid : Player -> Player := computeBidWith AI_ADVANCED_HEURISTIC.

(** ** Arithmetic on doubles

    A JavaScript number is a double.  On integers, [+], [-] and [*] return
    the exact result rounded to the nearest double, a tie going to the even
    significand.  Every integer up to [maxExact], 2^53, in magnitude is a
    double; above it the doubles are the multiples of the unit in the last
    place, 2^(e-52) for a magnitude in [2^e, 2^(e+1)).  [toDouble] is that
    rounding on the integers (of a magnitude below the overflow threshold
    2^1024, above which a double is [Infinity]). *)

Definition maxExact : Z := 9007199254740992.

Definition toDouble (z : Z) : Z :=
  let a := Z.abs z in
  if a <=? maxExact then z
  else
    let ulp := 2 ^ (Z.log2 a - 52) in
    let q := a / ulp in
    let r := a mod ulp in
    let q' := if (2 * r >? ulp) || ((2 * r =? ulp) && Z.odd q) then q + 1 else q in
    Z.sgn z * (q' * ulp).

Definition jsAdd (a b : Z) : Z := toDouble (a + b).
Definition jsSub (a b : Z) : Z := toDouble (a - b).
Definition jsMul (a b : Z) : Z := toDouble (a * b).

(** ** Round scoring (lines 327-332 and 671-676): the [forEach] callback. *)

Definition scoreDelta (p : Player) : Z :=
  if tricks p >=? bid p
  then jsAdd (jsMul (bid p) 10) (jsSub (tricks p) (bid p))
  else jsMul (- bid p) 10.

Definition scoreSeat (p : Player) : Player :=
  setScore (jsAdd (score p) (scoreDelta p)) p.

(** ** Legality (lines 386-390 and 738-742), on the fields it reads *)

Definition isLegalIn (leadingSuit : option Suit) (players : list Player)
    (card : Card) : Result bool :=
  match leadingSuit with
  | None => Ok true
  | Some _ =>
      match players with
      | [] => Throw TypeError
      | p0 :: _ =>
          let hasLead := existsb (suitIs leadingSuit) (hand p0) in
          Ok (negb hasLead || suitIs leadingSuit card)
      end
  end.

(** The loop of [determineTurnOrder] (lines 213-218 and 597-603). *)
Definition turnOrder (dealerIndex : Z) : list Z :=
  map (fun i => Z.rem (dealerIndex + i) 4) [1; 2; 3; 4].

(** [c !== chosen], where [chosen] may be [undefined]. *)
Definition differs (chosen : option Card) (c : Card) : bool :=
  match chosen with
  | Some x => negb (Card_eqb c x)
  | None => true
  end.

Definition descending (a b : Card) : Z := value b - value a.
Definition ascending (a b : Card) : Z := value a - value b.

(** What [persistHistory] writes into [this.state]. *)
Record Snapshot : Type := mkSnapshot {
  scores : list Z;
  savedDealerIndex : Z;
  savedRound : Z
}.

(** [this.state], the value [loadState] returned, as the game uses it after
    the constructor: only [persistHistory] touches it, and only to assign
    three properties.  A number, a string or a boolean cannot take a
    property: the assignment raises a [TypeError] in the strict code of a
    class body.  An object or an array takes them; [Holder] keeps what has
    been assigned, if anything, and forgets the rest of the loaded value,
    which nothing reads again. *)
Inductive Stored : Type :=
| Primitive
| Holder (written : option Snapshot).

(** Callbacks handed to [setTimeout] or to a promise and not yet run. *)
Inductive Timer : Type :=
| AIPlay (pid idx : Z)  (* the computer seat [pid] plays as [idx]-th of the trick *)
| TrickWon              (* the trick animation has finished *)
| Resolve.              (* [setTimeout(() => this.resolveTrick(), 500)] *)

Definition Timer_eq_dec (a b : Timer) : {a = b} + {a <> b}.
Proof. decide equality; apply Z.eq_dec. Defined.

(** A callback leaves the queue when it runs. *)
Fixpoint dequeue (t : Timer) (q : list Timer) : list Timer :=
  match q with
  | [] => []
  | u :: r => if Timer_eq_dec t u then r else u :: dequeue t r
  end.

(** ** The trump-aware build (lines 1-408) *)

Module TrumpAware.

(** [Deck.deal] (lines 50-56). *)
Definition deal (pick : nat -> nat) (d : Deck) (players : list Player)
  : option (Deck * list Player) :=
  match shuffle pick d with
  | None => None
  | Some d' =>
      let players := map (setHand []) players in
      match dealRounds 13 (cards d') players with
      | None => None
      | Some (cs, ps) => Some (mkDeck cs, ps)
      end
  end.

(** [Player.playCard] (lines 94-108).  [filter] returns a fresh array, so
    sorting [candidates] leaves [this.hand] alone; [candidates[0]] is
    [undefined] on an empty array. *)
Definition playCard (leadSuit : option Suit) (trumpSuit : Suit) (p : Player)
  : option Card * Player :=
  let hand0 := hand p in
  let candidates := filter (suitIs leadSuit) hand0 in
  let candidates :=
    if (length candidates =? 0)%nat then
      let trumps := filter (fun c => Suit_eqb (suit c) trumpSuit) hand0 in
      if arrayTruthy trumps then trumps else hand0
    else candidates in
  let candidates :=
    if tricks p <? bid p then sortBy descending candidates
    else sortBy ascending candidates in
  let chosen := nth_error candidates 0 in
  (chosen, setHand (filter (differs chosen) hand0) p).

Record Play : Type := mkPlay { pid : Z; card : Card }.

Record Game : Type := mkGame {
  players : list Player;
  dealerIndex : Z;
  round : Z;
  trumpSuit : Suit;
  leadingSuit : option Suit;
  playOrder : list Z;
  table : list Play;
  state : Stored;               (* [Holder None] is the object of an empty store *)
  submitBidDisabled : bool;     (* [submitBidBtn.disabled] *)
  nextRoundDisabled : bool;     (* [nextRoundBtn.disabled] *)
  timers : list Timer
}.

Definition setPlayers (x : list Player) (g : Game) : Game :=
  mkGame x (dealerIndex g) (round g) (trumpSuit g) (leadingSuit g) (playOrder g)
    (table g) (state g) (submitBidDisabled g) (nextRoundDisabled g) (timers g).
Definition setDealerIndex (x : Z) (g : Game) : Game :=
  mkGame (players g) x (round g) (trumpSuit g) (leadingSuit g) (playOrder g)
    (table g) (state g) (submitBidDisabled g) (nextRoundDisabled g) (timers g).
Definition setRound (x : Z) (g : Game) : Game :=
  mkGame (players g) (dealerIndex g) x (trumpSuit g) (leadingSuit g) (playOrder g)
    (table g) (state g) (submitBidDisabled g) (nextRoundDisabled g) (timers g).
Definition setTrumpSuit (x : Suit) (g : Game) : Game :=
  mkGame (players g) (dealerIndex g) (round g) x (leadingSuit g) (playOrder g)
    (table g) (state g) (submitBidDisabled g) (nextRoundDisabled g) (timers g).
Definition setLeadingSuit (x : option Suit) (g : Game) : Game :=
  mkGame (players g) (dealerIndex g) (round g) (trumpSuit g) x (playOrder g)
    (table g) (state g) (submitBidDisabled g) (nextRoundDisabled g) (timers g).
Definition setPlayOrder (x : list Z) (g : Game) : Game :=
  mkGame (players g) (dealerIndex g) (round g) (trumpSuit g) (leadingSuit g) x
    (table g) (state g) (submitBidDisabled g) (nextRoundDisabled g) (timers g).
Definition setTable (x : list Play) (g : Game) : Game :=
  mkGame (players g) (dealerIndex g) (round g) (trumpSuit g) (leadingSuit g)
    (playOrder g) x (state g) (submitBidDisabled g) (nextRoundDisabled g) (timers g).
Definition setState (x : Stored) (g : Game) : Game :=
  mkGame (players g) (dealerIndex g) (round g) (trumpSuit g) (leadingSuit g)
    (playOrder g) (table g) x (submitBidDisabled g) (nextRoundDisabled g) (timers g).
Definition setSubmitBidDisabled (x : bool) (g : Game) : Game :=
  mkGame (players g) (dealerIndex g) (round g) (trumpSuit g) (leadingSuit g)
    (playOrder g) (table g) (state g) x (nextRoundDisabled g) (timers g).
Definition setNextRoundDisabled (x : bool) (g : Game) : Game :=
  mkGame (players g) (dealerIndex g) (round g) (trumpSuit g) (leadingSuit g)
    (playOrder g) (table g) (state g) (submitBidDisabled g) x (timers g).
Definition setTimers (x : list Timer) (g : Game) : Game :=
  mkGame (players g) (dealerIndex g) (round g) (trumpSuit g) (leadingSuit g)
    (playOrder g) (table g) (state g) (submitBidDisabled g) (nextRoundDisabled g) x.

(** [setTimeout(f, ...)] and [promise.then(f)]. *)
Definition schedule (t : Timer) : M Game unit :=
  modify (fun g => setTimers (timers g ++ [t]) g).

(** [this.players[i].field = ...] on an existing seat. *)
Definition updatePlayer (i : Z) (f : Player -> Player) : M Game unit :=
  g <- get ;;
  p <- lift (deref (lookupZ (players g) i)) ;;
  modify (setPlayers (setAt (Z.to_nat i) (f p) (players g))).

(** The fields the constructor assigns before it loads the stored state
    (lines 116-125); the two buttons start as the markup has them. *)
Definition initialGame : Game :=
  mkGame [newPlayer 0 true; newPlayer 1 false; newPlayer 2 false; newPlayer 3 false]
    0 0 Spade None [] [] (Holder None) false false [].

(** Lines 141-146.  The first assignment, [this.state.scores = ...], is the
    one that raises on a primitive. *)
Definition persistHistory : M Game unit :=
  g <- get ;;
  match state g with
  | Primitive => throw TypeError
  | Holder _ =>
      modify (fun g =>
        setState
          (Holder (Some (mkSnapshot (map score (players g)) (dealerIndex g) (round g))))
          g)
  end.

(** Lines 326-336. *)
Definition finishRound : M Game unit :=
  modify (fun g => setPlayers (map scoreSeat (players g)) g) ;;
  persistHistory ;;
  modify (setNextRoundDisabled false).

(** Lines 183-201.  [trumpPick] is the value of
    [Math.floor(Math.random()*4)]. *)
Definition startRound (pick : nat -> nat) (trumpPick : nat) : M Game unit :=
  modify (fun g => setRound (jsAdd (round g) 1) g) ;;
  modify (setLeadingSuit None) ;;
  modify (setPlayOrder []) ;;
  modify (setTable []) ;;
  modify (fun g => setPlayers (map (setTricks 0) (players g)) g) ;;
  ps <- gets players ;;
  dealt <- lift (typed (deal pick newDeck ps)) ;;
  modify (setPlayers (snd dealt)) ;;
  modify (fun g => setDealerIndex (Z.rem (jsAdd (dealerIndex g) 1) 4) g) ;;
  t <- lift (typed (nth_error suits trumpPick)) ;;
  modify (setTrumpSuit t) ;;
  modify (setSubmitBidDisabled false) ;;
  modify (setNextRoundDisabled true) ;;
  modify (fun g =>
    setPlayers (match players g with
                | [] => []
                | human :: ais => human :: map computeBid ais
                end) g).

(** Lines 213-218. *)
Definition determineTurnOrder : M Game unit :=
  modify (fun g => setPlayOrder (turnOrder (dealerIndex g)) g).

(** The test of the [forEach] callback in [resolveTrick] (lines 276-280). *)
Definition takesOver (trump : Suit) (lead : option Suit) (t winning : Play) : bool :=
  let isTrump := Suit_eqb (suit (card t)) trump in
  let winIsTrump := Suit_eqb (suit (card winning)) trump in
  (isTrump && negb winIsTrump)
  || (suitIs lead (card t) && negb (suitIs lead (card winning)) && negb isTrump)
  || (Suit_eqb (suit (card t)) (suit (card winning))
      && (value (card t) >? value (card winning))).

(** Lines 274-284: [winning] starts as [table[0]], the loop visits every
    entry, and [winning.pid] raises on an empty table. *)
Definition winningPlay (trump : Suit) (lead : option Suit) (tbl : list Play)
  : Result Play :=
  match tbl with
  | [] => Throw TypeError
  | t0 :: _ =>
      Ok (fold_left (fun winning t => if takesOver trump lead t winning then t else winning)
            tbl t0)
  end.

(** Lines 272-291; the continuation of the animation is [trickWon]. *)
Definition resolveTrick : M Game unit :=
  g <- get ;;
  winning <- lift (winningPlay (trumpSuit g) (leadingSuit g) (table g)) ;;
  updatePlayer (pid winning) (fun p => setTricks (tricks p + 1) p) ;;
  schedule TrickWon.

(** Lines 231-246. *)
Definition nextToPlay (idx : Z) : M Game unit :=
  if idx >=? 4 then resolveTrick
  else
    g <- get ;;
    match lookupZ (playOrder g) idx with
    | None => throw TypeError
    | Some pid =>
        p <- lift (deref (lookupZ (players g) pid)) ;;
        if isHuman p then ret tt            (* [highlightLegal], then wait *)
        else schedule (AIPlay pid idx)
    end.

(** Lines 220-229. *)
Definition playTrick : M Game unit :=
  g <- get ;;
  human <- lift (deref (nth_error (players g) 0)) ;;
  if (length (hand human) =? 0)%nat then finishRound
  else
    modify (setTable []) ;;
    modify (setLeadingSuit None) ;;
    nextToPlay 0.

(** Lines 203-211.  [v] is the result of [parseInt], [None] for [NaN]. *)
Definition onHumanBid (v : option Z) : M Game unit :=
  match v with
  | None => ret tt
  | Some v =>
      if (v <? 0) || (v >? 13) then ret tt
      else
        updatePlayer 0 (setBid v) ;;
        modify (setSubmitBidDisabled true) ;;
        determineTurnOrder ;;
        playTrick
  end.

(** Lines 258-262 with [animateToCenter].  An [undefined] card raises at
    [card.suit] when no suit leads yet; otherwise it is pushed first and
    raises at [card.toString()], with a table the model cannot hold: the
    module [Untyped] below follows that run. *)
Definition placeCard (pid : Z) (card : option Card) : M Game unit :=
  g <- get ;;
  match leadingSuit g, card with
  | None, None => throw TypeError
  | None, Some c =>
      modify (setLeadingSuit (Some (suit c))) ;;
      modify (fun g => setTable (table g ++ [mkPlay pid c]) g)
  | Some _, Some c => modify (fun g => setTable (table g ++ [mkPlay pid c]) g)
  | Some _, None => lift OffModel
  end.

(** Lines 386-390. *)
Definition isLegal (card : Card) : M Game bool :=
  g <- get ;;
  lift (isLegalIn (leadingSuit g) (players g) card).

(** Lines 248-256. *)
Definition onCardClick (card : Card) : M Game unit :=
  legal <- isLegal card ;;
  if negb legal then ret tt
  else
    updatePlayer 0 (fun p => setHand (filter (differs (Some card)) (hand p)) p) ;;
    placeCard 0 (Some card) ;;
    g <- get ;;
    nextToPlay (Z.of_nat (length (table g))).

(** The callback of lines 240-244 for the seat [pid] at position [idx]. *)
Definition aiPlay (pid idx : Z) : M Game unit :=
  g <- get ;;
  p <- lift (deref (lookupZ (players g) pid)) ;;
  let (card, p') := playCard (leadingSuit g) (trumpSuit g) p in
  updatePlayer pid (fun _ => p') ;;
  placeCard pid card ;;
  nextToPlay (idx + 1).

(** The continuation of lines 286-290. *)
Definition trickWon : M Game unit := playTrick.

(** The browser runs a scheduled callback. *)
Definition fire (t : Timer) : M Game unit :=
  modify (fun g => setTimers (dequeue t (timers g)) g) ;;
  match t with
  | AIPlay pid idx => aiPlay pid idx
  | TrickWon => trickWon
  | Resolve => ret tt               (* never scheduled in this build *)
  end.

End TrumpAware.

(** ** The trump-aware trick handlers on a table that holds what the code
    pushes (lines 231-291)

    [placeCard] pushes [{pid, card}] before [animateToCenter] reads
    [card.toString()], so a call with an [undefined] card raises with the
    play already on the table.  The lists of [TrumpAware] hold plays with a
    card only, and answer [OffModel] there; here a play may lack its card,
    and every read of [t.card.suit] or [t.card.value] raises on such a
    play.  The handlers are those of [TrumpAware] line by line, on the
    fields of the game that a trick reads and writes; [playTrick], which
    the callback [TrickWon] runs, is not among them. *)

Module Untyped.

Record Play : Type := mkPlay { pid : Z; card : option Card }.

Record Game : Type := mkGame {
  players : list Player;
  trumpSuit : Suit;
  leadingSuit : option Suit;
  playOrder : list Z;
  table : list Play;
  timers : list Timer
}.

Definition setPlayers (x : list Player) (g : Game) : Game :=
  mkGame x (trumpSuit g) (leadingSuit g) (playOrder g) (table g) (timers g).
Definition setLeadingSuit (x : option Suit) (g : Game) : Game :=
  mkGame (players g) (trumpSuit g) x (playOrder g) (table g) (timers g).
Definition setTable (x : list Play) (g : Game) : Game :=
  mkGame (players g) (trumpSuit g) (leadingSuit g) (playOrder g) x (timers g).
Definition setTimers (x : list Timer) (g : Game) : Game :=
  mkGame (players g) (trumpSuit g) (leadingSuit g) (playOrder g) (table g) x.

Definition schedule (t : Timer) : M Game unit :=
  modify (fun g => setTimers (timers g ++ [t]) g).

Definition updatePlayer (i : Z) (f : Player -> Player) : M Game unit :=
  g <- get ;;
  p <- lift (deref (lookupZ (players g) i)) ;;
  modify (setPlayers (setAt (Z.to_nat i) (f p) (players g))).

(** Lines 258-262 with [animateToCenter] (lines 264-270): [card.suit] is
    read only when no suit leads yet; the push comes next; [card.toString()]
    is read last. *)
Definition placeCard (pid : Z) (card : option Card) : M Game unit :=
  g <- get ;;
  match leadingSuit g with
  | Some _ => ret tt
  | None =>
      c <- lift (deref card) ;;
      modify (setLeadingSuit (Some (suit c)))
  end ;;
  modify (fun g => setTable (table g ++ [mkPlay pid card]) g) ;;
  _ <- lift (deref card) ;;
  ret tt.

(** One round of the [forEach] callback of [resolveTrick] (lines 275-283)
    for the entry [t]: [t.card.suit] and [winning.card.suit] are read
    first. *)
Definition visit (trump : Suit) (lead : option Suit) (winning : Result Play) (t : Play)
  : Result Play :=
  match winning with
  | Ok w =>
      match card t, card w with
      | Some tc, Some wc =>
          Ok (if TrumpAware.takesOver trump lead
                   (TrumpAware.mkPlay (pid t) tc) (TrumpAware.mkPlay (pid w) wc)
              then t else w)
      | _, _ => Throw TypeError
      end
  | Throw e => Throw e
  | OffModel => OffModel
  end.

(** Lines 274-284: [winning] starts as [table[0]], the loop visits every
    entry, and [winning.pid] raises on an empty table. *)
Definition winningPlay (trump : Suit) (lead : option Suit) (tbl : list Play)
  : Result Play :=
  match tbl with
  | [] => Throw TypeError
  | t0 :: _ => fold_left (visit trump lead) tbl (Ok t0)
  end.

(** Lines 272-291, up to the start of the animation. *)
Definition resolveTrick : M Game unit :=
  g <- get ;;
  winning <- lift (winningPlay (trumpSuit g) (leadingSuit g) (table g)) ;;
  updatePlayer (pid winning) (fun p => setTricks (tricks p + 1) p) ;;
  schedule TrickWon.

(** Lines 231-246. *)
Definition nextToPlay (idx : Z) : M Game unit :=
  if idx >=? 4 then resolveTrick
  else
    g <- get ;;
    match lookupZ (playOrder g) idx with
    | None => throw TypeError
    | Some pid =>
        p <- lift (deref (lookupZ (players g) pid)) ;;
        if isHuman p then ret tt
        else schedule (AIPlay pid idx)
    end.

(** Lines 386-390. *)
Definition isLegal (card : Card) : M Game bool :=
  g <- get ;;
  lift (isLegalIn (leadingSuit g) (players g) card).

(** Lines 248-256. *)
Definition onCardClick (card : Card) : M Game unit :=
  legal <- isLegal card ;;
  if negb legal then ret tt
  else
    updatePlayer 0 (fun p => setHand (filter (differs (Some card)) (hand p)) p) ;;
    placeCard 0 (Some card) ;;
    g <- get ;;
    nextToPlay (Z.of_nat (length (table g))).

(** The callback of lines 240-244 for the seat [pid] at position [idx]. *)
Definition aiPlay (pid idx : Z) : M Game unit :=
  g <- get ;;
  p <- lift (deref (lookupZ (players g) pid)) ;;
  let (card, p') := TrumpAware.playCard (leadingSuit g) (trumpSuit g) p in
  updatePlayer pid (fun _ => p') ;;
  placeCard pid card ;;
  nextToPlay (idx + 1).

(** The browser runs the scheduled callback of a computer seat. *)
Definition fireAIPlay (pid idx : Z) : M Game unit :=
  modify (fun g => setTimers (dequeue (AIPlay pid idx) (timers g)) g) ;;
  aiPlay pid idx.

(** A game of [TrumpAware], every play of which has its card, as a game
    of this module. *)
Definition ofTyped (g : TrumpAware.Game) : Game :=
  mkGame (TrumpAware.players g) (TrumpAware.trumpSuit g) (TrumpAware.leadingSuit g)
    (TrumpAware.playOrder g)
    (map (fun t => mkPlay (TrumpAware.pid t) (Some (TrumpAware.card t)))
       (TrumpAware.table g))
    (TrumpAware.timers g).

End Untyped.

(** ** The leading-suit-only build (lines 410-774) *)

Module LeadOnly.

(** [Deck.deal] (lines 461-466): the hands are not cleared here; [startRound]
    clears them before it calls [deal]. *)
Definition deal (pick : nat -> nat) (d : Deck) (players : list Player)
  : option (Deck * list Player) :=
  match shuffle pick d with
  | None => None
  | Some d' =>
      match dealRounds 13 (cards d') players with
      | None => None
      | Some (cs, ps) => Some (mkDeck cs, ps)
      end
  end.

(** [Player.playCard] (lines 502-515).  When no card follows the suit,
    [candidates] is [this.hand] itself, so [sort] reorders the hand that the
    last [filter] reads. *)
Definition playCard (leadingSuit : option Suit) (p : Player)
  : option Card * Player :=
  let followers := filter (suitIs leadingSuit) (hand p) in
  let aliased := (length followers =? 0)%nat in
  let candidates := if aliased then hand p else followers in
  let candidates :=
    if tricks p <? bid p then sortBy descending candidates
    else sortBy ascending candidates in
  let hand1 := if aliased then candidates else hand p in
  let chosen := nth_error candidates 0 in
  (chosen, setHand (filter (differs chosen) hand1) p).

Record Play : Type := mkPlay { playerId : Z; card : Card }.

Inductive Phase : Type := Bidding | Playing.

Record Game : Type := mkGame {
  players : list Player;
  dealerIndex : Z;
  round : Z;
  leadingSuit : option Suit;
  playOrder : list Z;
  tableCards : list Play;
  state : Stored;               (* [Holder None] is the object of an empty store *)
  phase : option Phase;         (* [None] before the first [startRound] *)
  submitBidDisabled : bool;     (* [submitBid.disabled] *)
  nextRoundDisabled : bool;     (* [nextRound.disabled] *)
  timers : list Timer
}.

Definition setPlayers (x : list Player) (g : Game) : Game :=
  mkGame x (dealerIndex g) (round g) (leadingSuit g) (playOrder g) (tableCards g)
    (state g) (phase g) (submitBidDisabled g) (nextRoundDisabled g) (timers g).
Definition setDealerIndex (x : Z) (g : Game) : Game :=
  mkGame (players g) x (round g) (leadingSuit g) (playOrder g) (tableCards g)
    (state g) (phase g) (submitBidDisabled g) (nextRoundDisabled g) (timers g).
Definition setRound (x : Z) (g : Game) : Game :=
  mkGame (players g) (dealerIndex g) x (leadingSuit g) (playOrder g) (tableCards g)
    (state g) (phase g) (submitBidDisabled g) (nextRoundDisabled g) (timers g).
Definition setLeadingSuit (x : option Suit) (g : Game) : Game :=
  mkGame (players g) (dealerIndex g) (round g) x (playOrder g) (tableCards g)
    (state g) (phase g) (submitBidDisabled g) (nextRoundDisabled g) (timers g).
Definition setPlayOrder (x : list Z) (g : Game) : Game :=
  mkGame (players g) (dealerIndex g) (round g) (leadingSuit g) x (tableCards g)
    (state g) (phase g) (submitBidDisabled g) (nextRoundDisabled g) (timers g).
Definition setTableCards (x : list Play) (g : Game) : Game :=
  mkGame (players g) (dealerIndex g) (round g) (leadingSuit g) (playOrder g) x
    (state g) (phase g) (submitBidDisabled g) (nextRoundDisabled g) (timers g).
Definition setState (x : Stored) (g : Game) : Game :=
  mkGame (players g) (dealerIndex g) (round g) (leadingSuit g) (playOrder g)
    (tableCards g) x (phase g) (submitBidDisabled g) (nextRoundDisabled g) (timers g).
Definition setPhase (x : option Phase) (g : Game) : Game :=
  mkGame (players g) (dealerIndex g) (round g) (leadingSuit g) (playOrder g)
    (tableCards g) (state g) x (submitBidDisabled g) (nextRoundDisabled g) (timers g).
Definition setSubmitBidDisabled (x : bool) (g : Game) : Game :=
  mkGame (players g) (dealerIndex g) (round g) (leadingSuit g) (playOrder g)
    (tableCards g) (state g) (phase g) x (nextRoundDisabled g) (timers g).
Definition setNextRoundDisabled (x : bool) (g : Game) : Game :=
  mkGame (players g) (dealerIndex g) (round g) (leadingSuit g) (playOrder g)
    (tableCards g) (state g) (phase g) (submitBidDisabled g) x (timers g).
Definition setTimers (x : list Timer) (g : Game) : Game :=
  mkGame (players g) (dealerIndex g) (round g) (leadingSuit g) (playOrder g)
    (tableCards g) (state g) (phase g) (submitBidDisabled g) (nextRoundDisabled g) x.

Definition schedule (t : Timer) : M Game unit :=
  modify (fun g => setTimers (timers g ++ [t]) g).

Definition updatePlayer (i : Z) (f : Player -> Player) : M Game unit :=
  g <- get ;;
  p <- lift (deref (lookupZ (players g) i)) ;;
  modify (setPlayers (setAt (Z.to_nat i) (f p) (players g))).

(** The fields the constructor assigns before it loads the stored state
    (lines 523-533). *)
Definition initialGame : Game :=
  mkGame [newPlayer 0 true; newPlayer 1 false; newPlayer 2 false; newPlayer 3 false]
    0 0 None [] [] (Holder None) None false false [].

(** Lines 547-552.  The first assignment, [this.state.scores = ...], is the
    one that raises on a primitive. *)
Definition persistHistory : M Game unit :=
  g <- get ;;
  match state g with
  | Primitive => throw TypeError
  | Holder _ =>
      modify (fun g =>
        setState
          (Holder (Some (mkSnapshot (map score (players g)) (dealerIndex g) (round g))))
          g)
  end.

(** Lines 669-680. *)
Definition finishRound : M Game unit :=
  modify (fun g => setPlayers (map scoreSeat (players g)) g) ;;
  persistHistory ;;
  modify (setNextRoundDisabled false).

(** Lines 570-585. *)
Definition startRound (pick : nat -> nat) : M Game unit :=
  modify (fun g => setRound (jsAdd (round g) 1) g) ;;
  modify (setLeadingSuit None) ;;
  modify (setPlayOrder []) ;;
  modify (setTableCards []) ;;
  modify (fun g =>
    setPlayers (map (fun p => setTricks 0 (setHand [] p)) (players g)) g) ;;
  ps <- gets players ;;
  dealt <- lift (typed (deal pick newDeck ps)) ;;
  modify (setPlayers (snd dealt)) ;;
  modify (fun g => setDealerIndex (Z.rem (jsAdd (dealerIndex g) 1) 4) g) ;;
  modify (setPhase (Some Bidding)) ;;
  modify (setSubmitBidDisabled false) ;;
  modify (setNextRoundDisabled true) ;;
  modify (fun g =>
    setPlayers (match players g with
                | [] => []
                | human :: ais => human :: map computeBid ais
                end) g).

(** Lines 597-603. *)
Definition determineTurnOrder : M Game unit :=
  modify (fun g => setPlayOrder (turnOrder (dealerIndex g)) g).

(** Lines 615-629. *)
Definition nextToPlay (idx : Z) : M Game unit :=
  g <- get ;;
  match lookupZ (playOrder g) idx with
  | None => throw TypeError
  | Some playerId =>
      player <- lift (deref (lookupZ (players g) playerId)) ;;
      if isHuman player then ret tt         (* [highlightLegal], then wait *)
      else schedule (AIPlay playerId idx)
  end.

(** Lines 605-613. *)
Definition playTrick : M Game unit :=
  g <- get ;;
  human <- lift (deref (nth_error (players g) 0)) ;;
  if (length (hand human) =? 0)%nat then finishRound
  else
    modify (setTableCards []) ;;
    modify (setLeadingSuit None) ;;
    nextToPlay 0.

(** Lines 587-595. *)
Definition onHumanBid (v : option Z) : M Game unit :=
  match v with
  | None => ret tt
  | Some v =>
      if (v <? 0) || (v >? 13) then ret tt
      else
        updatePlayer 0 (setBid v) ;;
        modify (setSubmitBidDisabled true) ;;
        modify (setPhase (Some Playing)) ;;
        determineTurnOrder ;;
        playTrick
  end.

(** Lines 660-662: the filter on the leading suit, then [reduce] without an
    initial value. *)
Definition winningPlay (lead : option Suit) (tbl : list Play) : Result Play :=
  reduce1 (fun best t => if value (card t) >? value (card best) then t else best)
    (filter (fun t => suitIs lead (card t)) tbl).

(** Lines 658-667. *)
Definition resolveTrick : M Game unit :=
  g <- get ;;
  winning <- lift (winningPlay (leadingSuit g) (tableCards g)) ;;
  updatePlayer (playerId winning) (fun p => setTricks (tricks p + 1) p) ;;
  modify (setDealerIndex (playerId winning)) ;;
  playTrick.

(** Lines 649-656 with [renderTable].  An [undefined] card raises at
    [card.suit] when no suit leads yet; otherwise it is pushed first and
    raises at [t.card.toString()], with a table the model cannot hold. *)
Definition placeOnTable (playerId : Z) (card : option Card) : M Game unit :=
  g <- get ;;
  match leadingSuit g, card with
  | None, None => throw TypeError
  | Some _, None => lift OffModel
  | lead, Some c =>
      match lead with
      | None => modify (setLeadingSuit (Some (suit c)))
      | Some _ => ret tt
      end ;;
      modify (fun g => setTableCards (tableCards g ++ [mkPlay playerId c]) g) ;;
      g <- get ;;
      if (length (tableCards g) =? 4)%nat then schedule Resolve else ret tt
  end.

(** Lines 738-742. *)
Definition isLegal (card : Card) : M Game bool :=
  g <- get ;;
  lift (isLegalIn (leadingSuit g) (players g) card).

(** Lines 641-647. *)
Definition playCardFromHand (card : Card) : M Game unit :=
  updatePlayer 0 (fun p => setHand (filter (differs (Some card)) (hand p)) p) ;;
  placeOnTable 0 (Some card) ;;
  g <- get ;;
  nextToPlay (Z.of_nat (length (tableCards g)) - 1).

(** Lines 632-639. *)
Definition onCardClick (card : Card) : M Game unit :=
  legal <- isLegal card ;;
  if legal then playCardFromHand card else ret tt.

(** The callback of lines 623-627. *)
Definition aiPlay (playerId idx : Z) : M Game unit :=
  g <- get ;;
  player <- lift (deref (lookupZ (players g) playerId)) ;;
  let (card, player') := playCard (leadingSuit g) player in
  updatePlayer playerId (fun _ => player') ;;
  placeOnTable playerId card ;;
  nextToPlay (idx + 1).

(** The browser runs a scheduled callback. *)
Definition fire (t : Timer) : M Game unit :=
  modify (fun g => setTimers (dequeue t (timers g)) g) ;;
  match t with
  | AIPlay playerId idx => aiPlay playerId idx
  | Resolve => resolveTrick
  | TrickWon => ret tt              (* never scheduled in this build *)
  end.

End LeadOnly.

(** ** Loading the stored match state (lines 12-14, 134-140; 424-426, 540-546) *)

Module Persistence.

Import String.StringSyntax.
Local Open Scope string_scope.

(** What [JSON.parse] can return.  Numbers are the integers; a fraction
    would only matter through being non-zero. *)
#[warnings="-register-all"]
Inductive JSON : Type :=
| JNull
| JBool (b : bool)
| JNum (n : Z)
| JStr (s : String.string)
| JArr (items : list JSON)
| JObj (fields : list (String.string * JSON)).

(** What [localStorage.getItem(STORAGE_KEY)] returns, classified by what
    [JSON.parse] does with it. *)
Inductive StoredItem : Type :=
| Missing                 (* [null]: nothing stored under the key *)
| EmptyText               (* the empty string *)
| NotJSON                 (* non-empty text that [JSON.parse] rejects *)
| JSONText (v : JSON).    (* non-empty text that parses to [v] *)

(** Lines 12-14: [getItem(...) || '{}'] replaces the two falsy results by
    the text of the empty object. *)
Definition loadState (item : StoredItem) : Result JSON :=
  match item with
  | Missing | EmptyText => Ok (JObj [])
  | NotJSON => Throw SyntaxError
  | JSONText v => Ok v
  end.

Fixpoint assoc (key : String.string) (fields : list (String.string * JSON)) : option JSON :=
  match fields with
  | [] => None
  | (k, v) :: r => if String.eqb k key then Some v else assoc key r
  end.

(** [v.name] for the names [scores], [dealerIndex] and [round], which no
    built-in prototype defines; [None] is [undefined]. *)
Definition getNamed (v : JSON) (name : String.string) : Result (option JSON) :=
  match v with
  | JNull => Throw TypeError
  | JObj fields => Ok (assoc name fields)
  | JBool _ | JNum _ | JStr _ | JArr _ => Ok None
  end.

(** [v[i]] for an array index [i].  A string is held by its code units,
    one character of [String.string] each, so the index counts as in
    JavaScript for strings whose code units are below 256. *)
Definition getIndex (v : JSON) (i : nat) : Result (option JSON) :=
  match v with
  | JNull => Throw TypeError
  | JArr items => Ok (nth_error items i)
  | JStr s =>
      Ok (match String.get i s with
          | Some c => Some (JStr (String.String c String.EmptyString))
          | None => None
          end)
  | JObj fields => Ok (assoc (DecimalString.NilEmpty.string_of_uint (Nat.to_uint i)) fields)
  | JBool _ | JNum _ => Ok None
  end.

Definition truthy (o : option JSON) : bool :=
  match o with
  | None | Some JNull => false
  | Some (JBool b) => b
  | Some (JNum n) => negb (n =? 0)%Z
  | Some (JStr s) => negb (String.eqb s String.EmptyString)
  | Some (JArr _) | Some (JObj _) => true
  end.

(** [x || 0]. *)
Definition orZero (o : option JSON) : JSON :=
  match o with
  | Some v => if truthy o then v else JNum 0
  | None => JNum 0
  end.

(** The part of the game object that [restoreHistory] writes. *)
Record MatchState : Type := mkMatch {
  playerScores : list JSON;   (* [players[i].score] *)
  dealerIndex : JSON;
  round : JSON
}.

(** The constructor's values: four new players, dealer and round zero. *)
Definition freshMatch : MatchState :=
  mkMatch [JNum 0; JNum 0; JNum 0; JNum 0] (JNum 0) (JNum 0).

Definition setPlayerScore (i : nat) (v : JSON) (m : MatchState) : MatchState :=
  mkMatch (setAt i v (playerScores m)) (dealerIndex m) (round m).
Definition setDealerIndex (v : JSON) (m : MatchState) : MatchState :=
  mkMatch (playerScores m) v (round m).
Definition setRound (v : JSON) (m : MatchState) : MatchState :=
  mkMatch (playerScores m) (dealerIndex m) v.

(** [players.forEach((p, i) => ...)] over the seats [i], [i+1], ... *)
Fixpoint forEachSeat (n i : nat) (f : nat -> M MatchState unit) : M MatchState unit :=
  match n with
  | O => ret tt
  | S n' => f i ;; forEachSeat n' (S i) f
  end.

(** Lines 134-140. *)
Definition restoreHistory (state : JSON) : M MatchState unit :=
  stored <- lift (getNamed state "scores") ;;
  if truthy stored then
    m <- get ;;
    forEachSeat (length (playerScores m)) 0 (fun i =>
      scores <- lift (getNamed state "scores") ;;
      entry <- lift (match scores with
                     | Some sv => getIndex sv i
                     | None => Throw TypeError
                     end) ;;
      modify (setPlayerScore i (orZero entry))) ;;
    d <- lift (getNamed state "dealerIndex") ;;
    modify (setDealerIndex (orZero d)) ;;
    r <- lift (getNamed state "round") ;;
    modify (setRound (orZero r))
  else ret tt.

(** Lines 126-127 of the constructor: [this.state = loadState();
    this.restoreHistory()]. *)
Definition loadMatch (item : StoredItem) : M MatchState unit :=
  state <- lift (loadState item) ;;
  restoreHistory state.

End Persistence.

(** ** The specification's wording, for comparison with the code *)

(** Section 4.2 of the specification: Ace=4, King=3, Queen=2, Jack=1. *)
Definition specPoints (c : Card) : Z :=
  match rank c with
  | RA => 4 | RK => 3 | RQ => 2 | RJ => 1
  | _ => 0
  end.

Definition specHCP (h : list Card) : Z :=
  fold_right (fun c acc => specPoints c + acc) 0 h.

Definition cardsInSuit (s : Suit) (h : list Card) : Z :=
  Z.of_nat (length (filter (fun c => Suit_eqb (suit c) s) h)).

Definition specLengthBonus (h : list Card) : Z :=
  fold_right (fun s acc => Z.max 0 (cardsInSuit s h - 4) + acc) 0 suits.

Definition specBid (advanced : bool) (h : list Card) : Z :=
  if advanced then Z.min 13 (specHCP h / 2 + specLengthBonus h)
  else Z.min 13 (specHCP h / 2).

(** The post-condition of a deal: an exhausted deck, four hands of thirteen
    cards, no card in two hands, and every (suit, rank) pair held exactly
    once over the four hands. *)
Definition disjoint (a b : list Card) : Prop := forall c, In c a -> ~ In c b.

Definition partitioned (hs : list (list Card)) : Prop :=
  length hs = 4%nat
  /\ Forall (fun h => length h = 13%nat) hs
  /\ (forall i j a b, i <> j -> nth_error hs i = Some a -> nth_error hs j = Some b ->
        disjoint a b)
  /\ (forall s r, count_occ Card_eq_dec (concat hs) (mkCard s r) = 1%nat).

Definition dealtOut (d : Deck) (ps : list Player) : Prop :=
  cards d = [] /\ partitioned (map hand ps).


(** ** Definitions used by the statements below *)

(** The fields of a seat that dealing leaves alone. *)
Definition frame (p : Player) : Z * bool * Z * Z * Z :=
  (id p, isHuman p, bid p, tricks p, score p).

Definition allHands (ps : list Player) : list Card := concat (map hand ps).

Definition handSizes (ps : list Player) : list nat :=
  map (fun p => length (hand p)) ps.

(** The last statement of [startRound]: every seat but the first bids. *)
Definition aiBids (ps : list Player) : list Player :=
  match ps with
  | [] => []
  | human :: ais => human :: map computeBid ais
  end.

(** The count an object of suit counts holds for a suit, 0 for a missing key. *)
Fixpoint countIn (m : list (Suit * Z)) (s : Suit) : Z :=
  match m with
  | [] => 0
  | (k, n) :: m' => if Suit_eqb k s then n else countIn m' s
  end.

(** The thirteenth trick of a trump-aware round dealt by seat 3, spades
    trump, before anyone has played: the turn order opens with the human,
    who holds the heart [led]; seat 1 holds the 2 of spades and no heart,
    seat 2 the heart [third], seat 3 the 4 of hearts.  Twelve tricks are
    credited. *)
Definition lastTrickOpenA (led third : Card) : TrumpAware.Game :=
  TrumpAware.mkGame
    [mkPlayer 0 true [led] 3 4 0; mkPlayer 1 false [mkCard Spade R2] 2 3 0;
     mkPlayer 2 false [third] 4 2 0; mkPlayer 3 false [mkCard Heart R4] 3 3 0]
    3 4 Spade None [0; 1; 2; 3] [] (Holder None) true true [].

(** A trick of a trump-aware round dealt by seat 3, spades trump, before
    anyone has played: the turn order opens with the human, who holds two
    hearts; seat 1 holds two clubs, so neither a heart nor a trump. *)
Definition clubsAgainstHearts : TrumpAware.Game :=
  TrumpAware.mkGame
    [mkPlayer 0 true [mkCard Heart R3; mkCard Heart R5] 3 3 0;
     mkPlayer 1 false [mkCard Club R2; mkCard Club R7] 2 3 0;
     mkPlayer 2 false [mkCard Heart RA; mkCard Diamond R9] 4 2 0;
     mkPlayer 3 false [mkCard Heart R4; mkCard Diamond R8] 3 3 0]
    3 4 Spade None [0; 1; 2; 3] [] (Holder None) true true [].

(** The candidates of [playCard] before sorting. *)
Definition candidatesTrumpAware (lead : option Suit) (trump : Suit) (h : list Card)
  : list Card :=
  if (length (filter (suitIs lead) h) =? 0)%nat
  then filter (fun c => Suit_eqb (suit c) trump) h
  else filter (suitIs lead) h.

Definition candidatesLeadOnly (lead : option Suit) (h : list Card) : list Card :=
  if (length (filter (suitIs lead) h) =? 0)%nat then h else filter (suitIs lead) h.

(** [m] ends, normally or not, with the projection [proj] of the state it
    started with. *)
Definition keeps {S X A : Type} (proj : S -> X) (m : M S A) : Prop :=
  forall s, proj (snd (m s)) = proj s.

(** The turn order and the dealer, trump-aware build. *)
Definition orderA (g : TrumpAware.Game) : list Z * Z :=
  (TrumpAware.playOrder g, TrumpAware.dealerIndex g).

(** The turn order and the dealer, leading-suit-only build. *)
Definition orderB (g : LeadOnly.Game) : list Z * Z :=
  (LeadOnly.playOrder g, LeadOnly.dealerIndex g).

(** The order the claim expects for a trick led by seat [w]. *)
Definition ledBy (w : Z) : list Z := map (fun i => (w + i) mod 4) [0; 1; 2; 3].

(** Four seats that hold one club each. *)
Definition seatsWithClubs : list Player :=
  [setHand [mkCard Club R2] (newPlayer 0 true);
   setHand [mkCard Club R3] (newPlayer 1 false);
   setHand [mkCard Club R4] (newPlayer 2 false);
   setHand [mkCard Club R5] (newPlayer 3 false)].

(** The finished twelfth trick of a round dealt by seat 0: hearts led by
    seat 1, the ace from seat 3, no trump played, one card left in every
    hand. *)
Definition lateTrickA : TrumpAware.Game :=
  TrumpAware.mkGame seatsWithClubs 0 4 Spade (Some Heart) [1; 2; 3; 0]
    [TrumpAware.mkPlay 1 (mkCard Heart R3); TrumpAware.mkPlay 2 (mkCard Heart R5);
     TrumpAware.mkPlay 3 (mkCard Heart RA); TrumpAware.mkPlay 0 (mkCard Heart R7)]
    (Holder None) true true [].

(** The same trick in the leading-suit-only build, with the callback that
    resolves it scheduled. *)
Definition lateTrickB : LeadOnly.Game :=
  LeadOnly.mkGame seatsWithClubs 0 4 (Some Heart) [1; 2; 3; 0]
    [LeadOnly.mkPlay 1 (mkCard Heart R3); LeadOnly.mkPlay 2 (mkCard Heart R5);
     LeadOnly.mkPlay 3 (mkCard Heart RA); LeadOnly.mkPlay 0 (mkCard Heart R7)]
    (Holder None) (Some LeadOnly.Playing) true true [Resolve].

(** The last trick of a round dealt by seat 0 in the leading-suit-only
    build (the turn order is still [1, 2, 3, 0]): all hands are played out
    and seat 3 has placed the winning ace. *)
Definition lastTrickB : LeadOnly.Game :=
  LeadOnly.mkGame
    [newPlayer 0 true; newPlayer 1 false; newPlayer 2 false; newPlayer 3 false]
    0 4 (Some Heart) [1; 2; 3; 0]
    [LeadOnly.mkPlay 1 (mkCard Heart R3); LeadOnly.mkPlay 2 (mkCard Heart R5);
     LeadOnly.mkPlay 3 (mkCard Heart RA); LeadOnly.mkPlay 0 (mkCard Heart R7)]
    (Holder None) (Some LeadOnly.Playing) true true [Resolve].

(** Four seats at the end of a round: seat 0 bid 5 and took 7 tricks, seat 1
    bid 5 and took 3, seat 2 bid 5 and took 3 as well, seat 3 bid and took
    none; the scores before the round are 40, -20, 0 and 0. *)
Definition scoredSeats : list Player :=
  [mkPlayer 0 true [] 5 7 40; mkPlayer 1 false [] 5 3 (-20);
   mkPlayer 2 false [] 5 3 0; mkPlayer 3 false [] 0 0 0].

(** A hand of thirteen cards with 12 high-card points and six spades. *)
Definition sampleHand : list Card :=
  [mkCard Spade RA; mkCard Spade RK; mkCard Spade R9; mkCard Spade R7;
   mkCard Spade R4; mkCard Spade R2; mkCard Heart RQ; mkCard Heart R8;
   mkCard Diamond RK; mkCard Diamond R3; mkCard Club R10; mkCard Club R6;
   mkCard Club R5].


(** A counter that [++] or [+ 1] moves by exactly one: below 2^53 in
    magnitude. *)
Definition incrementsExactly (z : Z) : Prop := Z.abs z < maxExact.

(** The end of a round in the trump-aware build: the seats of
    [scoredSeats], seat 2 the dealer, the fourth round. *)
Definition roundPlayedA : TrumpAware.Game :=
  TrumpAware.setRound 4
    (TrumpAware.setDealerIndex 2
       (TrumpAware.setPlayers scoredSeats TrumpAware.initialGame)).

(** The tricks credited so far in a round, over all seats. *)
Definition totalTricks (ps : list Player) : Z :=
  fold_right (fun p acc => tricks p + acc) 0 ps.

(** What holds of the seat at index [i] throughout a match: its identity,
    and the ranges of its bid and of its tricks. *)
Definition seatOK (i : Z) (p : Player) : Prop :=
  id p = i /\ isHuman p = (i =? 0) /\ 0 <= bid p <= 13 /\ 0 <= tricks p.

Definition seatsOK (ps : list Player) : Prop := Forall2 seatOK [0; 1; 2; 3] ps.

(** What the user and the browser can make the engine do. *)
Inductive Event : Type :=
| NextRound (pick : nat -> nat) (trumpPick : nat)   (* [startRound] *)
| SubmitBid (v : option Z)                          (* [onHumanBid] *)
| ClickCard (c : Card)                              (* [onCardClick] *)
| Run (t : Timer).                                  (* a scheduled callback *)

Definition handleA (e : Event) : M TrumpAware.Game unit :=
  match e with
  | NextRound pick trumpPick => TrumpAware.startRound pick trumpPick
  | SubmitBid v => TrumpAware.onHumanBid v
  | ClickCard c => TrumpAware.onCardClick c
  | Run t => TrumpAware.fire t
  end.

Definition handleB (e : Event) : M LeadOnly.Game unit :=
  match e with
  | NextRound pick _ => LeadOnly.startRound pick
  | SubmitBid v => LeadOnly.onHumanBid v
  | ClickCard c => LeadOnly.onCardClick c
  | Run t => LeadOnly.fire t
  end.

(** The states of the trump-aware engine: four seats in order, a dealer
    among them, no turn order yet or the dealer's, the leading suit null on
    an empty table and the suit of the first play otherwise, every play on
    the table made by one of the seats. *)
Definition wellFormedA (g : TrumpAware.Game) : Prop :=
  seatsOK (TrumpAware.players g)
  /\ 0 <= TrumpAware.dealerIndex g < 4
  /\ (TrumpAware.playOrder g = []
      \/ TrumpAware.playOrder g = turnOrder (TrumpAware.dealerIndex g))
  /\ match TrumpAware.table g with
     | [] => TrumpAware.leadingSuit g = None
     | t :: _ => TrumpAware.leadingSuit g = Some (suit (TrumpAware.card t))
     end
  /\ Forall (fun t => 0 <= TrumpAware.pid t < 4) (TrumpAware.table g).

(** The same for the leading-suit-only engine, whose turn order may be that
    of an earlier dealer. *)
Definition wellFormedB (g : LeadOnly.Game) : Prop :=
  seatsOK (LeadOnly.players g)
  /\ 0 <= LeadOnly.dealerIndex g < 4
  /\ (LeadOnly.playOrder g = []
      \/ exists d, 0 <= d < 4 /\ LeadOnly.playOrder g = turnOrder d)
  /\ match LeadOnly.tableCards g with
     | [] => LeadOnly.leadingSuit g = None
     | t :: _ => LeadOnly.leadingSuit g = Some (suit (LeadOnly.card t))
     end
  /\ Forall (fun t => 0 <= LeadOnly.playerId t < 4) (LeadOnly.tableCards g).

(** [m] ends, normally or not, in a state that satisfies [P] when it starts
    in one. *)
Definition preserves {S A : Type} (P : S -> Prop) (m : M S A) : Prop :=
  forall s, P s -> P (snd (m s)).

(** [m] never leaves the typed lists. *)
Definition inModel {S A : Type} (m : M S A) : Prop :=
  forall s, fst (m s) <> OffModel.

(** The events whose run can leave the typed lists of the trump-aware
    build: a [startRound] with a draw outside its range, which
    [Math.random] never produces, and the callback of a computer seat for
    which [playCard] returns [undefined] while a suit leads. *)
Definition leavesModelA (e : Event) (g : TrumpAware.Game) : Prop :=
  match e with
  | NextRound pick trumpPick =>
      ~ ((forall k, (pick k <= k)%nat) /\ (trumpPick < 4)%nat)
  | Run (AIPlay pid idx) =>
      exists p,
        lookupZ (TrumpAware.players g) pid = Some p
        /\ TrumpAware.leadingSuit g <> None
        /\ fst (TrumpAware.playCard (TrumpAware.leadingSuit g)
                  (TrumpAware.trumpSuit g) p) = None
  | _ => False
  end.

(** The same for the leading-suit-only build, where [playCard] returns
    [undefined] on an empty hand only. *)
Definition leavesModelB (e : Event) (g : LeadOnly.Game) : Prop :=
  match e with
  | NextRound pick _ => ~ (forall k, (pick k <= k)%nat)
  | Run (AIPlay pid idx) =>
      exists p,
        lookupZ (LeadOnly.players g) pid = Some p
        /\ LeadOnly.leadingSuit g <> None
        /\ hand p = []
  | _ => False
  end.

(** The table, the hands and the leading suit of a game. *)
Definition seenA (g : TrumpAware.Game) : list TrumpAware.Play * list (list Card) * option Suit :=
  (TrumpAware.table g, map hand (TrumpAware.players g), TrumpAware.leadingSuit g).

Definition seenB (g : LeadOnly.Game) : list LeadOnly.Play * list (list Card) * option Suit :=
  (LeadOnly.tableCards g, map hand (LeadOnly.players g), LeadOnly.leadingSuit g).

(** The hands after seat 0 has given up the card [c]. *)
Definition handsAfterClick (c : Card) (hands : list (list Card)) : list (list Card) :=
  match hands with
  | [] => []
  | h0 :: hs => filter (differs (Some c)) h0 :: hs
  end.

(** The leading suit once the card [c] is on the table. *)
Definition leadAfter (lead : option Suit) (c : Card) : option Suit :=
  match lead with
  | None => Some (suit c)
  | Some s => Some s
  end.

(** What a stored object has to hold for [restoreHistory] to read the
    snapshot [s] back: under the three names that [persistHistory] assigns
    (lines 141-146 and 547-552), the scores as an array of numbers, the
    dealer index and the round. *)
Section ReadingBack.

Import String.StringSyntax.
Local Open Scope string_scope.

Definition holdsSnapshot (v : Persistence.JSON) (s : Snapshot) : Prop :=
  Persistence.getNamed v "scores"
  = Ok (Some (Persistence.JArr (map Persistence.JNum (scores s))))
  /\ Persistence.getNamed v "dealerIndex"
     = Ok (Some (Persistence.JNum (savedDealerIndex s)))
  /\ Persistence.getNamed v "round" = Ok (Some (Persistence.JNum (savedRound s))).

End ReadingBack.

(** * Proofs *)

(** ** Arrays *)

Section ArrayFacts.

Context {A : Type}.

Lemma setAt_app (l1 l2 : list A) (a x : A) :
  setAt (length l1) x (l1 ++ a :: l2) = l1 ++ x :: l2.
Proof.
  induction l1 as [|h t IH]; simpl; [reflexivity | now rewrite IH].
Qed.

Lemma length_setAt (i : nat) (x : A) (l : list A) :
  length (setAt i x l) = length l.
Proof.
  revert i; induction l as [|h t IH]; intros [|i]; simpl; auto.
Qed.

Lemma nth_error_setAt_same (i : nat) (x : A) (l : list A) :
  (i < length l)%nat -> nth_error (setAt i x l) i = Some x.
Proof.
  revert i; induction l as [|h t IH]; intros [|i] Hi; simpl in *; try lia; auto.
  apply IH; lia.
Qed.

Lemma nth_error_setAt_other (i j : nat) (x : A) (l : list A) :
  i <> j -> nth_error (setAt i x l) j = nth_error l j.
Proof.
  revert i j; induction l as [|h t IH]; intros [|i] [|j] Hij; simpl; auto;
    try congruence.
Qed.

Lemma pop_snoc (l : list A) (x : A) : pop (l ++ [x]) = Some (x, l).
Proof.
  unfold pop. rewrite rev_app_distr. simpl. now rewrite rev_involutive.
Qed.

Lemma pop_Some (l l' : list A) (x : A) : pop l = Some (x, l') -> l = l' ++ [x].
Proof.
  unfold pop. destruct (rev l) as [|y r] eqn:E; [discriminate|].
  intros H; inversion H; subst.
  rewrite <- (rev_involutive l), E. reflexivity.
Qed.

Lemma pop_nonempty (l : list A) : l <> [] -> exists x l', pop l = Some (x, l').
Proof.
  intros Hl. destruct (exists_last Hl) as (l' & x & ->).
  exists x, l'. apply pop_snoc.
Qed.

End ArrayFacts.

(** ** Shuffling permutes the deck *)

Lemma count_setAt (l : list Card) (i : nat) (a b x : Card) :
  nth_error l i = Some a ->
  (count_occ Card_eq_dec (setAt i b l) x + (if Card_eq_dec a x then 1 else 0)
   = count_occ Card_eq_dec l x + (if Card_eq_dec b x then 1 else 0))%nat.
Proof.
  intros H. destruct (nth_error_split _ _ H) as (l1 & l2 & -> & <-).
  rewrite setAt_app, !count_occ_app. simpl.
  destruct (Card_eq_dec a x), (Card_eq_dec b x); lia.
Qed.

Lemma swapAt_perm (i j : nat) (cs cs' : list Card) :
  swapAt i j cs = Some cs' -> Permutation cs cs'.
Proof.
  unfold swapAt.
  destruct (nth_error cs i) as [ci|] eqn:Hi; [|discriminate].
  destruct (nth_error cs j) as [cj|] eqn:Hj; [|discriminate].
  intros H; inversion H; subst; clear H.
  apply (Permutation_count_occ Card_eq_dec). intros x.
  assert (Hj' : nth_error (setAt i cj cs) j = Some cj).
  { destruct (Nat.eq_dec i j) as [->|Hne].
    - apply nth_error_setAt_same. apply nth_error_Some. congruence.
    - now rewrite nth_error_setAt_other. }
  pose proof (count_setAt _ _ _ ci x Hj') as H1.
  pose proof (count_setAt _ _ _ cj x Hi) as H2.
  lia.
Qed.

Lemma swapAt_defined (i j : nat) (cs : list Card) :
  (i < length cs)%nat -> (j <= i)%nat -> exists cs', swapAt i j cs = Some cs'.
Proof.
  intros Hi Hj. unfold swapAt.
  destruct (nth_error cs i) eqn:Ei.
  - destruct (nth_error cs j) eqn:Ej; eauto.
    apply nth_error_None in Ej. lia.
  - apply nth_error_None in Ei. lia.
Qed.

Lemma shuffleFrom_perm (pick : nat -> nat) (i : nat) :
  (forall k, (pick k <= k)%nat) ->
  forall cs, (i < length cs)%nat ->
  exists cs', shuffleFrom pick i cs = Some cs' /\ Permutation cs cs'.
Proof.
  intros Hpick. induction i as [|i IH]; intros cs Hi; simpl.
  - eauto.
  - destruct (swapAt_defined (S i) (pick (S i)) cs Hi (Hpick _)) as (cs1 & E).
    rewrite E. pose proof (swapAt_perm _ _ _ _ E) as P.
    destruct (IH cs1) as (cs' & E' & P').
    + rewrite <- (Permutation_length P). lia.
    + exists cs'. split; [exact E' | now transitivity cs1].
Qed.

Lemma shuffle_perm (pick : nat -> nat) (d : Deck) :
  (forall k, (pick k <= k)%nat) ->
  exists d', shuffle pick d = Some d' /\ Permutation (cards d) (cards d').
Proof.
  intros Hpick. unfold shuffle.
  destruct (cards d) as [|c cs] eqn:E.
  - simpl. exists (mkDeck []). split; reflexivity.
  - destruct (shuffleFrom_perm pick (length (c :: cs) - 1) Hpick (c :: cs))
      as (cs' & E' & P); [simpl; lia|].
    rewrite E'. exists (mkDeck cs'). split; [reflexivity | exact P].
Qed.

(** ** Dealing *)

Lemma dealPass_spec (ps : list Player) :
  forall cs, (length ps <= length cs)%nat ->
  exists cs' ps',
    dealPass cs ps = Some (cs', ps')
    /\ Permutation (allHands ps' ++ cs') (allHands ps ++ cs)
    /\ length cs = (length cs' + length ps)%nat
    /\ map frame ps' = map frame ps
    /\ handSizes ps' = map S (handSizes ps).
Proof.
  induction ps as [|p ps IH]; intros cs Hlen; simpl in *.
  - exists cs, []. repeat split; auto.
  - destruct (pop_nonempty cs) as (c & cs1 & E).
    { destruct cs; simpl in *; [lia | discriminate]. }
    rewrite E. apply pop_Some in E. subst cs.
    rewrite length_app in Hlen. simpl in Hlen.
    destruct (IH cs1) as (cs2 & qs & E2 & P & L & F & H); [lia|].
    rewrite E2. eexists _, _. split; [reflexivity|].
    unfold allHands, handSizes in *. simpl.
    repeat split.
    + rewrite <- !app_assoc.
      apply Permutation_app_head.
      rewrite (app_assoc (concat (map hand ps)) cs1 [c]).
      rewrite <- P. simpl.
      apply (Permutation_cons_append (concat (map hand qs) ++ cs2) c).
    + rewrite length_app. simpl. lia.
    + now rewrite F.
    + rewrite H, length_app. simpl. f_equal. lia.
Qed.

Lemma dealRounds_spec (n : nat) :
  forall ps cs, (n * length ps <= length cs)%nat ->
  exists cs' ps',
    dealRounds n cs ps = Some (cs', ps')
    /\ Permutation (allHands ps' ++ cs') (allHands ps ++ cs)
    /\ length cs = (length cs' + n * length ps)%nat
    /\ map frame ps' = map frame ps
    /\ handSizes ps' = map (Nat.add n) (handSizes ps).
Proof.
  induction n as [|n IH]; intros ps cs Hlen; simpl in *.
  - exists cs, ps. repeat split; auto.
    symmetry. apply map_id.
  - destruct (dealPass_spec ps cs) as (cs1 & ps1 & E1 & P1 & L1 & F1 & H1); [lia|].
    rewrite E1.
    assert (Hl : length ps1 = length ps).
    { rewrite <- (length_map frame ps1), F1. apply length_map. }
    destruct (IH ps1 cs1) as (cs2 & ps2 & E2 & P2 & L2 & F2 & H2); [rewrite Hl; lia|].
    exists cs2, ps2. repeat split.
    + exact E2.
    + now rewrite P2.
    + rewrite Hl in L2. lia.
    + congruence.
    + rewrite H2, H1, map_map. apply map_ext. intros; lia.
Qed.

Lemma newDeck_counts (s : Suit) (r : Rank) :
  count_occ Card_eq_dec (cards newDeck) (mkCard s r) = 1%nat.
Proof. destruct s, r; reflexivity. Qed.

Lemma allHands_cleared (ps : list Player) : allHands (map (setHand []) ps) = [].
Proof. induction ps; simpl; auto. Qed.

Lemma dealtOut_intro (cs0 cs : list Card) (ps : list Player) :
  Permutation cs0 (cards newDeck) ->
  Permutation (allHands ps ++ cs) cs0 ->
  length cs0 = (length cs + 13 * 4)%nat ->
  length ps = 4%nat ->
  handSizes ps = [13; 13; 13; 13]%nat ->
  dealtOut (mkDeck cs) ps.
Proof.
  intros P0 P L Hps Hs.
  assert (Hcs : cs = []).
  { apply Permutation_length in P0. rewrite P0 in L. simpl in L.
    destruct cs; simpl in *; [reflexivity | lia]. }
  subst cs. rewrite app_nil_r in P.
  assert (Hcount : forall s r,
            count_occ Card_eq_dec (allHands ps) (mkCard s r) = 1%nat).
  { intros s r. rewrite <- (newDeck_counts s r).
    apply Permutation_count_occ. now transitivity cs0. }
  destruct ps as [|p0 [|p1 [|p2 [|p3 [|? ?]]]]]; try discriminate.
  unfold handSizes in Hs. simpl in Hs. injection Hs as H0 H1 H2 H3.
  unfold dealtOut, partitioned. simpl. split; [reflexivity|]. split; [reflexivity|].
  split; [repeat (apply Forall_cons; [assumption|]); apply Forall_nil|].
  split; [|exact Hcount].
  intros i j a b Hij Hi Hj [s r] Ha Hb.
  specialize (Hcount s r). unfold allHands in Hcount. simpl in Hcount.
  rewrite !count_occ_app in Hcount.
  apply (count_occ_In Card_eq_dec) in Ha, Hb.
  destruct i as [|[|[|[|i]]]]; simpl in Hi; inversion Hi; subst;
    try (destruct i; discriminate);
    destruct j as [|[|[|[|j]]]]; simpl in Hj; inversion Hj; subst;
    try (destruct j; discriminate); try congruence; lia.
Qed.

Lemma handSizes_empty (ps : list Player) :
  allHands ps = [] -> handSizes ps = map (fun _ => 0%nat) ps.
Proof.
  unfold allHands, handSizes. induction ps as [|p ps IH]; simpl; intros H; auto.
  apply app_eq_nil in H. destruct H as [-> H]. simpl. f_equal. auto.
Qed.

Lemma dealRounds_full (cs : list Card) (ps : list Player) :
  Permutation cs (cards newDeck) ->
  length ps = 4%nat ->
  allHands ps = [] ->
  exists ps',
    dealRounds 13 cs ps = Some ([], ps')
    /\ dealtOut (mkDeck []) ps'
    /\ map frame ps' = map frame ps.
Proof.
  intros P Hps Hempty.
  pose proof (Permutation_length P) as L. simpl in L.
  destruct (dealRounds_spec 13 ps cs) as (cs' & ps' & E & P' & L' & F & H);
    [rewrite Hps, L; simpl; lia|].
  assert (Hl : length ps' = 4%nat).
  { rewrite <- (length_map frame ps'), F, length_map. exact Hps. }
  rewrite Hempty in P'. simpl in P'.
  assert (D : dealtOut (mkDeck cs') ps').
  { apply (dealtOut_intro cs); auto.
    - rewrite L'. now rewrite Hps.
    - rewrite H, (handSizes_empty _ Hempty), map_map.
      destruct ps as [|? [|? [|? [|? [|? ?]]]]]; try discriminate. reflexivity. }
  assert (Hc : cs' = []) by apply D.
  subst cs'. exists ps'. auto.
Qed.

Lemma deal_trumpAware (pick : nat -> nat) (d : Deck) (ps : list Player) :
  (forall k, (pick k <= k)%nat) ->
  Permutation (cards d) (cards newDeck) ->
  length ps = 4%nat ->
  exists ps',
    TrumpAware.deal pick d ps = Some (mkDeck [], ps')
    /\ dealtOut (mkDeck []) ps'
    /\ map frame ps' = map frame ps.
Proof.
  intros Hpick P Hps. unfold TrumpAware.deal.
  destruct (shuffle_perm pick d Hpick) as (d' & -> & P').
  destruct (dealRounds_full (cards d') (map (setHand []) ps)) as (ps' & -> & D & F).
  - now rewrite <- P'.
  - now rewrite length_map.
  - apply allHands_cleared.
  - exists ps'. repeat split; try apply D.
    rewrite F, map_map. reflexivity.
Qed.

Lemma allHands_empty (ps : list Player) :
  Forall (fun p => hand p = []) ps -> allHands ps = [].
Proof.
  unfold allHands. induction 1 as [|p l Hp _ IH]; simpl; auto.
  now rewrite Hp.
Qed.

Lemma deal_leadOnly (pick : nat -> nat) (d : Deck) (ps : list Player) :
  (forall k, (pick k <= k)%nat) ->
  Permutation (cards d) (cards newDeck) ->
  length ps = 4%nat ->
  Forall (fun p => hand p = []) ps ->
  exists ps',
    LeadOnly.deal pick d ps = Some (mkDeck [], ps')
    /\ dealtOut (mkDeck []) ps'
    /\ map frame ps' = map frame ps.
Proof.
  intros Hpick P Hps Hempty. unfold LeadOnly.deal.
  destruct (shuffle_perm pick d Hpick) as (d' & -> & P').
  destruct (dealRounds_full (cards d') ps) as (ps' & -> & D & F); eauto.
  - now rewrite <- P'.
  - now apply allHands_empty.
Qed.

(** ** Starting a round *)

Lemma frame_score (a b : list Player) :
  map frame a = map frame b -> map score a = map score b.
Proof.
  intros H. apply (f_equal (map (fun f => snd f))) in H.
  now rewrite !map_map in H.
Qed.

Lemma frame_tricks (a b : list Player) :
  map frame a = map frame b -> map tricks a = map tricks b.
Proof.
  intros H. apply (f_equal (map (fun f => snd (fst f)))) in H.
  now rewrite !map_map in H.
Qed.

Lemma aiBids_hand (ps : list Player) : map hand (aiBids ps) = map hand ps.
Proof.
  destruct ps as [|p ps]; simpl; auto. f_equal.
  rewrite map_map. apply map_ext. intros q. unfold computeBid, computeBidWith.
  destruct (negb AI_ADVANCED_HEURISTIC); reflexivity.
Qed.

Lemma aiBids_score (ps : list Player) : map score (aiBids ps) = map score ps.
Proof.
  destruct ps as [|p ps]; simpl; auto. f_equal.
  rewrite map_map. apply map_ext. intros q. unfold computeBid, computeBidWith.
  destruct (negb AI_ADVANCED_HEURISTIC); reflexivity.
Qed.

Lemma aiBids_tricks (ps : list Player) : map tricks (aiBids ps) = map tricks ps.
Proof.
  destruct ps as [|p ps]; simpl; auto. f_equal.
  rewrite map_map. apply map_ext. intros q. unfold computeBid, computeBidWith.
  destruct (negb AI_ADVANCED_HEURISTIC); reflexivity.
Qed.

Lemma startRound_trumpAware (pick : nat -> nat) (trumpPick : nat) (g : TrumpAware.Game) :
  (forall k, (pick k <= k)%nat) ->
  (trumpPick < 4)%nat ->
  length (TrumpAware.players g) = 4%nat ->
  exists ps' t,
    TrumpAware.deal pick newDeck (map (setTricks 0) (TrumpAware.players g))
      = Some (mkDeck [], ps')
    /\ map frame ps' = map frame (map (setTricks 0) (TrumpAware.players g))
    /\ nth_error suits trumpPick = Some t
    /\ TrumpAware.startRound pick trumpPick g
       = (Ok tt,
          TrumpAware.mkGame (aiBids ps')
            (Z.rem (jsAdd (TrumpAware.dealerIndex g) 1) 4)
            (jsAdd (TrumpAware.round g) 1) t
            None [] [] (TrumpAware.state g) false true (TrumpAware.timers g)).
Proof.
  intros Hpick Ht Hps.
  destruct (deal_trumpAware pick newDeck (map (setTricks 0) (TrumpAware.players g)))
    as (ps' & E & _ & F); auto.
  { now rewrite length_map. }
  assert (exists t, nth_error suits trumpPick = Some t) as (t & Et).
  { destruct trumpPick as [|[|[|[|?]]]]; simpl; eauto; lia. }
  exists ps', t. repeat split; auto.
  unfold TrumpAware.startRound, bind, modify, gets, lift, typed. simpl.
  rewrite E, Et. reflexivity.
Qed.

Lemma startRound_leadOnly (pick : nat -> nat) (g : LeadOnly.Game) :
  (forall k, (pick k <= k)%nat) ->
  length (LeadOnly.players g) = 4%nat ->
  exists ps',
    LeadOnly.deal pick newDeck
      (map (fun p => setTricks 0 (setHand [] p)) (LeadOnly.players g))
      = Some (mkDeck [], ps')
    /\ map frame ps'
       = map frame (map (fun p => setTricks 0 (setHand [] p)) (LeadOnly.players g))
    /\ LeadOnly.startRound pick g
       = (Ok tt,
          LeadOnly.mkGame (aiBids ps')
            (Z.rem (jsAdd (LeadOnly.dealerIndex g) 1) 4) (jsAdd (LeadOnly.round g) 1)
            None [] [] (LeadOnly.state g) (Some LeadOnly.Bidding) false true
            (LeadOnly.timers g)).
Proof.
  intros Hpick Hps.
  destruct (deal_leadOnly pick newDeck
              (map (fun p => setTricks 0 (setHand [] p)) (LeadOnly.players g)))
    as (ps' & E & _ & F); auto.
  { now rewrite length_map. }
  { apply Forall_forall. intros p Hp. apply in_map_iff in Hp.
    destruct Hp as (q & <- & _). reflexivity. }
  exists ps'. split; [|split]; auto.
  unfold LeadOnly.startRound, bind, modify, gets, lift, typed. simpl.
  rewrite E. reflexivity.
Qed.

(** C1. For every deal performed by [Deck.deal] on four seats -- in either
    build, for every outcome of the random draws of the shuffle -- each
    seat afterwards holds exactly 13 cards, no card is in two hands, every
    (suit, rank) pair is held exactly once, and the deck is empty.  The
    trump-aware [deal] clears the hands itself; the leading-suit-only
    [deal] is run on the hands that its caller [startRound] has just
    cleared, which is the third part. *)
Theorem deal_partitions_the_deck
    (pick : nat -> nat) (d : Deck) (ps : list Player) (g : LeadOnly.Game) :
  (forall k, (pick k <= k)%nat) ->
  Permutation (cards d) (cards newDeck) ->
  length ps = 4%nat ->
  length (LeadOnly.players g) = 4%nat ->
  (exists d' ps', TrumpAware.deal pick d ps = Some (d', ps') /\ dealtOut d' ps')
  /\ (exists d' ps',
        LeadOnly.deal pick d (map (setHand []) ps) = Some (d', ps') /\ dealtOut d' ps')
  /\ (exists d' ps',
        LeadOnly.deal pick newDeck
          (map (fun p => setTricks 0 (setHand [] p)) (LeadOnly.players g))
          = Some (d', ps')
        /\ dealtOut d' ps'
        /\ exists g', LeadOnly.startRound pick g = (Ok tt, g')
                      /\ map hand (LeadOnly.players g') = map hand ps').
Proof.
  intros Hpick P Hps Hg. split; [|split].
  - destruct (deal_trumpAware pick d ps Hpick P Hps) as (ps' & E & D & _).
    eauto.
  - destruct (deal_leadOnly pick d (map (setHand []) ps) Hpick P) as (ps' & E & D & _).
    + now rewrite length_map.
    + apply Forall_forall. intros p Hp. apply in_map_iff in Hp.
      destruct Hp as (q & <- & _). reflexivity.
    + eauto.
  - destruct (startRound_leadOnly pick g Hpick Hg) as (ps' & E & _ & R).
    destruct (deal_leadOnly pick newDeck
                (map (fun p => setTricks 0 (setHand [] p)) (LeadOnly.players g))
                Hpick (Permutation_refl _)) as (ps'' & E' & D & _).
    + now rewrite length_map.
    + apply Forall_forall. intros p Hp. apply in_map_iff in Hp.
      destruct Hp as (q & <- & _). reflexivity.
    + rewrite E in E'. inversion E'; subst ps''.
      exists (mkDeck []), ps'. repeat split; try apply D; auto.
      eexists. split; [exact R|]. simpl. apply aiBids_hand.
Qed.

(** C1 at the new deck, the draws that always pick index 0, and the four
    seats of a new game. *)
Lemma deal_partitions_the_deck_witness :
  (exists d' ps',
     TrumpAware.deal (fun _ => 0%nat) newDeck (TrumpAware.players TrumpAware.initialGame)
       = Some (d', ps') /\ dealtOut d' ps')
  /\ (exists d' ps',
        LeadOnly.deal (fun _ => 0%nat) newDeck
          (map (setHand []) (TrumpAware.players TrumpAware.initialGame))
          = Some (d', ps') /\ dealtOut d' ps')
  /\ (exists d' ps',
        LeadOnly.deal (fun _ => 0%nat) newDeck
          (map (fun p => setTricks 0 (setHand [] p))
             (LeadOnly.players LeadOnly.initialGame))
          = Some (d', ps')
        /\ dealtOut d' ps'
        /\ exists g', LeadOnly.startRound (fun _ => 0%nat) LeadOnly.initialGame = (Ok tt, g')
                      /\ map hand (LeadOnly.players g') = map hand ps').
Proof.
  apply (deal_partitions_the_deck (fun _ => 0%nat) newDeck
           (TrumpAware.players TrumpAware.initialGame) LeadOnly.initialGame).
  - intros k. lia.
  - apply Permutation_refl.
  - reflexivity.
  - reflexivity.
Defined.

(** ** Round scoring *)

Lemma toDouble_exact (z : Z) : Z.abs z <= maxExact -> toDouble z = z.
Proof.
  intros H. unfold toDouble. cbv zeta.
  destruct (Z.leb_spec (Z.abs z) maxExact) as [L|L]; [reflexivity | lia].
Qed.



(** [finishRound] scores the seats first; whether it then completes is
    decided by [persistHistory]. *)
Lemma finishRound_run_A (g : TrumpAware.Game) :
  exists r g',
    TrumpAware.finishRound g = (r, g')
    /\ TrumpAware.players g' = map scoreSeat (TrumpAware.players g)
    /\ TrumpAware.dealerIndex g' = TrumpAware.dealerIndex g
    /\ TrumpAware.round g' = TrumpAware.round g
    /\ TrumpAware.timers g' = TrumpAware.timers g
    /\ (TrumpAware.state g = Primitive ->
        r = Throw TypeError /\ TrumpAware.state g' = Primitive
        /\ TrumpAware.nextRoundDisabled g' = TrumpAware.nextRoundDisabled g)
    /\ (TrumpAware.state g <> Primitive ->
        r = Ok tt
        /\ TrumpAware.state g'
           = Holder (Some (mkSnapshot (map score (map scoreSeat (TrumpAware.players g)))
                             (TrumpAware.dealerIndex g) (TrumpAware.round g)))
        /\ TrumpAware.nextRoundDisabled g' = false).
Proof.
  unfold TrumpAware.finishRound, TrumpAware.persistHistory, bind, modify, get, throw.
  cbn [fst snd TrumpAware.state TrumpAware.setPlayers].
  destruct (TrumpAware.state g) as [|w] eqn:E; eexists; eexists;
    (split; [reflexivity|]); cbn; rewrite ?E;
    repeat split; try reflexivity; try congruence; intros; congruence.
Qed.

Lemma finishRound_run_B (g : LeadOnly.Game) :
  exists r g',
    LeadOnly.finishRound g = (r, g')
    /\ LeadOnly.players g' = map scoreSeat (LeadOnly.players g)
    /\ LeadOnly.dealerIndex g' = LeadOnly.dealerIndex g
    /\ LeadOnly.round g' = LeadOnly.round g
    /\ LeadOnly.timers g' = LeadOnly.timers g
    /\ (LeadOnly.state g = Primitive ->
        r = Throw TypeError /\ LeadOnly.state g' = Primitive
        /\ LeadOnly.nextRoundDisabled g' = LeadOnly.nextRoundDisabled g)
    /\ (LeadOnly.state g <> Primitive ->
        r = Ok tt
        /\ LeadOnly.state g'
           = Holder (Some (mkSnapshot (map score (map scoreSeat (LeadOnly.players g)))
                             (LeadOnly.dealerIndex g) (LeadOnly.round g)))
        /\ LeadOnly.nextRoundDisabled g' = false).
Proof.
  unfold LeadOnly.finishRound, LeadOnly.persistHistory, bind, modify, get, throw.
  cbn [fst snd LeadOnly.state LeadOnly.setPlayers].
  destruct (LeadOnly.state g) as [|w] eqn:E; eexists; eexists;
    (split; [reflexivity|]); cbn; rewrite ?E;
    repeat split; try reflexivity; try congruence; intros; congruence.
Qed.



(** [toDouble] beyond 2^53: odd integers are rounded to a neighbour, a tie
    goes to the even significand, and the sign is kept. *)
Example toDouble_rounds_to_nearest_even :
  toDouble (maxExact + 1) = maxExact
  /\ toDouble (maxExact + 3) = maxExact + 4
  /\ toDouble (- (maxExact + 1)) = - maxExact
  /\ toDouble (2 * maxExact + 2) = 2 * maxExact
  /\ toDouble (2 * maxExact + 6) = 2 * maxExact + 8
  /\ toDouble (2 * maxExact + 5) = 2 * maxExact + 4.
Proof. repeat split. Qed.

(** At the edge of the exact range the sum is rounded: with no bid and one
    trick the delta is 1, and 2^53 + 1 is not a double. *)
Example scoring_rounds_beyond_the_exact_range :
  forall i h cs,
    scoreDelta (mkPlayer i h cs 0 1 maxExact) = 1
    /\ score (scoreSeat (mkPlayer i h cs 0 1 maxExact)) = maxExact
    /\ score (scoreSeat (mkPlayer i h cs 0 2 maxExact)) = maxExact + 2.
Proof. intros. repeat split. Qed.

(** ** Bidding *)

Lemma Suit_eqb_eq (a b : Suit) : Suit_eqb a b = true <-> a = b.
Proof. unfold Suit_eqb. destruct (Suit_eq_dec a b); split; congruence. Qed.

Lemma Suit_eqb_refl (a : Suit) : Suit_eqb a a = true.
Proof. now apply Suit_eqb_eq. Qed.

Lemma hcp_fold (h : list Card) (a : Z) : fold_left hcpStep h a = a + specHCP h.
Proof.
  revert a. induction h as [|c h IH]; intros a; simpl; [lia|].
  rewrite IH. unfold hcpStep, specPoints, AI_POINT_WEIGHTS.
  destruct (rank c); cbn [ace king queen jack]; lia.
Qed.

Lemma specHCP_nonneg (h : list Card) : 0 <= specHCP h.
Proof.
  induction h as [|c h IH]; simpl; [lia|].
  unfold specPoints. destruct (rank c); lia.
Qed.

Lemma countIn_bump (m : list (Suit * Z)) (s s' : Suit) :
  countIn (bump s m) s' = countIn m s' + (if Suit_eqb s s' then 1 else 0).
Proof.
  induction m as [|[k n] m IH]; simpl.
  - destruct (Suit_eqb s s'); lia.
  - destruct (Suit_eqb k s) eqn:E; simpl.
    + apply Suit_eqb_eq in E. subst k.
      destruct (Suit_eqb s s'); destruct (Z.eqb_spec n 0); lia.
    + destruct (Suit_eqb k s') eqn:E'; [|exact IH].
      apply Suit_eqb_eq in E'. subst k.
      destruct (Suit_eqb s s') eqn:E2; [|lia].
      apply Suit_eqb_eq in E2. subst. rewrite Suit_eqb_refl in E. discriminate.
Qed.

Lemma keys_bump (m : list (Suit * Z)) (s k : Suit) :
  In k (map fst (bump s m)) <-> k = s \/ In k (map fst m).
Proof.
  induction m as [|[k' n] m IH]; simpl.
  - intuition.
  - destruct (Suit_eqb k' s) eqn:E; simpl.
    + apply Suit_eqb_eq in E. subst. intuition.
    + rewrite IH. intuition.
Qed.

Lemma NoDup_bump (m : list (Suit * Z)) (s : Suit) :
  NoDup (map fst m) -> NoDup (map fst (bump s m)).
Proof.
  induction m as [|[k n] m IH]; simpl; intros H.
  - constructor; [intros [] | constructor].
  - inversion H as [|? ? Hk Hm]; subst.
    destruct (Suit_eqb k s) eqn:E; simpl.
    + constructor; assumption.
    + constructor; [|auto].
      rewrite keys_bump. intros [->|Hin]; [|contradiction].
      rewrite Suit_eqb_refl in E. discriminate.
Qed.

Lemma countIn_missing (m : list (Suit * Z)) (s : Suit) :
  ~ In s (map fst m) -> countIn m s = 0.
Proof.
  induction m as [|[k n] m IH]; simpl; intros H; [reflexivity|].
  destruct (Suit_eqb k s) eqn:E.
  - apply Suit_eqb_eq in E. tauto.
  - apply IH. tauto.
Qed.

Lemma bonus_fold (l : list Z) (a : Z) :
  fold_left (fun b cnt => b + Z.max 0 (cnt - 4)) l a
  = a + fold_right (fun cnt acc => Z.max 0 (cnt - 4) + acc) 0 l.
Proof.
  revert a. induction l as [|n l IH]; intros a; simpl; [lia|].
  rewrite IH. lia.
Qed.

Lemma lengthBonus_by_suit (m : list (Suit * Z)) :
  NoDup (map fst m) ->
  lengthBonus m
  = fold_right (fun s acc => Z.max 0 (countIn m s - 4) + acc) 0 suits.
Proof.
  unfold lengthBonus. rewrite bonus_fold. simpl.
  induction m as [|[k n] m IH]; intros H; simpl; [reflexivity|].
  inversion H as [|? ? Hk Hm]; subst.
  rewrite (IH Hm). apply countIn_missing in Hk.
  destruct k; simpl; rewrite Hk; lia.
Qed.

Lemma cardsInSuit_cons (s : Suit) (c : Card) (h : list Card) :
  cardsInSuit s (c :: h) = (if Suit_eqb (suit c) s then 1 else 0) + cardsInSuit s h.
Proof.
  unfold cardsInSuit. cbn [filter].
  destruct (Suit_eqb (suit c) s); cbn [length]; lia.
Qed.

Lemma suitCounts_fold (h : list Card) :
  forall m, NoDup (map fst m) ->
  let m' := fold_left (fun m c => bump (suit c) m) h m in
  NoDup (map fst m') /\ forall s, countIn m' s = countIn m s + cardsInSuit s h.
Proof.
  induction h as [|c h IH]; intros m Hm; simpl.
  - split; [assumption|]. intros s. unfold cardsInSuit. simpl. lia.
  - destruct (IH (bump (suit c) m) (NoDup_bump _ _ Hm)) as [N C].
    split; [exact N|]. intros s.
    rewrite C, countIn_bump, cardsInSuit_cons. lia.
Qed.

Lemma lengthBonus_spec (h : list Card) :
  lengthBonus (suitCounts h) = specLengthBonus h.
Proof.
  destruct (suitCounts_fold h [] (NoDup_nil _)) as [N C].
  unfold suitCounts. rewrite (lengthBonus_by_suit _ N).
  unfold specLengthBonus. simpl. rewrite !C. simpl. reflexivity.
Qed.

Lemma specLengthBonus_nonneg (h : list Card) : 0 <= specLengthBonus h.
Proof. unfold specLengthBonus. simpl. lia. Qed.

Lemma computeBidWith_spec (advanced : bool) (p : Player) :
  computeBidWith advanced p = setBid (specBid advanced (hand p)) p.
Proof.
  unfold computeBidWith, specBid. rewrite hcp_fold, lengthBonus_spec.
  destruct advanced; reflexivity.
Qed.

(** C8. [computeBid] sets the bid to [min(13, floor(HCP/2))] in simple mode
    and to [min(13, floor(HCP/2) + sum over the four suits of
    max(0, cardsInSuit - 4))] in advanced mode, with Ace=4, King=3, Queen=2,
    Jack=1; the bid lies in [0,13]; it is a function of the hand and the
    mode alone (two seats with the same hand get the same bid); the method
    changes nothing but the bid.  The build's constant selects the advanced
    mode. *)
Theorem computeBid_is_specBid (advanced : bool) (p : Player) :
  bid (computeBidWith advanced p) = specBid advanced (hand p)
  /\ specBid false (hand p) = Z.min 13 (specHCP (hand p) / 2)
  /\ specBid true (hand p) = Z.min 13 (specHCP (hand p) / 2 + specLengthBonus (hand p))
  /\ 0 <= bid (computeBidWith advanced p) <= 13
  /\ (forall q, hand q = hand p ->
        bid (computeBidWith advanced q) = bid (computeBidWith advanced p))
  /\ computeBidWith advanced p = setBid (bid (computeBidWith advanced p)) p
  /\ computeBid p = computeBidWith true p.
Proof.
  rewrite computeBidWith_spec. simpl.
  pose proof (specHCP_nonneg (hand p)) as H.
  pose proof (specLengthBonus_nonneg (hand p)) as B.
  pose proof (Z.div_pos (specHCP (hand p)) 2 H ltac:(lia)) as D.
  repeat split; try reflexivity.
  - unfold specBid. destruct advanced; lia.
  - unfold specBid. destruct advanced; lia.
  - intros q Hq. rewrite computeBidWith_spec. simpl. now rewrite Hq.
Qed.

(** ** Legality *)

Lemma isLegalIn_rule (s : Suit) (human : Player) (rest : list Player) (card : Card) :
  exists b,
    isLegalIn (Some s) (human :: rest) card = Ok b
    /\ (b = true <->
        (~ (exists c, In c (hand human) /\ suit c = s)) \/ suit card = s).
Proof.
  simpl. eexists. split; [reflexivity|].
  rewrite orb_true_iff, negb_true_iff, Suit_eqb_eq.
  destruct (existsb (suitIs (Some s)) (hand human)) eqn:E.
  - apply existsb_exists in E. destruct E as (c & Hc & Hs).
    apply Suit_eqb_eq in Hs.
    split; (intros [H|H]; [|right; exact H]).
    + discriminate.
    + exfalso. apply H. eauto.
  - split; (intros [H|H]; [|right; exact H]); left; [|reflexivity].
    intros (c & Hc & Hs).
    assert (existsb (suitIs (Some s)) (hand human) = true).
    { apply existsb_exists. exists c. split; auto. now apply Suit_eqb_eq. }
    congruence.
Qed.

(** C9. In both builds, with a leading suit established, [isLegal(card)]
    returns true exactly when the human seat's hand holds no card of the
    leading suit or the card is of the leading suit; with no leading suit
    it returns true for every card.  The call changes nothing. *)
Theorem isLegal_follows_suit :
  (forall (g : TrumpAware.Game) (card : Card),
      (TrumpAware.leadingSuit g = None -> TrumpAware.isLegal card g = (Ok true, g))
      /\ (forall s human rest,
            TrumpAware.leadingSuit g = Some s ->
            TrumpAware.players g = human :: rest ->
            exists b,
              TrumpAware.isLegal card g = (Ok b, g)
              /\ (b = true <->
                  (~ (exists c, In c (hand human) /\ suit c = s)) \/ suit card = s)))
  /\ (forall (g : LeadOnly.Game) (card : Card),
      (LeadOnly.leadingSuit g = None -> LeadOnly.isLegal card g = (Ok true, g))
      /\ (forall s human rest,
            LeadOnly.leadingSuit g = Some s ->
            LeadOnly.players g = human :: rest ->
            exists b,
              LeadOnly.isLegal card g = (Ok b, g)
              /\ (b = true <->
                  (~ (exists c, In c (hand human) /\ suit c = s)) \/ suit card = s))).
Proof.
  split; intros g card; split.
  - intros H. unfold TrumpAware.isLegal, bind, get, lift. now rewrite H.
  - intros s human rest Hs Hp.
    destruct (isLegalIn_rule s human rest card) as (b & E & Hb).
    exists b. split; [|exact Hb].
    unfold TrumpAware.isLegal, bind, get, lift. now rewrite Hs, Hp, E.
  - intros H. unfold LeadOnly.isLegal, bind, get, lift. now rewrite H.
  - intros s human rest Hs Hp.
    destruct (isLegalIn_rule s human rest card) as (b & E & Hb).
    exists b. split; [|exact Hb].
    unfold LeadOnly.isLegal, bind, get, lift. now rewrite Hs, Hp, E.
Qed.

(** C9 on a hand that holds a heart and a spade, hearts leading: the heart
    is legal, the spade is not; a hand without hearts may play the spade. *)
Example isLegal_examples :
  let g h := TrumpAware.setLeadingSuit (Some Heart)
               (TrumpAware.setPlayers [setHand h (newPlayer 0 true)] TrumpAware.initialGame) in
  let both := [mkCard Heart R5; mkCard Spade RK] in
  fst (TrumpAware.isLegal (mkCard Heart R5) (g both)) = Ok true
  /\ fst (TrumpAware.isLegal (mkCard Spade RK) (g both)) = Ok false
  /\ fst (TrumpAware.isLegal (mkCard Spade RK) (g [mkCard Spade RK])) = Ok true.
Proof. repeat split. Qed.

(** ** Trick resolution in the trump-aware build *)

(** C2, the code at the failing input.  In the last trick of a round the
    human leads the 3 of hearts; seat 1 has no heart and plays its trump,
    the 2 of spades; seat 2 follows with the ace of hearts and seat 3 with
    the 4.  Every card is put on the table by the handlers themselves.  A
    trump is on the table, yet the loop hands the trick to the ace of
    hearts played after it: the second disjunct of the test (a leading-suit
    card against a winner that is not of the leading suit) also fires when
    the current winner is the trump card.  Seat 2 is credited with the
    trick.  With the ace led and the 3 of hearts third, the trick goes
    from the trump to the 3 of hearts and on to the 4 of hearts of
    seat 3. *)
Theorem resolveTrick_trump_loses_to_later_lead_card :
  (exists g1 g2 g3 g4,
      TrumpAware.onCardClick (mkCard Heart R3)
        (lastTrickOpenA (mkCard Heart R3) (mkCard Heart RA)) = (Ok tt, g1)
      /\ TrumpAware.timers g1 = [AIPlay 1 1]
      /\ TrumpAware.fire (AIPlay 1 1) g1 = (Ok tt, g2)
      /\ TrumpAware.timers g2 = [AIPlay 2 2]
      /\ TrumpAware.fire (AIPlay 2 2) g2 = (Ok tt, g3)
      /\ TrumpAware.timers g3 = [AIPlay 3 3]
      /\ map tricks (TrumpAware.players g3) = [4; 3; 2; 3]
      /\ TrumpAware.fire (AIPlay 3 3) g3 = (Ok tt, g4)
      /\ TrumpAware.table g4
         = [TrumpAware.mkPlay 0 (mkCard Heart R3);
            TrumpAware.mkPlay 1 (mkCard Spade R2);
            TrumpAware.mkPlay 2 (mkCard Heart RA);
            TrumpAware.mkPlay 3 (mkCard Heart R4)]
      /\ TrumpAware.trumpSuit g4 = Spade
      /\ TrumpAware.leadingSuit g4 = Some Heart
      /\ TrumpAware.winningPlay (TrumpAware.trumpSuit g4) (TrumpAware.leadingSuit g4)
           (TrumpAware.table g4)
         = Ok (TrumpAware.mkPlay 2 (mkCard Heart RA))
      /\ map tricks (TrumpAware.players g4) = [4; 3; 3; 3]
      /\ TrumpAware.timers g4 = [TrickWon])
  /\ (exists g1 g2 g3 g4,
        TrumpAware.onCardClick (mkCard Heart RA)
          (lastTrickOpenA (mkCard Heart RA) (mkCard Heart R3)) = (Ok tt, g1)
        /\ TrumpAware.fire (AIPlay 1 1) g1 = (Ok tt, g2)
        /\ TrumpAware.fire (AIPlay 2 2) g2 = (Ok tt, g3)
        /\ TrumpAware.fire (AIPlay 3 3) g3 = (Ok tt, g4)
        /\ TrumpAware.table g4
           = [TrumpAware.mkPlay 0 (mkCard Heart RA);
              TrumpAware.mkPlay 1 (mkCard Spade R2);
              TrumpAware.mkPlay 2 (mkCard Heart R3);
              TrumpAware.mkPlay 3 (mkCard Heart R4)]
        /\ TrumpAware.winningPlay (TrumpAware.trumpSuit g4)
             (TrumpAware.leadingSuit g4) (TrumpAware.table g4)
           = Ok (TrumpAware.mkPlay 3 (mkCard Heart R4))
        /\ map tricks (TrumpAware.players g4) = [4; 3; 2; 4]).
Proof.
  split.
  - do 4 eexists.
    split; [vm_compute; reflexivity|]. split; [reflexivity|].
    split; [vm_compute; reflexivity|]. split; [reflexivity|].
    split; [vm_compute; reflexivity|]. split; [reflexivity|].
    split; [reflexivity|].
    split; [vm_compute; reflexivity|].
    repeat split.
  - do 4 eexists.
    split; [vm_compute; reflexivity|].
    split; [vm_compute; reflexivity|].
    split; [vm_compute; reflexivity|].
    split; [vm_compute; reflexivity|].
    repeat split.
Qed.

(** What the loop does guarantee: a trump play placed last, or followed by
    no card of a leading suit other than trump, keeps the trick. *)
Lemma takesOver_trump_stays (trump : Suit) (lead : option Suit)
    (t winning : TrumpAware.Play) :
  suit (TrumpAware.card winning) = trump ->
  suitIs lead (TrumpAware.card t) = false \/ lead = Some trump ->
  suit (TrumpAware.card
          (if TrumpAware.takesOver trump lead t winning then t else winning)) = trump.
Proof.
  intros Hw Hl. unfold TrumpAware.takesOver.
  rewrite Hw, Suit_eqb_refl. simpl.
  destruct (Suit_eqb (suit (TrumpAware.card t)) trump) eqn:Et.
  - apply Suit_eqb_eq in Et. destruct (_ || _); auto.
  - simpl. rewrite andb_true_r.
    destruct Hl as [Hl | ->].
    + rewrite Hl. simpl. exact Hw.
    + simpl. rewrite Et. simpl. exact Hw.
Qed.

Lemma trump_stays_to_the_end (trump : Suit) (lead : option Suit)
    (post : list TrumpAware.Play) :
  Forall (fun t => suitIs lead (TrumpAware.card t) = false \/ lead = Some trump) post ->
  forall w, suit (TrumpAware.card w) = trump ->
  suit (TrumpAware.card
          (fold_left (fun winning t =>
                        if TrumpAware.takesOver trump lead t winning then t else winning)
             post w)) = trump.
Proof.
  induction 1 as [|t post Ht _ IH]; intros w Hw; simpl; [exact Hw|].
  apply IH. now apply takesOver_trump_stays.
Qed.

(** The trump play does win when no card of a leading suit other than trump
    is placed after it: the part of claim C2 that the loop delivers. *)
Lemma trump_wins_unless_lead_card_follows (trump : Suit) (lead : option Suit)
    (pre post : list TrumpAware.Play) (t : TrumpAware.Play) :
  suit (TrumpAware.card t) = trump ->
  Forall (fun u => suitIs lead (TrumpAware.card u) = false \/ lead = Some trump) post ->
  exists w,
    TrumpAware.winningPlay trump lead (pre ++ t :: post) = Ok w
    /\ suit (TrumpAware.card w) = trump.
Proof.
  intros Ht Hpost.
  assert (Hgo : forall w0,
             suit (TrumpAware.card
                     (fold_left (fun winning u =>
                                   if TrumpAware.takesOver trump lead u winning
                                   then u else winning)
                        (pre ++ t :: post) w0)) = trump).
  { intros w0. rewrite fold_left_app. simpl.
    apply trump_stays_to_the_end; [exact Hpost|].
    set (w1 := fold_left _ pre w0).
    destruct (Suit_eq_dec (suit (TrumpAware.card w1)) trump) as [E|E].
    - apply takesOver_trump_stays; [exact E|].
      destruct lead as [s|]; [|now left]. simpl.
      destruct (Suit_eqb (suit (TrumpAware.card t)) s) eqn:Es; [|now left].
      apply Suit_eqb_eq in Es. right. congruence.
    - unfold TrumpAware.takesOver. rewrite Ht, Suit_eqb_refl.
      assert (Suit_eqb (suit (TrumpAware.card w1)) trump = false) as ->.
      { destruct (Suit_eqb _ _) eqn:B; [|reflexivity].
        apply Suit_eqb_eq in B. contradiction. }
      simpl. exact Ht. }
  unfold TrumpAware.winningPlay.
  destruct (pre ++ t :: post) as [|t0 rest] eqn:E.
  - destruct pre; discriminate.
  - eexists. split; [reflexivity|]. apply Hgo.
Qed.

(** ** The play policy *)

(** C4, the code at the failing input, trump-aware build.  The hand holds
    one heart, diamonds lead and spades are trump: [hand.filter(...) || hand]
    never falls back to the hand because an empty array is truthy, so the
    candidates are empty, [playCard] returns [undefined] and the hand keeps
    its card. *)
Theorem playCard_without_lead_or_trump_plays_nothing :
  let p := setHand [mkCard Heart R2] (newPlayer 1 false) in
  TrumpAware.playCard (Some Diamond) Spade p = (None, p)
  /\ length (hand (snd (TrumpAware.playCard (Some Diamond) Spade p))) = 1%nat
  /\ LeadOnly.playCard (Some Diamond) p = (Some (mkCard Heart R2), setHand [] p).
Proof. repeat split. Qed.

Section SortFacts.

Variable key : Card -> Z.
Variable cmp : Card -> Card -> Z.
Hypothesis cmp_key : forall a b, cmp a b = key a - key b.

Lemma insertBy_perm (x : Card) (l : list Card) :
  Permutation (insertBy cmp x l) (x :: l).
Proof.
  induction l as [|y r IH]; simpl; [reflexivity|].
  destruct (cmp x y <=? 0); [reflexivity|].
  rewrite IH. apply perm_swap.
Qed.

Lemma sortBy_perm (l : list Card) : Permutation (sortBy cmp l) l.
Proof.
  induction l as [|x l IH]; simpl; [reflexivity|].
  rewrite insertBy_perm. now apply perm_skip.
Qed.

Lemma sortBy_head_least (l : list Card) :
  forall c r, sortBy cmp l = c :: r -> forall x, In x l -> key c <= key x.
Proof.
  induction l as [|a l IH]; intros c r E x Hx; [destruct Hx|].
  simpl in E. destruct (sortBy cmp l) as [|y r0] eqn:S.
  - assert (l = []) as ->.
    { pose proof (sortBy_perm l) as P. rewrite S in P.
      now apply Permutation_nil. }
    simpl in E. inversion E; subst. destruct Hx as [->|[]]. lia.
  - simpl in E. destruct (Z.leb_spec (cmp a y) 0) as [L|L];
      inversion E; subst; clear E; rewrite cmp_key in L.
    + destruct Hx as [->|Hx]; [lia|].
      specialize (IH y r0 eq_refl x Hx). lia.
    + destruct Hx as [->|Hx]; [lia|].
      exact (IH c r0 eq_refl x Hx).
Qed.

Lemma sortBy_head_exists (l : list Card) :
  l <> [] -> exists c r, sortBy cmp l = c :: r /\ In c l.
Proof.
  intros Hl. pose proof (sortBy_perm l) as P.
  destruct (sortBy cmp l) as [|c r] eqn:S.
  - apply Permutation_nil in P. contradiction.
  - exists c, r. split; [reflexivity|].
    apply (Permutation_in c P). now left.
Qed.

End SortFacts.

Lemma Card_eqb_eq (a b : Card) : Card_eqb a b = true <-> a = b.
Proof. unfold Card_eqb. destruct (Card_eq_dec a b); split; congruence. Qed.

Lemma filter_differs_absent (c : Card) (l : list Card) :
  ~ In c l -> filter (differs (Some c)) l = l.
Proof.
  induction l as [|a l IH]; simpl; intros H; [reflexivity|].
  destruct (Card_eqb a c) eqn:E; simpl.
  - apply Card_eqb_eq in E. tauto.
  - f_equal. apply IH. tauto.
Qed.

Lemma filter_differs_removes_one (c : Card) (l : list Card) :
  NoDup l -> In c l -> Permutation (c :: filter (differs (Some c)) l) l.
Proof.
  induction l as [|a l IH]; intros N H; [destruct H|].
  inversion N as [|? ? Ha Hl]; subst. simpl.
  destruct (Card_eqb a c) eqn:E; simpl.
  - apply Card_eqb_eq in E. subst a.
    now rewrite filter_differs_absent.
  - destruct H as [->|H].
    + assert (Card_eqb c c = true) by now apply Card_eqb_eq. congruence.
    + rewrite perm_swap. apply perm_skip. now apply IH.
Qed.

(** The choice made among non-empty candidates: the greatest value when the
    seat still needs tricks, the least otherwise. *)
Lemma sorted_choice (needs : bool) (cands : list Card) :
  cands <> [] ->
  exists c,
    nth_error (if needs then sortBy descending cands else sortBy ascending cands) 0
      = Some c
    /\ In c cands
    /\ (needs = true -> forall x, In x cands -> value x <= value c)
    /\ (needs = false -> forall x, In x cands -> value c <= value x).
Proof.
  intros Hc. destruct needs.
  - destruct (sortBy_head_exists descending cands Hc) as (c & r & S & Hin).
    exists c. rewrite S. repeat split; auto; [|discriminate].
    intros _ x Hx.
    pose proof (sortBy_head_least (fun c => - value c) descending
                  ltac:(intros; unfold descending; lia) cands c r S x Hx).
    simpl in H. lia.
  - destruct (sortBy_head_exists ascending cands Hc) as (c & r & S & Hin).
    exists c. rewrite S. repeat split; auto; [discriminate|].
    intros _ x Hx.
    exact (sortBy_head_least value ascending
             ltac:(intros; unfold ascending; lia) cands c r S x Hx).
Qed.

(** In the trump-aware build a computer seat that leads plays a trump or
    nothing: with no leading suit the candidates of [playCard] are the
    trumps of the hand. *)
Lemma leading_computer_seat_plays_trump (trump : Suit) (p : Player) (c : Card) :
  fst (TrumpAware.playCard None trump p) = Some c -> suit c = trump.
Proof.
  unfold TrumpAware.playCard, arrayTruthy. cbn [fst].
  assert (F : filter (suitIs None) (hand p) = []).
  { clear. induction (hand p) as [|a l IH]; [reflexivity | exact IH]. }
  rewrite F. cbn [length Nat.eqb].
  set (trumps := filter (fun c => Suit_eqb (suit c) trump) (hand p)).
  intros H. apply nth_error_In in H.
  assert (Hin : In c trumps).
  { destruct (tricks p <? bid p).
    - eapply Permutation_in; [|exact H]. apply sortBy_perm.
    - eapply Permutation_in; [|exact H]. apply sortBy_perm. }
  unfold trumps in Hin. apply filter_In in Hin. destruct Hin as [_ Hs].
  now apply Suit_eqb_eq.
Qed.

(** The leading-suit-only [playCard] on a non-empty hand of distinct cards:
    the policy of section 4.3 of the specification. *)
Lemma playCard_leadOnly_policy (lead : option Suit) (p : Player) :
  NoDup (hand p) ->
  hand p <> [] ->
  exists c,
    fst (LeadOnly.playCard lead p) = Some c
    /\ In c (candidatesLeadOnly lead (hand p))
    /\ (tricks p < bid p ->
        forall x, In x (candidatesLeadOnly lead (hand p)) -> value x <= value c)
    /\ (bid p <= tricks p ->
        forall x, In x (candidatesLeadOnly lead (hand p)) -> value c <= value x)
    /\ Permutation (c :: hand (snd (LeadOnly.playCard lead p))) (hand p)
    /\ frame (snd (LeadOnly.playCard lead p)) = frame p.
Proof.
  intros N Hne. unfold LeadOnly.playCard, candidatesLeadOnly.
  set (followers := filter (suitIs lead) (hand p)).
  set (cands := if (length followers =? 0)%nat then hand p else followers).
  assert (Hc : cands <> []).
  { unfold cands. destruct followers; simpl; [assumption | discriminate]. }
  assert (Hsub : forall x, In x cands -> In x (hand p)).
  { unfold cands, followers. intros x.
    destruct (length _ =? 0)%nat; [auto|]. intros H. now apply filter_In in H. }
  destruct (sorted_choice (tricks p <? bid p) cands Hc) as (c & E & Hin & Hhi & Hlo).
  exists c. cbn [fst snd]. rewrite E.
  split; [reflexivity|]. split; [exact Hin|].
  split; [intros H; apply Hhi; now apply Z.ltb_lt|].
  split; [intros H; apply Hlo; now apply Z.ltb_ge|].
  split; [|reflexivity].
  cbn [hand setHand]. clear E Hhi Hlo. subst cands.
  destruct (length followers =? 0)%nat.
  - assert (P : Permutation
                  (if tricks p <? bid p then sortBy descending (hand p)
                   else sortBy ascending (hand p)) (hand p)).
    { destruct (tricks p <? bid p); apply sortBy_perm. }
    etransitivity; [|exact P]. apply filter_differs_removes_one.
    + apply (Permutation_NoDup (Permutation_sym P) N).
    + apply (Permutation_in c (Permutation_sym P)). auto.
  - apply filter_differs_removes_one; auto.
Qed.

(** The trump-aware [playCard] follows the same policy whenever the hand
    holds a card of the leading suit or, failing that, a trump. *)
Lemma playCard_trumpAware_policy (lead : option Suit) (trump : Suit) (p : Player) :
  NoDup (hand p) ->
  candidatesTrumpAware lead trump (hand p) <> [] ->
  exists c,
    fst (TrumpAware.playCard lead trump p) = Some c
    /\ In c (candidatesTrumpAware lead trump (hand p))
    /\ (tricks p < bid p ->
        forall x, In x (candidatesTrumpAware lead trump (hand p)) -> value x <= value c)
    /\ (bid p <= tricks p ->
        forall x, In x (candidatesTrumpAware lead trump (hand p)) -> value c <= value x)
    /\ Permutation (c :: hand (snd (TrumpAware.playCard lead trump p))) (hand p)
    /\ frame (snd (TrumpAware.playCard lead trump p)) = frame p.
Proof.
  intros N Hc. unfold TrumpAware.playCard, arrayTruthy.
  fold (candidatesTrumpAware lead trump (hand p)).
  set (cands := candidatesTrumpAware lead trump (hand p)) in *.
  assert (Hsub : forall x, In x cands -> In x (hand p)).
  { unfold cands, candidatesTrumpAware. intros x.
    destruct (length _ =? 0)%nat; intros H; now apply filter_In in H. }
  destruct (sorted_choice (tricks p <? bid p) cands Hc) as (c & E & Hin & Hhi & Hlo).
  exists c. cbn [fst snd]. rewrite E.
  split; [reflexivity|]. split; [exact Hin|].
  split; [intros H; apply Hhi; now apply Z.ltb_lt|].
  split; [intros H; apply Hlo; now apply Z.ltb_ge|].
  split; [|reflexivity].
  cbn [hand setHand]. apply filter_differs_removes_one; auto.
Qed.

(** ** A trick of four plays has a winner *)

Lemma fold_choose_In {A : Type} (f : A -> A -> bool) (l : list A) :
  forall w0, In (fold_left (fun w t => if f t w then t else w) l w0) (w0 :: l).
Proof.
  induction l as [|t l IH]; intros w0; simpl; [auto|].
  destruct (IH (if f t w0 then t else w0)) as [H|H]; [|auto].
  destruct (f t w0); rewrite <- H; auto.
Qed.

Lemma winningPlay_trumpAware_defined (trump : Suit) (lead : option Suit)
    (t0 : TrumpAware.Play) (rest : list TrumpAware.Play) :
  exists w, TrumpAware.winningPlay trump lead (t0 :: rest) = Ok w
            /\ In w (t0 :: rest).
Proof.
  unfold TrumpAware.winningPlay. eexists. split; [reflexivity|].
  destruct (fold_choose_In (TrumpAware.takesOver trump lead) (t0 :: rest) t0)
    as [H|H]; [rewrite <- H; now left | exact H].
Qed.

Lemma winningPlay_leadOnly_defined (s : Suit) (tbl : list LeadOnly.Play) :
  (exists t, In t tbl /\ suit (LeadOnly.card t) = s) ->
  exists w, LeadOnly.winningPlay (Some s) tbl = Ok w
            /\ In w tbl /\ suit (LeadOnly.card w) = s.
Proof.
  intros (t & Ht & Hs). unfold LeadOnly.winningPlay, reduce1.
  set (followers := filter (fun t => suitIs (Some s) (LeadOnly.card t)) tbl).
  assert (Hin : In t followers).
  { apply filter_In. split; [exact Ht|]. simpl. now apply Suit_eqb_eq. }
  destruct followers as [|x r] eqn:E; [destruct Hin|].
  eexists. split; [reflexivity|].
  pose proof (fold_choose_In
                (fun t best => value (LeadOnly.card t) >? value (LeadOnly.card best))
                r x) as H.
  rewrite <- E in H. unfold followers in H. apply filter_In in H.
  destruct H as [H1 H2]. split; [exact H1|]. simpl in H2. now apply Suit_eqb_eq.
Qed.

(** What holds of four placements that complete.  Take any game, reset the
    table and the leading suit as [playTrick] does, and let four calls of
    [placeCard] (trump-aware build) or [placeOnTable] (leading-suit-only
    build) return.  Then the four cards were defined, the table holds the four plays in order, the leading suit
    is the suit of the first play, so a play of the leading suit exists; the
    first table entry exists and the trump-aware loop returns a winner from
    the table; the leading-suit filter is not empty and the [reduce] of the
    leading-suit-only build returns a winner of the leading suit. *)
Lemma four_completed_placements_have_winner :
  (forall (g0 : TrumpAware.Game) p1 p2 p3 p4 c1 c2 c3 c4 g4,
      (TrumpAware.placeCard p1 c1 ;; TrumpAware.placeCard p2 c2 ;;
       TrumpAware.placeCard p3 c3 ;; TrumpAware.placeCard p4 c4)
        (TrumpAware.setLeadingSuit None (TrumpAware.setTable [] g0)) = (Ok tt, g4) ->
      exists k1 k2 k3 k4,
        c1 = Some k1 /\ c2 = Some k2 /\ c3 = Some k3 /\ c4 = Some k4
        /\ TrumpAware.table g4
           = [TrumpAware.mkPlay p1 k1; TrumpAware.mkPlay p2 k2;
              TrumpAware.mkPlay p3 k3; TrumpAware.mkPlay p4 k4]
        /\ TrumpAware.leadingSuit g4 = Some (suit k1)
        /\ nth_error (TrumpAware.table g4) 0 = Some (TrumpAware.mkPlay p1 k1)
        /\ exists w,
             TrumpAware.winningPlay (TrumpAware.trumpSuit g4)
               (TrumpAware.leadingSuit g4) (TrumpAware.table g4) = Ok w
             /\ In w (TrumpAware.table g4))
  /\ (forall (g0 : LeadOnly.Game) p1 p2 p3 p4 c1 c2 c3 c4 g4,
      (LeadOnly.placeOnTable p1 c1 ;; LeadOnly.placeOnTable p2 c2 ;;
       LeadOnly.placeOnTable p3 c3 ;; LeadOnly.placeOnTable p4 c4)
        (LeadOnly.setLeadingSuit None (LeadOnly.setTableCards [] g0)) = (Ok tt, g4) ->
      exists k1 k2 k3 k4,
        c1 = Some k1 /\ c2 = Some k2 /\ c3 = Some k3 /\ c4 = Some k4
        /\ LeadOnly.tableCards g4
           = [LeadOnly.mkPlay p1 k1; LeadOnly.mkPlay p2 k2;
              LeadOnly.mkPlay p3 k3; LeadOnly.mkPlay p4 k4]
        /\ LeadOnly.leadingSuit g4 = Some (suit k1)
        /\ filter (fun t => suitIs (LeadOnly.leadingSuit g4) (LeadOnly.card t))
             (LeadOnly.tableCards g4) <> []
        /\ exists w,
             LeadOnly.winningPlay (LeadOnly.leadingSuit g4) (LeadOnly.tableCards g4)
               = Ok w
             /\ In w (LeadOnly.tableCards g4)
             /\ Some (suit (LeadOnly.card w)) = LeadOnly.leadingSuit g4).
Proof.
  split.
  - intros g0 p1 p2 p3 p4 c1 c2 c3 c4 g4 H.
    destruct c1 as [k1|]; [|discriminate H].
    destruct c2 as [k2|]; [|discriminate H].
    destruct c3 as [k3|]; [|discriminate H].
    destruct c4 as [k4|]; [|discriminate H].
    cbv in H. inversion H; subst g4; clear H.
    exists k1, k2, k3, k4. cbn [TrumpAware.table TrumpAware.leadingSuit TrumpAware.trumpSuit].
    repeat (split; [reflexivity|]).
    apply winningPlay_trumpAware_defined.
  - intros g0 p1 p2 p3 p4 c1 c2 c3 c4 g4 H.
    destruct c1 as [k1|]; [|discriminate H].
    destruct c2 as [k2|]; [|discriminate H].
    destruct c3 as [k3|]; [|discriminate H].
    destruct c4 as [k4|]; [|discriminate H].
    cbv in H. inversion H; subst g4; clear H.
    exists k1, k2, k3, k4. cbn [LeadOnly.tableCards LeadOnly.leadingSuit].
    repeat (split; [reflexivity|]).
    assert (Hlead : exists t,
               In t [LeadOnly.mkPlay p1 k1; LeadOnly.mkPlay p2 k2;
                     LeadOnly.mkPlay p3 k3; LeadOnly.mkPlay p4 k4]
               /\ suit (LeadOnly.card t) = suit k1).
    { eexists. split; [left; reflexivity | reflexivity]. }
    split.
    + cbn [filter LeadOnly.card suitIs]. rewrite Suit_eqb_refl. discriminate.
    + destruct (winningPlay_leadOnly_defined _ _ Hlead) as (w & E & Hin & Hs).
      exists w. repeat split; auto. now rewrite Hs.
Qed.


(** ** A trick of four plays without a winner *)

(** On plays that all have their card, the loop of [Untyped] is the loop of
    [TrumpAware]. *)
Lemma visit_typed (trump : Suit) (lead : option Suit) (tbl : list TrumpAware.Play) :
  forall w : TrumpAware.Play,
    fold_left (Untyped.visit trump lead)
      (map (fun t => Untyped.mkPlay (TrumpAware.pid t) (Some (TrumpAware.card t))) tbl)
      (Ok (Untyped.mkPlay (TrumpAware.pid w) (Some (TrumpAware.card w))))
    = Ok (let w' := fold_left
                      (fun winning t =>
                         if TrumpAware.takesOver trump lead t winning then t else winning)
                      tbl w in
          Untyped.mkPlay (TrumpAware.pid w') (Some (TrumpAware.card w'))).
Proof.
  induction tbl as [|t tbl IH]; intros w; [reflexivity|].
  cbn [map fold_left Untyped.visit Untyped.card Untyped.pid].
  replace (TrumpAware.mkPlay (TrumpAware.pid t) (TrumpAware.card t)) with t
    by (destruct t; reflexivity).
  replace (TrumpAware.mkPlay (TrumpAware.pid w) (TrumpAware.card w)) with w
    by (destruct w; reflexivity).
  destruct (TrumpAware.takesOver trump lead t w); apply IH.
Qed.

Lemma winningPlay_typed (trump : Suit) (lead : option Suit) (tbl : list TrumpAware.Play) :
  Untyped.winningPlay trump lead
    (map (fun t => Untyped.mkPlay (TrumpAware.pid t) (Some (TrumpAware.card t))) tbl)
  = match TrumpAware.winningPlay trump lead tbl with
    | Ok w => Ok (Untyped.mkPlay (TrumpAware.pid w) (Some (TrumpAware.card w)))
    | Throw e => Throw e
    | OffModel => OffModel
    end.
Proof.
  destruct tbl as [|t0 rest]; [reflexivity|].
  unfold Untyped.winningPlay, TrumpAware.winningPlay.
  change (map (fun t => Untyped.mkPlay (TrumpAware.pid t) (Some (TrumpAware.card t)))
            (t0 :: rest))
    with (Untyped.mkPlay (TrumpAware.pid t0) (Some (TrumpAware.card t0))
          :: map (fun t => Untyped.mkPlay (TrumpAware.pid t) (Some (TrumpAware.card t)))
               rest).
  cbv iota beta.
  change (Untyped.mkPlay (TrumpAware.pid t0) (Some (TrumpAware.card t0))
          :: map (fun t => Untyped.mkPlay (TrumpAware.pid t) (Some (TrumpAware.card t)))
               rest)
    with (map (fun t => Untyped.mkPlay (TrumpAware.pid t) (Some (TrumpAware.card t)))
            (t0 :: rest)).
  apply visit_typed.
Qed.

(** With a card in hand, [placeCard] of [Untyped] does what [placeCard] of
    [TrumpAware] does. *)
Lemma placeCard_typed (g : TrumpAware.Game) (pid : Z) (c : Card) :
  Untyped.placeCard pid (Some c) (Untyped.ofTyped g)
  = (fst (TrumpAware.placeCard pid (Some c) g),
     Untyped.ofTyped (snd (TrumpAware.placeCard pid (Some c) g))).
Proof.
  unfold Untyped.placeCard, TrumpAware.placeCard, Untyped.ofTyped, bind, get, modify,
    lift, ret.
  cbn [fst snd Untyped.leadingSuit deref].
  destruct (TrumpAware.leadingSuit g) eqn:E; cbn; rewrite ?E, map_app; reflexivity.
Qed.

Lemma updatePlayer_typed (g : TrumpAware.Game) (i : Z) (f : Player -> Player) :
  Untyped.updatePlayer i f (Untyped.ofTyped g)
  = (fst (TrumpAware.updatePlayer i f g),
     Untyped.ofTyped (snd (TrumpAware.updatePlayer i f g))).
Proof.
  unfold Untyped.updatePlayer, TrumpAware.updatePlayer, bind, get, lift, modify.
  cbn [fst snd Untyped.players Untyped.ofTyped].
  destruct (lookupZ (TrumpAware.players g) i); reflexivity.
Qed.

Lemma resolveTrick_typed (g : TrumpAware.Game) :
  Untyped.resolveTrick (Untyped.ofTyped g)
  = (fst (TrumpAware.resolveTrick g), Untyped.ofTyped (snd (TrumpAware.resolveTrick g))).
Proof.
  unfold Untyped.resolveTrick, TrumpAware.resolveTrick, bind, get, lift.
  change (Untyped.table (Untyped.ofTyped g))
    with (map (fun t => Untyped.mkPlay (TrumpAware.pid t) (Some (TrumpAware.card t)))
            (TrumpAware.table g)).
  change (Untyped.trumpSuit (Untyped.ofTyped g)) with (TrumpAware.trumpSuit g).
  change (Untyped.leadingSuit (Untyped.ofTyped g)) with (TrumpAware.leadingSuit g).
  rewrite winningPlay_typed.
  destruct (TrumpAware.winningPlay (TrumpAware.trumpSuit g) (TrumpAware.leadingSuit g)
              (TrumpAware.table g)) as [w|e|]; try reflexivity.
  cbn [Untyped.pid]. rewrite updatePlayer_typed.
  destruct (TrumpAware.updatePlayer (TrumpAware.pid w)
              (fun p => setTricks (tricks p + 1) p) g) as [[[]|e|] g1]; reflexivity.
Qed.

Lemma nextToPlay_typed (idx : Z) (g : TrumpAware.Game) :
  Untyped.nextToPlay idx (Untyped.ofTyped g)
  = (fst (TrumpAware.nextToPlay idx g),
     Untyped.ofTyped (snd (TrumpAware.nextToPlay idx g))).
Proof.
  unfold Untyped.nextToPlay, TrumpAware.nextToPlay.
  destruct (idx >=? 4); [apply resolveTrick_typed|].
  unfold bind, get, lift, throw, ret.
  change (Untyped.playOrder (Untyped.ofTyped g)) with (TrumpAware.playOrder g).
  change (Untyped.players (Untyped.ofTyped g)) with (TrumpAware.players g).
  destruct (lookupZ (TrumpAware.playOrder g) idx) as [pid|]; [|reflexivity].
  destruct (lookupZ (TrumpAware.players g) pid) as [p|]; [|reflexivity].
  cbn [deref]. destruct (isHuman p); reflexivity.
Qed.

(** A click is handled in [Untyped] as it is in [TrumpAware]. *)
Lemma onCardClick_typed (c : Card) (g : TrumpAware.Game) :
  Untyped.onCardClick c (Untyped.ofTyped g)
  = (fst (TrumpAware.onCardClick c g),
     Untyped.ofTyped (snd (TrumpAware.onCardClick c g))).
Proof.
  unfold Untyped.onCardClick, TrumpAware.onCardClick, Untyped.isLegal, TrumpAware.isLegal.
  unfold bind, get, lift, ret.
  change (Untyped.leadingSuit (Untyped.ofTyped g)) with (TrumpAware.leadingSuit g).
  change (Untyped.players (Untyped.ofTyped g)) with (TrumpAware.players g).
  destruct (isLegalIn (TrumpAware.leadingSuit g) (TrumpAware.players g) c)
    as [[|]|e|]; try reflexivity.
  cbn [negb]. rewrite updatePlayer_typed.
  destruct (TrumpAware.updatePlayer 0
              (fun p => setHand (filter (differs (Some c)) (hand p)) p) g)
    as [[[]|e|] g1]; try reflexivity.
  cbn [fst snd]. rewrite placeCard_typed.
  destruct (TrumpAware.placeCard 0 (Some c) g1) as [[[]|e|] g2]; try reflexivity.
  cbn [fst snd].
  replace (length (Untyped.table (Untyped.ofTyped g2)))
    with (length (TrumpAware.table g2))
    by (unfold Untyped.ofTyped; cbn [Untyped.table]; now rewrite length_map).
  apply nextToPlay_typed.
Qed.

(** The callback of a computer seat runs in [Untyped] as it does in
    [TrumpAware] whenever [TrumpAware] stays within its typed lists. *)
Lemma fireAIPlay_typed (pid idx : Z) (g : TrumpAware.Game) :
  fst (TrumpAware.fire (AIPlay pid idx) g) <> OffModel ->
  Untyped.fireAIPlay pid idx (Untyped.ofTyped g)
  = (fst (TrumpAware.fire (AIPlay pid idx) g),
     Untyped.ofTyped (snd (TrumpAware.fire (AIPlay pid idx) g))).
Proof.
  unfold Untyped.fireAIPlay, TrumpAware.fire, Untyped.aiPlay, TrumpAware.aiPlay.
  unfold bind, get, lift, modify.
  set (g0 := TrumpAware.setTimers (dequeue (AIPlay pid idx) (TrumpAware.timers g)) g).
  change (Untyped.setTimers
            (dequeue (AIPlay pid idx) (Untyped.timers (Untyped.ofTyped g)))
            (Untyped.ofTyped g))
    with (Untyped.ofTyped g0).
  change (Untyped.players (Untyped.ofTyped g0)) with (TrumpAware.players g0).
  change (Untyped.leadingSuit (Untyped.ofTyped g0)) with (TrumpAware.leadingSuit g0).
  change (Untyped.trumpSuit (Untyped.ofTyped g0)) with (TrumpAware.trumpSuit g0).
  destruct (lookupZ (TrumpAware.players g0) pid) as [p|]; [|reflexivity].
  cbn [deref].
  destruct (TrumpAware.playCard (TrumpAware.leadingSuit g0) (TrumpAware.trumpSuit g0) p)
    as [card p'].
  rewrite updatePlayer_typed.
  destruct (TrumpAware.updatePlayer pid (fun _ => p') g0) as [[[]|e|] g1];
    try reflexivity.
  cbn [fst snd].
  destruct card as [c|].
  - rewrite placeCard_typed.
    destruct (TrumpAware.placeCard pid (Some c) g1) as [[[]|e|] g2];
      try reflexivity.
    cbn [fst snd]. intros _. apply nextToPlay_typed.
  - unfold Untyped.placeCard, TrumpAware.placeCard, bind, get, lift, throw, modify.
    change (Untyped.leadingSuit (Untyped.ofTyped g1)) with (TrumpAware.leadingSuit g1).
    destruct (TrumpAware.leadingSuit g1); [intros H; now contradiction H | reflexivity].
Qed.

(** C10, the code at the failing input, trump-aware build.  The human
    leads the 3 of hearts.  Seat 1 holds neither a heart nor a trump:
    [playCard] returns [undefined], [placeCard] pushes the play without a
    card and raises in [animateToCenter], and the callback ends without
    calling on seat 2.  The human clicks the 5 of hearts, which follows
    suit; the play is the third of the table, so seat 3 is called and
    plays the 4 of hearts.  The table now holds four plays, the leading
    suit is the suit of the first card and three plays match it, and
    [nextToPlay(4)] runs [resolveTrick]: the loop raises a [TypeError] at
    [t.card.suit] of the second play.  No trick is credited and no callback
    is left.  In [TrumpAware] the callback of seat 1 leaves the typed
    lists. *)
Theorem trick_of_four_without_winner :
  exists g1 g2 g3 g4,
    Untyped.onCardClick (mkCard Heart R3) (Untyped.ofTyped clubsAgainstHearts)
    = (Ok tt, g1)
    /\ g1 = Untyped.ofTyped
              (snd (TrumpAware.onCardClick (mkCard Heart R3) clubsAgainstHearts))
    /\ Untyped.timers g1 = [AIPlay 1 1]
    /\ TrumpAware.playCard (Untyped.leadingSuit g1) (Untyped.trumpSuit g1)
         (mkPlayer 1 false [mkCard Club R2; mkCard Club R7] 2 3 0)
       = (None, mkPlayer 1 false [mkCard Club R2; mkCard Club R7] 2 3 0)
    /\ Untyped.fireAIPlay 1 1 g1 = (Throw TypeError, g2)
    /\ Untyped.table g2
       = [Untyped.mkPlay 0 (Some (mkCard Heart R3)); Untyped.mkPlay 1 None]
    /\ Untyped.timers g2 = []
    /\ Untyped.onCardClick (mkCard Heart R5) g2 = (Ok tt, g3)
    /\ Untyped.timers g3 = [AIPlay 3 3]
    /\ Untyped.fireAIPlay 3 3 g3 = (Throw TypeError, g4)
    /\ Untyped.table g4
       = [Untyped.mkPlay 0 (Some (mkCard Heart R3)); Untyped.mkPlay 1 None;
          Untyped.mkPlay 0 (Some (mkCard Heart R5));
          Untyped.mkPlay 3 (Some (mkCard Heart R4))]
    /\ Untyped.leadingSuit g4 = Some Heart
    /\ Untyped.winningPlay (Untyped.trumpSuit g4) (Untyped.leadingSuit g4)
         (Untyped.table g4) = Throw TypeError
    /\ Untyped.resolveTrick g4 = (Throw TypeError, g4)
    /\ map tricks (Untyped.players g4)
       = map tricks (TrumpAware.players clubsAgainstHearts)
    /\ Untyped.timers g4 = []
    /\ fst (TrumpAware.fire (AIPlay 1 1)
              (snd (TrumpAware.onCardClick (mkCard Heart R3) clubsAgainstHearts)))
       = OffModel.
Proof.
  do 4 eexists.
  split; [vm_compute; reflexivity|]. split; [reflexivity|]. split; [reflexivity|].
  split; [reflexivity|].
  split; [vm_compute; reflexivity|]. split; [reflexivity|]. split; [reflexivity|].
  split; [vm_compute; reflexivity|]. split; [reflexivity|].
  split; [vm_compute; reflexivity|].
  repeat split.
Qed.

(** ** Fields that a method leaves alone *)

Section Keeps.

Context {S X : Type} (proj : S -> X).

Lemma keeps_ret {A : Type} (a : A) : keeps proj (ret a).
Proof. intros s. reflexivity. Qed.

Lemma keeps_lift {A : Type} (r : Result A) : keeps proj (lift r).
Proof. intros s. reflexivity. Qed.

Lemma keeps_get : keeps proj get.
Proof. intros s. reflexivity. Qed.

Lemma keeps_gets {A : Type} (f : S -> A) : keeps proj (gets f).
Proof. intros s. reflexivity. Qed.

Lemma keeps_modify (f : S -> S) :
  (forall s, proj (f s) = proj s) -> keeps proj (modify f).
Proof. intros H s. apply H. Qed.

Lemma keeps_bind {A B : Type} (m : M S A) (k : A -> M S B) :
  keeps proj m -> (forall a, keeps proj (k a)) -> keeps proj (bind m k).
Proof.
  intros Hm Hk s. unfold bind. specialize (Hm s).
  destruct (m s) as [[a|e|] s']; simpl in *; [|assumption|assumption].
  now rewrite Hk.
Qed.

End Keeps.

Ltac keeps_step :=
  first
    [ apply keeps_ret | apply keeps_lift | apply keeps_get | apply keeps_gets
    | apply keeps_modify; intros; reflexivity
    | apply keeps_bind; [|intros] ].

Lemma keeps_schedule_A (t : Timer) : keeps orderA (TrumpAware.schedule t).
Proof. unfold TrumpAware.schedule. keeps_step. Qed.

Lemma keeps_updatePlayer_A (i : Z) (f : Player -> Player) :
  keeps orderA (TrumpAware.updatePlayer i f).
Proof. unfold TrumpAware.updatePlayer. repeat keeps_step. Qed.

Lemma keeps_persistHistory_A : keeps orderA TrumpAware.persistHistory.
Proof.
  intros s. unfold TrumpAware.persistHistory, bind, get, throw, lift, modify.
  cbn [fst snd]. destruct (TrumpAware.state s); reflexivity.
Qed.

Lemma keeps_finishRound_A : keeps orderA TrumpAware.finishRound.
Proof.
  unfold TrumpAware.finishRound.
  repeat first [apply keeps_persistHistory_A | keeps_step].
Qed.

Lemma keeps_resolveTrick_A : keeps orderA TrumpAware.resolveTrick.
Proof.
  unfold TrumpAware.resolveTrick.
  repeat first [apply keeps_updatePlayer_A | apply keeps_schedule_A | keeps_step].
Qed.

Lemma keeps_nextToPlay_A (idx : Z) : keeps orderA (TrumpAware.nextToPlay idx).
Proof.
  unfold TrumpAware.nextToPlay, throw.
  destruct (idx >=? 4); [apply keeps_resolveTrick_A|].
  apply keeps_bind; [keeps_step|]. intros g.
  destruct (lookupZ (TrumpAware.playOrder g) idx); [|keeps_step].
  apply keeps_bind; [keeps_step|]. intros p.
  destruct (isHuman p); [keeps_step | apply keeps_schedule_A].
Qed.

Lemma keeps_playTrick_A : keeps orderA TrumpAware.playTrick.
Proof.
  unfold TrumpAware.playTrick.
  apply keeps_bind; [keeps_step|]. intros g.
  apply keeps_bind; [keeps_step|]. intros human.
  destruct (length (hand human) =? 0)%nat; [apply keeps_finishRound_A|].
  repeat first [apply keeps_nextToPlay_A | keeps_step].
Qed.

Lemma keeps_placeCard_A (pid : Z) (card : option Card) :
  keeps orderA (TrumpAware.placeCard pid card).
Proof.
  unfold TrumpAware.placeCard, throw.
  apply keeps_bind; [keeps_step|]. intros g.
  destruct (TrumpAware.leadingSuit g), card; repeat keeps_step.
Qed.

Lemma keeps_onCardClick_A (card : Card) : keeps orderA (TrumpAware.onCardClick card).
Proof.
  unfold TrumpAware.onCardClick, TrumpAware.isLegal.
  apply keeps_bind; [repeat keeps_step|]. intros legal.
  destruct (negb legal); [keeps_step|].
  repeat first [apply keeps_updatePlayer_A | apply keeps_placeCard_A
               | apply keeps_nextToPlay_A | keeps_step].
Qed.

Lemma keeps_aiPlay_A (pid idx : Z) : keeps orderA (TrumpAware.aiPlay pid idx).
Proof.
  unfold TrumpAware.aiPlay.
  apply keeps_bind; [keeps_step|]. intros g.
  apply keeps_bind; [keeps_step|]. intros p.
  destruct (TrumpAware.playCard _ _ p) as [card p'].
  repeat first [apply keeps_updatePlayer_A | apply keeps_placeCard_A
               | apply keeps_nextToPlay_A | keeps_step].
Qed.

Lemma keeps_fire_A (t : Timer) : keeps orderA (TrumpAware.fire t).
Proof.
  unfold TrumpAware.fire, TrumpAware.trickWon.
  apply keeps_bind; [keeps_step|]. intros _.
  destruct t; [apply keeps_aiPlay_A | apply keeps_playTrick_A | keeps_step].
Qed.

Lemma keeps_schedule_B (t : Timer) : keeps orderB (LeadOnly.schedule t).
Proof. unfold LeadOnly.schedule. keeps_step. Qed.

Lemma keeps_persistHistory_B : keeps orderB LeadOnly.persistHistory.
Proof.
  intros s. unfold LeadOnly.persistHistory, bind, get, throw, lift, modify.
  cbn [fst snd]. destruct (LeadOnly.state s); reflexivity.
Qed.

Lemma keeps_finishRound_B : keeps orderB LeadOnly.finishRound.
Proof.
  unfold LeadOnly.finishRound.
  repeat first [apply keeps_persistHistory_B | keeps_step].
Qed.

Lemma keeps_nextToPlay_B (idx : Z) : keeps orderB (LeadOnly.nextToPlay idx).
Proof.
  unfold LeadOnly.nextToPlay, throw.
  apply keeps_bind; [keeps_step|]. intros g.
  destruct (lookupZ (LeadOnly.playOrder g) idx); [|keeps_step].
  apply keeps_bind; [keeps_step|]. intros p.
  destruct (isHuman p); [keeps_step | apply keeps_schedule_B].
Qed.

Lemma keeps_playTrick_B : keeps orderB LeadOnly.playTrick.
Proof.
  unfold LeadOnly.playTrick.
  apply keeps_bind; [keeps_step|]. intros g.
  apply keeps_bind; [keeps_step|]. intros human.
  destruct (length (hand human) =? 0)%nat; [apply keeps_finishRound_B|].
  repeat first [apply keeps_nextToPlay_B | keeps_step].
Qed.

(** ** Turn order of the later tricks *)

(** C5 fails as stated.  Seat 3 wins the trick, but in both builds the next
    trick is opened by seat 1, the first seat of the order computed at bid
    time: the callback scheduled for the next play is the one of seat 1 and
    [playOrder] is still [1, 2, 3, 0], not [3, 0, 1, 2]. *)
Lemma next_trick_not_led_by_winner :
  (exists w g',
      TrumpAware.winningPlay Spade (Some Heart) (TrumpAware.table lateTrickA) = Ok w
      /\ TrumpAware.pid w = 3
      /\ (TrumpAware.resolveTrick ;; TrumpAware.fire TrickWon) lateTrickA = (Ok tt, g')
      /\ map tricks (TrumpAware.players g') = [0; 0; 0; 1]
      /\ TrumpAware.playOrder g' = [1; 2; 3; 0]
      /\ TrumpAware.timers g' = [AIPlay 1 0]
      /\ TrumpAware.playOrder g' <> ledBy (TrumpAware.pid w))
  /\ (exists w g',
      LeadOnly.winningPlay (Some Heart) (LeadOnly.tableCards lateTrickB) = Ok w
      /\ LeadOnly.playerId w = 3
      /\ LeadOnly.fire Resolve lateTrickB = (Ok tt, g')
      /\ map tricks (LeadOnly.players g') = [0; 0; 0; 1]
      /\ LeadOnly.dealerIndex g' = 3
      /\ LeadOnly.playOrder g' = [1; 2; 3; 0]
      /\ LeadOnly.timers g' = [AIPlay 1 0]
      /\ LeadOnly.playOrder g' <> ledBy (LeadOnly.playerId w)).
Proof.
  split; eexists; eexists; repeat (split; [reflexivity|]); discriminate.
Qed.

Lemma nextToPlay_calls_on_order_A (g : TrumpAware.Game) (idx pid : Z) (p : Player) :
  idx < 4 ->
  lookupZ (TrumpAware.playOrder g) idx = Some pid ->
  lookupZ (TrumpAware.players g) pid = Some p ->
  TrumpAware.nextToPlay idx g
  = (Ok tt,
     if isHuman p then g
     else TrumpAware.setTimers (TrumpAware.timers g ++ [AIPlay pid idx]) g).
Proof.
  intros Hi Ho Hp. unfold TrumpAware.nextToPlay.
  destruct (Z.geb_spec idx 4); [lia|].
  unfold bind, get, lift, TrumpAware.schedule, modify, ret. rewrite Ho, Hp. simpl.
  destruct (isHuman p); reflexivity.
Qed.

(** C5 as amended.  Trump-aware build: [determineTurnOrder] sets the order
    to (dealer+1, dealer+2, dealer+3, dealer+4) mod 4; resolving a trick and
    starting the next one, any scheduled callback, and any card click leave
    [playOrder] and [dealerIndex] as they were; [nextToPlay(idx)] calls on
    seat [playOrder[idx]].  So every trick of the round is played in the
    order fixed at bid time.  Leading-suit-only build: [resolveTrick]
    leaves the winner's seat in [dealerIndex]. *)
Theorem later_tricks_keep_bid_time_order :
  (forall g : TrumpAware.Game,
      fst (TrumpAware.determineTurnOrder g) = Ok tt
      /\ TrumpAware.playOrder (snd (TrumpAware.determineTurnOrder g))
         = [Z.rem (TrumpAware.dealerIndex g + 1) 4; Z.rem (TrumpAware.dealerIndex g + 2) 4;
            Z.rem (TrumpAware.dealerIndex g + 3) 4; Z.rem (TrumpAware.dealerIndex g + 4) 4])
  /\ (forall g : TrumpAware.Game,
        orderA (snd ((TrumpAware.resolveTrick ;; TrumpAware.fire TrickWon) g)) = orderA g)
  /\ (forall (g : TrumpAware.Game) t, orderA (snd (TrumpAware.fire t g)) = orderA g)
  /\ (forall (g : TrumpAware.Game) c, orderA (snd (TrumpAware.onCardClick c g)) = orderA g)
  /\ (forall (g : TrumpAware.Game) idx pid p,
        idx < 4 ->
        lookupZ (TrumpAware.playOrder g) idx = Some pid ->
        lookupZ (TrumpAware.players g) pid = Some p ->
        TrumpAware.nextToPlay idx g
        = (Ok tt,
           if isHuman p then g
           else TrumpAware.setTimers (TrumpAware.timers g ++ [AIPlay pid idx]) g))
  /\ (forall (g : LeadOnly.Game) w p,
        LeadOnly.winningPlay (LeadOnly.leadingSuit g) (LeadOnly.tableCards g) = Ok w ->
        lookupZ (LeadOnly.players g) (LeadOnly.playerId w) = Some p ->
        LeadOnly.dealerIndex (snd (LeadOnly.resolveTrick g)) = LeadOnly.playerId w).
Proof.
  split; [|split; [|split; [|split; [|split]]]].
  - intros g. split; reflexivity.
  - intros g. apply keeps_bind; [apply keeps_resolveTrick_A | intros; apply keeps_fire_A].
  - intros g t. apply keeps_fire_A.
  - intros g c. apply keeps_onCardClick_A.
  - exact nextToPlay_calls_on_order_A.
  - intros g w p Hw Hp. unfold LeadOnly.resolveTrick.
    unfold bind at 1. unfold get. unfold bind at 1. unfold lift at 1. rewrite Hw.
    unfold bind at 1. unfold LeadOnly.updatePlayer.
    unfold bind at 1. unfold get. unfold bind at 1. unfold lift at 1. rewrite Hp.
    cbn [deref]. unfold modify at 1. unfold bind at 1. unfold modify at 1.
    match goal with
    | |- LeadOnly.dealerIndex (snd (LeadOnly.playTrick ?s)) = _ =>
        pose proof (keeps_playTrick_B s) as K
    end.
    unfold orderB in K. injection K as _ K. rewrite K. reflexivity.
Qed.

(** ** From one round to the next *)

(** C6 fails as stated in the leading-suit-only build.  The round was dealt
    by seat 0; [resolveTrick] overwrites [dealerIndex] with the winner of
    the last trick, seat 3, before it reaches [finishRound]; the next
    [startRound] then makes seat (3+1) mod 4 = 0 the dealer again instead of
    seat 1. *)
Lemma next_dealer_follows_last_winner :
  LeadOnly.dealerIndex lastTrickB = 0
  /\ exists g1 g2,
       LeadOnly.fire Resolve lastTrickB = (Ok tt, g1)
       /\ LeadOnly.nextRoundDisabled g1 = false
       /\ LeadOnly.dealerIndex g1 = 3
       /\ LeadOnly.startRound (fun _ => 0%nat) g1 = (Ok tt, g2)
       /\ LeadOnly.round g2 = LeadOnly.round lastTrickB + 1
       /\ LeadOnly.dealerIndex g2 = 0
       /\ LeadOnly.dealerIndex g2 <> (LeadOnly.dealerIndex lastTrickB + 1) mod 4.
Proof.
  split; [reflexivity|].
  eexists. eexists.
  split; [vm_compute; reflexivity|].
  split; [reflexivity|]. split; [reflexivity|].
  split; [vm_compute; reflexivity|].
  split; [reflexivity|]. split; [reflexivity|].
  vm_compute. discriminate.
Qed.

Lemma keeps_snd {S X Y A : Type} (f : S -> X * Y) (m : M S A) :
  keeps f m -> keeps (fun s => snd (f s)) m.
Proof. intros H s. now rewrite H. Qed.

Lemma keeps_onHumanBid_A (v : option Z) :
  keeps TrumpAware.dealerIndex (TrumpAware.onHumanBid v).
Proof.
  unfold TrumpAware.onHumanBid, TrumpAware.determineTurnOrder.
  destruct v as [v|]; [|keeps_step].
  destruct ((v <? 0) || (v >? 13)); [keeps_step|].
  repeat first
    [ apply (keeps_snd orderA), keeps_updatePlayer_A
    | apply (keeps_snd orderA), keeps_playTrick_A
    | keeps_step ].
Qed.

Lemma map_tricks_reset (ps : list Player) :
  Forall (fun t => t = 0) (map tricks (map (setTricks 0) ps)).
Proof. induction ps; simpl; constructor; auto. Qed.

Lemma length_scored (ps : list Player) : length (map scoreSeat ps) = length ps.
Proof. apply length_map. Qed.

(** ** Loading the stored match state *)

Section LoadingFacts.

Import String.StringSyntax.
Local Open Scope string_scope.

(** C7 fails as stated.  Stored text that is not JSON makes [loadState]
    raise a [SyntaxError], and a stored [null] makes [restoreHistory] raise a
    [TypeError]; nothing in the constructor catches either.  A stored object
    of the wrong shape whose [scores] is truthy is copied, not replaced by
    the defaults: the string [abcd] gives the four seats the scores [a],
    [b], [c], [d]. *)
Lemma malformed_state_is_not_recovered :
  Persistence.loadMatch Persistence.NotJSON Persistence.freshMatch
  = (Throw SyntaxError, Persistence.freshMatch)
  /\ Persistence.loadMatch (Persistence.JSONText Persistence.JNull) Persistence.freshMatch
     = (Throw TypeError, Persistence.freshMatch)
  /\ Persistence.loadMatch
       (Persistence.JSONText
          (Persistence.JObj [("scores", Persistence.JStr "abcd")]))
       Persistence.freshMatch
     = (Ok tt,
        Persistence.mkMatch
          [Persistence.JStr "a"; Persistence.JStr "b";
           Persistence.JStr "c"; Persistence.JStr "d"]
          (Persistence.JNum 0) (Persistence.JNum 0))
  /\ ~ (forall item, exists m,
          Persistence.loadMatch item Persistence.freshMatch = (Ok tt, m)).
Proof.
  repeat split.
  intros H. destruct (H Persistence.NotJSON) as (m & E). discriminate E.
Qed.

Lemma getIndex_defined (sv : Persistence.JSON) (i : nat) :
  Persistence.truthy (Some sv) = true ->
  exists o, Persistence.getIndex sv i = Ok o.
Proof. destruct sv; simpl; intros H; try discriminate; eauto. Qed.

Lemma forEachSeat_defined (f : nat -> M Persistence.MatchState unit) (n : nat) :
  (forall i m, exists m', f i m = (Ok tt, m')) ->
  forall i m, exists m', Persistence.forEachSeat n i f m = (Ok tt, m').
Proof.
  intros Hf. induction n as [|n IH]; intros i m; simpl.
  - eexists. reflexivity.
  - unfold bind. destruct (Hf i m) as (m1 & ->). apply IH.
Qed.

Lemma restoreHistory_defined (state : Persistence.JSON) (m : Persistence.MatchState) :
  state <> Persistence.JNull ->
  exists m', Persistence.restoreHistory state m = (Ok tt, m').
Proof.
  intros Hs. unfold Persistence.restoreHistory.
  assert (Hn : forall name, exists o, Persistence.getNamed state name = Ok o).
  { intros name. destruct state; simpl; eauto. congruence. }
  destruct (Hn "scores") as (stored & Es).
  unfold bind at 1. unfold lift at 1. rewrite Es.
  destruct (Persistence.truthy stored) eqn:T; [|eexists; reflexivity].
  unfold bind at 1. unfold get at 1. unfold bind at 1.
  match goal with
  | |- context [Persistence.forEachSeat ?n ?j ?f ?m0] =>
      assert (Hf : forall i m, exists m', f i m = (Ok tt, m'));
      [|destruct (forEachSeat_defined f n Hf j m0) as (m1 & ->)]
  end.
  { intros i m0. unfold bind, lift.
    destruct stored as [sv|]; [|discriminate T].
    destruct (getIndex_defined sv i T) as (o & ->).
    eexists. reflexivity. }
  destruct (Hn "dealerIndex") as (d & Ed).
  destruct (Hn "round") as (r & Er).
  unfold bind, lift, modify. rewrite Ed, Er. eexists. reflexivity.
Qed.

(** C7 as amended.  Loading ends normally with the fresh-match defaults
    (four zero scores, dealer 0, round 0) when nothing is stored, when the
    empty string is stored, and when the stored text is JSON other than
    [null] whose [scores] property is missing or falsy.  Loading ends
    normally exactly when the stored text is neither non-JSON nor [null];
    in those two cases it raises and leaves the match state untouched. *)
Theorem loadMatch_defaults_and_failures :
  (forall item,
      (item = Persistence.Missing
       \/ item = Persistence.EmptyText
       \/ exists v o, item = Persistence.JSONText v
                      /\ Persistence.getNamed v "scores" = Ok o
                      /\ Persistence.truthy o = false) ->
      Persistence.loadMatch item Persistence.freshMatch = (Ok tt, Persistence.freshMatch))
  /\ (forall item m,
        (exists m', Persistence.loadMatch item m = (Ok tt, m'))
        <-> (item <> Persistence.NotJSON
             /\ item <> Persistence.JSONText Persistence.JNull))
  /\ (forall m,
        Persistence.loadMatch Persistence.NotJSON m = (Throw SyntaxError, m)
        /\ Persistence.loadMatch (Persistence.JSONText Persistence.JNull) m
           = (Throw TypeError, m)).
Proof.
  split; [|split].
  - intros item [-> | [-> | (v & o & -> & E & T)]]; try reflexivity.
    unfold Persistence.loadMatch, Persistence.restoreHistory, bind, lift. simpl.
    now rewrite E, T.
  - intros item m. split.
    + intros (m' & E). split; intros ->; discriminate E.
    + intros [H1 H2]. destruct item as [| | |v].
      * apply restoreHistory_defined. discriminate.
      * apply restoreHistory_defined. discriminate.
      * congruence.
      * unfold Persistence.loadMatch, bind, lift. simpl.
        apply restoreHistory_defined. congruence.
  - intros m. split; reflexivity.
Qed.

(** C7 as amended, at an empty store and at a stored object without
    [scores]. *)
Lemma loadMatch_defaults_and_failures_witness :
  Persistence.loadMatch Persistence.Missing Persistence.freshMatch
  = (Ok tt, Persistence.freshMatch)
  /\ Persistence.loadMatch
       (Persistence.JSONText (Persistence.JObj [("round", Persistence.JNum 7)]))
       Persistence.freshMatch
     = (Ok tt, Persistence.freshMatch).
Proof.
  destruct loadMatch_defaults_and_failures as (H & _).
  split.
  - apply H. left. reflexivity.
  - apply H. right. right. eexists. eexists.
    split; [reflexivity|]. split; reflexivity.
Defined.

(** A stored state of the shape [persistHistory] writes is restored. *)
Example loadMatch_restores_saved_state :
  Persistence.loadMatch
    (Persistence.JSONText
       (Persistence.JObj
          [("scores",
            Persistence.JArr [Persistence.JNum 52; Persistence.JNum (-50);
                              Persistence.JNum 0; Persistence.JNum 31]);
           ("dealerIndex", Persistence.JNum 2);
           ("round", Persistence.JNum 6)]))
    Persistence.freshMatch
  = (Ok tt,
     Persistence.mkMatch
       [Persistence.JNum 52; Persistence.JNum (-50); Persistence.JNum 0; Persistence.JNum 31]
       (Persistence.JNum 2) (Persistence.JNum 6)).
Proof. reflexivity. Qed.

End LoadingFacts.

(** ** The embedding on concrete inputs *)

Example computeBid_sample :
  bid (computeBidWith false (setHand sampleHand (newPlayer 1 false))) = 6
  /\ bid (computeBid (setHand sampleHand (newPlayer 1 false))) = 8
  /\ suitCounts sampleHand = [(Spade, 6); (Heart, 2); (Diamond, 2); (Club, 3)].
Proof. repeat split. Qed.

Example playCard_sample :
  let needy := setBid 3 (setHand sampleHand (newPlayer 1 false)) in
  let sated := setHand sampleHand (newPlayer 1 false) in
  fst (TrumpAware.playCard (Some Club) Heart needy) = Some (mkCard Club R10)
  /\ fst (TrumpAware.playCard (Some Club) Heart sated) = Some (mkCard Club R5)
  /\ fst (LeadOnly.playCard None needy) = Some (mkCard Spade RA)
  /\ fst (LeadOnly.playCard None sated) = Some (mkCard Spade R2)
  /\ length (hand (snd (LeadOnly.playCard None sated))) = 12%nat.
Proof. repeat split. Qed.

Example newDeck_has_52_cards : length (cards newDeck) = 52%nat.
Proof. reflexivity. Qed.

Example turnOrder_after_dealer_0 : turnOrder 0 = [1; 2; 3; 0].
Proof. reflexivity. Qed.

(** * Further properties of the code *)

(** ** The deck and the cards *)

(** X1. [shuffle] (lines 44-49, 455-460) on any deck, of any size, with
    every draw inside its range: it ends with a deck that holds the same
    cards as before, each as often as before, so the size is kept and a
    deck without duplicates stays without duplicates. *)
Theorem shuffle_keeps_the_cards (pick : nat -> nat) (d : Deck) :
  (forall k, (pick k <= k)%nat) ->
  exists d',
    shuffle pick d = Some d'
    /\ Permutation (cards d) (cards d')
    /\ length (cards d') = length (cards d)
    /\ (NoDup (cards d) -> NoDup (cards d')).
Proof.
  intros Hpick. destruct (shuffle_perm pick d Hpick) as (d' & E & P).
  exists d'. repeat split; auto.
  - symmetry. now apply Permutation_length.
  - intros N. exact (Permutation_NoDup P N).
Qed.

Lemma shuffle_keeps_the_cards_witness :
  exists d',
    shuffle (fun k => k) (mkDeck [mkCard Spade R2; mkCard Heart R3; mkCard Club R4])
      = Some d'
    /\ Permutation [mkCard Spade R2; mkCard Heart R3; mkCard Club R4] (cards d').
Proof.
  destruct (shuffle_keeps_the_cards (fun k => k)
              (mkDeck [mkCard Spade R2; mkCard Heart R3; mkCard Club R4]))
    as (d' & E & P & _); [intros k; lia|].
  exists d'. split; assumption.
Defined.

(** X2. The [Deck] constructor (lines 37-43, 449-454) builds 52 cards, no
    card twice, and every card there is: one per (suit, rank) pair. *)
Theorem newDeck_is_the_full_pack :
  length (cards newDeck) = 52%nat
  /\ NoDup (cards newDeck)
  /\ forall c : Card, In c (cards newDeck).
Proof.
  split; [reflexivity|]. split.
  - apply (NoDup_count_occ Card_eq_dec). intros [s r].
    rewrite newDeck_counts. lia.
  - intros [s r]. apply (count_occ_In Card_eq_dec).
    rewrite newDeck_counts. lia.
Qed.

(** X3. [value] (lines 27-30, 439-442) ranks the cards 2..14 and tells
    ranks apart: two cards have the same value exactly when they have the
    same rank, so two different cards of one suit never tie. *)
Theorem value_orders_the_ranks (a b : Card) :
  2 <= value a <= 14
  /\ (value a = value b <-> rank a = rank b)
  /\ (suit a = suit b -> a <> b -> value a <> value b).
Proof.
  assert (Hinj : value a = value b -> rank a = rank b).
  { unfold value. destruct (rank a), (rank b); intros H; try reflexivity; discriminate H. }
  split; [unfold value; destruct (rank a); lia|]. split.
  - split; [exact Hinj|]. unfold value. now intros ->.
  - intros Hs Hab Hv. apply Hab. destruct a, b. simpl in *.
    f_equal; auto.
Qed.

(** X4. [determineTurnOrder] (lines 213-218, 597-603) with a dealer index
    among 0..3: the order names every seat exactly once, starts with the
    seat after the dealer and ends with the dealer.  Both builds. *)
Theorem turn_order_is_a_rotation (d : Z) :
  0 <= d < 4 ->
  (forall g, TrumpAware.dealerIndex g = d ->
     TrumpAware.determineTurnOrder g
     = (Ok tt, TrumpAware.setPlayOrder (turnOrder d) g))
  /\ (forall g, LeadOnly.dealerIndex g = d ->
     LeadOnly.determineTurnOrder g
     = (Ok tt, LeadOnly.setPlayOrder (turnOrder d) g))
  /\ NoDup (turnOrder d)
  /\ (forall s, In s (turnOrder d) <-> 0 <= s < 4)
  /\ nth_error (turnOrder d) 0 = Some ((d + 1) mod 4)
  /\ nth_error (turnOrder d) 3 = Some d.
Proof.
  intros Hd.
  split; [intros g <-; reflexivity|].
  split; [intros g <-; reflexivity|].
  assert (C : d = 0 \/ d = 1 \/ d = 2 \/ d = 3) by lia.
  destruct C as [-> | [-> | [-> | ->]]];
    match goal with |- context [turnOrder ?x] =>
      let o := eval vm_compute in (turnOrder x) in
      change (turnOrder x) with o
    end;
    (split; [repeat (apply NoDup_cons; [simpl; intuition lia|]); apply NoDup_nil|]);
    (split; [intros s; simpl; split; [intuition lia | intros Hs;
       assert (C : s = 0 \/ s = 1 \/ s = 2 \/ s = 3) by lia; intuition]|]);
    split; reflexivity.
Qed.

Lemma turn_order_is_a_rotation_witness :
  NoDup (turnOrder 2) /\ nth_error (turnOrder 2) 0 = Some 3
  /\ nth_error (turnOrder 2) 3 = Some 2.
Proof.
  destruct (turn_order_is_a_rotation 2 ltac:(lia)) as (_ & _ & N & _ & F & L).
  repeat split; assumption.
Defined.

(** ** Dealing to any number of seats *)

Lemma dealPass_Some (ps : list Player) :
  forall cs cs' ps',
    dealPass cs ps = Some (cs', ps') ->
    length cs = (length cs' + length ps)%nat /\ map frame ps' = map frame ps.
Proof.
  induction ps as [|p ps IH]; intros cs cs' ps' H; simpl in H.
  - inversion H; subst. simpl. split; [lia | reflexivity].
  - destruct (pop cs) as [[c cs1]|] eqn:E; [|discriminate].
    destruct (dealPass cs1 ps) as [[cs2 qs]|] eqn:E2; [|discriminate].
    inversion H; subst. apply pop_Some in E. subst cs.
    destruct (IH _ _ _ E2) as [L F]. rewrite length_app. simpl.
    split; [lia | now rewrite F].
Qed.

Lemma dealRounds_Some (n : nat) :
  forall ps cs cs' ps',
    dealRounds n cs ps = Some (cs', ps') ->
    length cs = (length cs' + n * length ps)%nat /\ map frame ps' = map frame ps.
Proof.
  induction n as [|n IH]; intros ps cs cs' ps' H; simpl in H.
  - inversion H; subst. simpl. split; [lia | reflexivity].
  - destruct (dealPass cs ps) as [[cs1 ps1]|] eqn:E; [|discriminate].
    destruct (dealPass_Some _ _ _ _ E) as [L1 F1].
    destruct (IH _ _ _ _ H) as [L2 F2].
    assert (Hl : length ps1 = length ps).
    { rewrite <- (length_map frame ps1), F1. apply length_map. }
    rewrite Hl in L2. split; [lia | congruence].
Qed.

Lemma handSizes_cleared (ps : list Player) :
  map (Nat.add 13) (handSizes (map (setHand []) ps)) = map (fun _ => 13%nat) ps.
Proof.
  unfold handSizes. rewrite !map_map. apply map_ext. reflexivity.
Qed.

(** X5. [Deck.deal] never looks at the number of seats (lines 50-56,
    461-466).  On a 52-card deck with at most four seats it ends with every
    hand 13 cards longer than it entered the loop -- exactly 13 in the
    trump-aware build, which clears the hands first; the leading-suit-only
    build keeps what the hands held -- and the cards not dealt stay in the
    deck.  With more than four seats the deck runs dry and [pop] hands out
    [undefined]. *)
Theorem deal_to_any_number_of_seats (pick : nat -> nat) (d : Deck) (ps : list Player) :
  (forall k, (pick k <= k)%nat) ->
  length (cards d) = 52%nat ->
  ((length ps <= 4)%nat ->
   (exists d' ps',
      TrumpAware.deal pick d ps = Some (d', ps')
      /\ handSizes ps' = map (fun _ => 13%nat) ps
      /\ length (cards d') = (52 - 13 * length ps)%nat
      /\ Permutation (allHands ps' ++ cards d') (cards d))
   /\ (exists d' ps',
      LeadOnly.deal pick d ps = Some (d', ps')
      /\ handSizes ps' = map (Nat.add 13) (handSizes ps)
      /\ length (cards d') = (52 - 13 * length ps)%nat
      /\ Permutation (allHands ps' ++ cards d') (allHands ps ++ cards d)))
  /\ ((4 < length ps)%nat ->
      TrumpAware.deal pick d ps = None /\ LeadOnly.deal pick d ps = None).
Proof.
  intros Hpick Hd.
  destruct (shuffle_perm pick d Hpick) as (d1 & E & P).
  pose proof (Permutation_length P) as L. rewrite Hd in L.
  unfold TrumpAware.deal, LeadOnly.deal. rewrite E. split.
  - intros Hps. split.
    + destruct (dealRounds_spec 13 (map (setHand []) ps) (cards d1))
        as (cs' & ps' & -> & P' & L' & _ & H).
      { rewrite length_map. lia. }
      exists (mkDeck cs'), ps'. rewrite length_map in L'. cbn [cards].
      repeat split.
      * rewrite H. apply handSizes_cleared.
      * lia.
      * rewrite P', allHands_cleared. cbn [app]. now symmetry.
    + destruct (dealRounds_spec 13 ps (cards d1))
        as (cs' & ps' & -> & P' & L' & _ & H); [lia|].
      exists (mkDeck cs'), ps'. cbn [cards]. repeat split.
      * exact H.
      * lia.
      * rewrite P'. apply Permutation_app_head. now symmetry.
  - intros Hps. split.
    + destruct (dealRounds 13 (cards d1) (map (setHand []) ps))
        as [[cs' ps']|] eqn:R; [|reflexivity].
      apply dealRounds_Some in R. rewrite length_map in R. lia.
    + destruct (dealRounds 13 (cards d1) ps) as [[cs' ps']|] eqn:R; [|reflexivity].
      apply dealRounds_Some in R. lia.
Qed.

Lemma deal_to_any_number_of_seats_witness :
  exists d' ps',
    TrumpAware.deal (fun _ => 0%nat) newDeck [newPlayer 0 true; newPlayer 1 false]
      = Some (d', ps')
    /\ handSizes ps' = [13; 13]%nat
    /\ length (cards d') = 26%nat.
Proof.
  destruct (deal_to_any_number_of_seats (fun _ => 0%nat) newDeck
              [newPlayer 0 true; newPlayer 1 false]) as [H _].
  - intros k. lia.
  - reflexivity.
  - destruct H as [(d' & ps' & E & S & L & _) _]; [simpl; lia|].
    exists d', ps'. repeat split; assumption.
Defined.

(** ** Who wins a trick *)

Lemma fold_highest (r : list LeadOnly.Play) :
  forall x,
    let w := fold_left
               (fun best t =>
                  if value (LeadOnly.card t) >? value (LeadOnly.card best) then t else best)
               r x in
    value (LeadOnly.card x) <= value (LeadOnly.card w)
    /\ forall t, In t r -> value (LeadOnly.card t) <= value (LeadOnly.card w).
Proof.
  induction r as [|u r IH]; intros x; simpl.
  - split; [lia | intros t []].
  - destruct (IH (if value (LeadOnly.card u) >? value (LeadOnly.card x) then u else x))
      as [H1 H2].
    destruct (Z.gtb_spec (value (LeadOnly.card u)) (value (LeadOnly.card x))).
    + split; [lia|]. intros t [<-|Ht]; auto.
    + split; [lia|]. intros t [<-|Ht]; [lia | auto].
Qed.

(** X6. Leading-suit-only [resolveTrick] (lines 660-662): when the filter
    and [reduce] return a winner, it is a play of the table, of the leading
    suit, and no play of the leading suit has a higher value.  They raise a
    [TypeError] exactly when no play on the table is of the leading suit,
    which includes the empty table and the missing leading suit. *)
Theorem leadOnly_winner_is_highest_lead_card
    (lead : option Suit) (tbl : list LeadOnly.Play) :
  (forall w,
      LeadOnly.winningPlay lead tbl = Ok w ->
      In w tbl
      /\ suitIs lead (LeadOnly.card w) = true
      /\ forall t, In t tbl -> suitIs lead (LeadOnly.card t) = true ->
                   value (LeadOnly.card t) <= value (LeadOnly.card w))
  /\ (LeadOnly.winningPlay lead tbl = Throw TypeError
      <-> forall t, In t tbl -> suitIs lead (LeadOnly.card t) = false).
Proof.
  unfold LeadOnly.winningPlay, reduce1.
  set (followers := filter (fun t => suitIs lead (LeadOnly.card t)) tbl).
  assert (Hf : forall t, In t followers
                         <-> In t tbl /\ suitIs lead (LeadOnly.card t) = true).
  { intros t. apply filter_In. }
  destruct followers as [|x r].
  - split; [discriminate|]. split; [|reflexivity]. intros _ t Ht.
    destruct (suitIs lead (LeadOnly.card t)) eqn:E; [|reflexivity].
    destruct (proj2 (Hf t) (conj Ht E)).
  - split.
    + intros w H. inversion H as [Hw]. clear H.
      destruct (fold_highest r x) as [H1 H2].
      pose proof (fold_choose_In
                    (fun t best => value (LeadOnly.card t) >? value (LeadOnly.card best))
                    r x) as Hin.
      apply Hf in Hin. destruct Hin as [Hin Hs].
      split; [exact Hin|]. split; [exact Hs|].
      intros t Ht Es. destruct (proj2 (Hf t) (conj Ht Es)) as [<-|Hr]; auto.
    + split; [discriminate|]. intros H.
      destruct (proj1 (Hf x) (or_introl eq_refl)) as [Hx Es].
      rewrite (H x Hx) in Es. discriminate.
Qed.

Lemma leadOnly_winner_is_highest_lead_card_witness :
  In (LeadOnly.mkPlay 3 (mkCard Heart RA)) (LeadOnly.tableCards lateTrickB)
  /\ suitIs (Some Heart) (mkCard Heart RA) = true.
Proof.
  destruct (leadOnly_winner_is_highest_lead_card (Some Heart)
              (LeadOnly.tableCards lateTrickB)) as [H _].
  destruct (H (LeadOnly.mkPlay 3 (mkCard Heart RA)) eq_refl) as (Hin & Hs & _).
  split; assumption.
Defined.

(** One step of the trump-aware loop when neither play is trump and the
    current winner is of the leading suit: only a higher card of that suit
    takes over. *)
Lemma takesOver_plain (trump s : Suit) (t w : TrumpAware.Play) :
  suit (TrumpAware.card t) <> trump ->
  suit (TrumpAware.card w) = s ->
  s <> trump ->
  TrumpAware.takesOver trump (Some s) t w
  = Suit_eqb (suit (TrumpAware.card t)) s
    && (value (TrumpAware.card t) >? value (TrumpAware.card w)).
Proof.
  intros Ht Hw Hs. unfold TrumpAware.takesOver. simpl. rewrite Hw.
  assert (Suit_eqb (suit (TrumpAware.card t)) trump = false) as ->.
  { destruct (Suit_eqb _ _) eqn:E; [apply Suit_eqb_eq in E; contradiction | reflexivity]. }
  rewrite Suit_eqb_refl. simpl. rewrite andb_false_r. reflexivity.
Qed.

Lemma fold_plain (trump s : Suit) (l : list TrumpAware.Play) :
  s <> trump ->
  Forall (fun t => suit (TrumpAware.card t) <> trump) l ->
  forall w, suit (TrumpAware.card w) = s ->
    let w' := fold_left
                (fun winning t =>
                   if TrumpAware.takesOver trump (Some s) t winning then t else winning)
                l w in
    suit (TrumpAware.card w') = s
    /\ value (TrumpAware.card w) <= value (TrumpAware.card w')
    /\ forall t, In t l -> suit (TrumpAware.card t) = s ->
                 value (TrumpAware.card t) <= value (TrumpAware.card w').
Proof.
  intros Hs. induction 1 as [|u l Hu _ IH]; intros w Hw; simpl.
  - repeat split; [assumption | lia | intros t []].
  - rewrite (takesOver_plain trump s u w Hu Hw Hs).
    destruct (Suit_eqb (suit (TrumpAware.card u)) s) eqn:Eu; simpl.
    + apply Suit_eqb_eq in Eu.
      destruct (Z.gtb_spec (value (TrumpAware.card u)) (value (TrumpAware.card w))).
      * destruct (IH u Eu) as (S1 & V1 & A1).
        repeat split; [assumption | lia |]. intros t [<-|Ht] Hts; auto.
      * destruct (IH w Hw) as (S1 & V1 & A1).
        repeat split; [assumption | lia |]. intros t [<-|Ht] Hts; [lia | auto].
    + destruct (IH w Hw) as (S1 & V1 & A1).
      repeat split; [assumption | lia |]. intros t [<-|Ht] Hts; auto.
      rewrite <- Hts, Suit_eqb_refl in Eu. discriminate.
Qed.

(** X7. Trump-aware [resolveTrick] (lines 274-283) on a trick without any
    trump card, the leading suit being the suit of the first play: the
    winner is a play of the table, of the leading suit, and no play of the
    leading suit has a higher value. *)
Theorem trumpAware_winner_without_trump
    (trump : Suit) (t0 : TrumpAware.Play) (rest : list TrumpAware.Play) :
  Forall (fun t => suit (TrumpAware.card t) <> trump) (t0 :: rest) ->
  exists w,
    TrumpAware.winningPlay trump (Some (suit (TrumpAware.card t0))) (t0 :: rest) = Ok w
    /\ In w (t0 :: rest)
    /\ suit (TrumpAware.card w) = suit (TrumpAware.card t0)
    /\ forall t, In t (t0 :: rest) ->
                 suit (TrumpAware.card t) = suit (TrumpAware.card t0) ->
                 value (TrumpAware.card t) <= value (TrumpAware.card w).
Proof.
  intros Hnt.
  destruct (winningPlay_trumpAware_defined trump (Some (suit (TrumpAware.card t0))) t0 rest)
    as (w & E & Hin).
  exists w. split; [exact E|]. split; [exact Hin|].
  unfold TrumpAware.winningPlay in E. inversion E as [Hw]. clear E.
  assert (Hs : suit (TrumpAware.card t0) <> trump) by (inversion Hnt; assumption).
  destruct (fold_plain trump (suit (TrumpAware.card t0)) (t0 :: rest) Hs Hnt t0 eq_refl)
    as (S1 & _ & A1).
  split; [exact S1 | exact A1].
Qed.

Lemma trumpAware_winner_without_trump_witness :
  exists w,
    TrumpAware.winningPlay Spade (Some Heart) (TrumpAware.table lateTrickA) = Ok w
    /\ suit (TrumpAware.card w) = Heart.
Proof.
  destruct (trumpAware_winner_without_trump Spade
              (TrumpAware.mkPlay 1 (mkCard Heart R3))
              [TrumpAware.mkPlay 2 (mkCard Heart R5);
               TrumpAware.mkPlay 3 (mkCard Heart RA);
               TrumpAware.mkPlay 0 (mkCard Heart R7)])
    as (w & E & _ & S & _).
  - repeat constructor; discriminate.
  - exists w. split; assumption.
Defined.

Lemma fold_without_trump (trump : Suit) (lead : option Suit) (l : list TrumpAware.Play) :
  Forall (fun t => suit (TrumpAware.card t) <> trump) l ->
  forall w, suit (TrumpAware.card w) <> trump ->
    suit (TrumpAware.card
            (fold_left
               (fun winning t =>
                  if TrumpAware.takesOver trump lead t winning then t else winning)
               l w)) <> trump.
Proof.
  intros Hl w Hw.
  destruct (fold_choose_In (TrumpAware.takesOver trump lead) l w) as [<-|Hin]; auto.
  rewrite Forall_forall in Hl. auto.
Qed.

Lemma takesOver_among_trumps (trump : Suit) (lead : option Suit)
    (u w : TrumpAware.Play) :
  suit (TrumpAware.card w) = trump ->
  suitIs lead (TrumpAware.card u) = false \/ lead = Some trump ->
  TrumpAware.takesOver trump lead u w
  = Suit_eqb (suit (TrumpAware.card u)) trump
    && (value (TrumpAware.card u) >? value (TrumpAware.card w)).
Proof.
  intros Hw Hc. unfold TrumpAware.takesOver. rewrite Hw, Suit_eqb_refl. simpl.
  rewrite andb_false_r. simpl.
  destruct Hc as [-> | ->]; simpl; [reflexivity|].
  rewrite Hw, Suit_eqb_refl. simpl. rewrite andb_false_r. reflexivity.
Qed.

Lemma fold_among_trumps (trump : Suit) (lead : option Suit) (post : list TrumpAware.Play) :
  Forall (fun u => suitIs lead (TrumpAware.card u) = false \/ lead = Some trump) post ->
  forall w, suit (TrumpAware.card w) = trump ->
    let w' := fold_left
                (fun winning t =>
                   if TrumpAware.takesOver trump lead t winning then t else winning)
                post w in
    suit (TrumpAware.card w') = trump
    /\ value (TrumpAware.card w) <= value (TrumpAware.card w')
    /\ forall u, In u post -> suit (TrumpAware.card u) = trump ->
                 value (TrumpAware.card u) <= value (TrumpAware.card w').
Proof.
  induction 1 as [|u post Hu _ IH]; intros w Hw; simpl.
  - repeat split; [assumption | lia | intros t []].
  - rewrite (takesOver_among_trumps trump lead u w Hw Hu).
    destruct (Suit_eqb (suit (TrumpAware.card u)) trump) eqn:Eu; simpl.
    + apply Suit_eqb_eq in Eu.
      destruct (Z.gtb_spec (value (TrumpAware.card u)) (value (TrumpAware.card w))).
      * destruct (IH u Eu) as (S1 & V1 & A1).
        repeat split; [assumption | lia |]. intros t [<-|Ht] Hts; auto.
      * destruct (IH w Hw) as (S1 & V1 & A1).
        repeat split; [assumption | lia |]. intros t [<-|Ht] Hts; [lia | auto].
    + destruct (IH w Hw) as (S1 & V1 & A1).
      repeat split; [assumption | lia |]. intros t [<-|Ht] Hts; auto.
      rewrite Hts, Suit_eqb_refl in Eu. discriminate.
Qed.

(** X8. Trump-aware [resolveTrick] (lines 274-283) on a trick in which a
    trump is played and, after the first trump, no card of a leading suit
    other than trump follows: the winner is a trump play, and no trump on
    the table has a higher value. *)
Theorem trumpAware_highest_trump_wins
    (trump : Suit) (lead : option Suit)
    (pre post : list TrumpAware.Play) (t : TrumpAware.Play) :
  Forall (fun u => suit (TrumpAware.card u) <> trump) pre ->
  suit (TrumpAware.card t) = trump ->
  Forall (fun u => suitIs lead (TrumpAware.card u) = false \/ lead = Some trump) post ->
  exists w,
    TrumpAware.winningPlay trump lead (pre ++ t :: post) = Ok w
    /\ In w (pre ++ t :: post)
    /\ suit (TrumpAware.card w) = trump
    /\ forall u, In u (pre ++ t :: post) -> suit (TrumpAware.card u) = trump ->
                 value (TrumpAware.card u) <= value (TrumpAware.card w).
Proof.
  intros Hpre Ht Hpost.
  set (step := fun winning u : TrumpAware.Play =>
                 if TrumpAware.takesOver trump lead u winning then u else winning).
  assert (Hrun : forall w0,
             (w0 = t \/ suit (TrumpAware.card w0) <> trump) ->
             fold_left step (pre ++ t :: post) w0 = fold_left step post t).
  { intros w0 Hw0. rewrite fold_left_app. simpl. f_equal.
    set (w1 := fold_left step pre w0).
    assert (Hw1 : w1 = t \/ suit (TrumpAware.card w1) <> trump).
    { destruct Hw0 as [-> | Hw0].
      - destruct pre as [|p pre']; [left; reflexivity|].
        destruct (fold_choose_In (TrumpAware.takesOver trump lead) (p :: pre') t)
          as [H|H]; [left; symmetry; exact H|].
        right. rewrite Forall_forall in Hpre. now apply Hpre.
      - right. now apply fold_without_trump. }
    unfold step at 1. destruct Hw1 as [-> | Hw1].
    - destruct (TrumpAware.takesOver trump lead t t); reflexivity.
    - unfold TrumpAware.takesOver. rewrite Ht, Suit_eqb_refl.
      assert (Suit_eqb (suit (TrumpAware.card w1)) trump = false) as ->.
      { destruct (Suit_eqb _ _) eqn:B; [|reflexivity].
        apply Suit_eqb_eq in B. contradiction. }
      reflexivity. }
  destruct (fold_among_trumps trump lead post Hpost t Ht) as (S1 & V1 & A1).
  fold step in S1, V1, A1.
  assert (Hhead : exists t0 rest, pre ++ t :: post = t0 :: rest
                                  /\ (t0 = t \/ suit (TrumpAware.card t0) <> trump)).
  { destruct pre as [|p pre'].
    - exists t, post. split; [reflexivity | now left].
    - exists p, (pre' ++ t :: post). split; [reflexivity|].
      right. now inversion Hpre. }
  destruct Hhead as (t0 & rest & E & Hw0).
  destruct (winningPlay_trumpAware_defined trump lead t0 rest) as (w & Ew & Hin).
  assert (Hw : w = fold_left step post t).
  { unfold TrumpAware.winningPlay in Ew. injection Ew as Hw.
    change (fold_left step (t0 :: rest) t0 = w) in Hw.
    rewrite <- E in Hw. rewrite <- Hw. apply Hrun. exact Hw0. }
  rewrite <- E in Ew, Hin.
  exists w. split; [exact Ew|]. split; [exact Hin|]. rewrite Hw.
  split; [exact S1|].
  intros u Hu Hs. apply in_app_or in Hu. destruct Hu as [Hu | [<- | Hu]].
  - rewrite Forall_forall in Hpre. destruct (Hpre u Hu Hs).
  - exact V1.
  - now apply A1.
Qed.

Lemma trumpAware_highest_trump_wins_witness :
  exists w,
    TrumpAware.winningPlay Spade (Some Heart)
      ([TrumpAware.mkPlay 1 (mkCard Heart RA)]
         ++ TrumpAware.mkPlay 2 (mkCard Spade R2)
         :: [TrumpAware.mkPlay 3 (mkCard Spade R9);
             TrumpAware.mkPlay 0 (mkCard Diamond R5)]) = Ok w
    /\ suit (TrumpAware.card w) = Spade.
Proof.
  destruct (trumpAware_highest_trump_wins Spade (Some Heart)
              [TrumpAware.mkPlay 1 (mkCard Heart RA)]
              [TrumpAware.mkPlay 3 (mkCard Spade R9);
               TrumpAware.mkPlay 0 (mkCard Diamond R5)]
              (TrumpAware.mkPlay 2 (mkCard Spade R2)))
    as (w & E & _ & S & _).
  - repeat constructor. discriminate.
  - reflexivity.
  - repeat constructor; left; reflexivity.
  - exists w. split; assumption.
Defined.

(** ** What every state of the engine satisfies *)

Section Preserves.

Context {S : Type} (P : S -> Prop).

Lemma preserves_ret {A : Type} (a : A) : preserves P (ret a).
Proof. intros s H. exact H. Qed.

Lemma preserves_lift {A : Type} (r : Result A) : preserves P (lift r).
Proof. intros s H. exact H. Qed.

Lemma preserves_get : preserves P get.
Proof. intros s H. exact H. Qed.

Lemma preserves_gets {A : Type} (f : S -> A) : preserves P (gets f).
Proof. intros s H. exact H. Qed.

Lemma preserves_modify (f : S -> S) :
  (forall s, P s -> P (f s)) -> preserves P (modify f).
Proof. intros H s Hs. now apply H. Qed.

Lemma preserves_bind {A B : Type} (m : M S A) (k : A -> M S B) :
  preserves P m -> (forall a, preserves P (k a)) -> preserves P (bind m k).
Proof.
  intros Hm Hk s Hs. unfold bind. specialize (Hm s Hs).
  destruct (m s) as [[a|e|] s']; simpl in *; [|assumption|assumption].
  now apply Hk.
Qed.

End Preserves.

Ltac preserves_step :=
  first
    [ apply preserves_ret | apply preserves_lift | apply preserves_get
    | apply preserves_gets | apply preserves_bind; [|intros] ].

Lemma lookupZ_Some {A : Type} (l : list A) (i : Z) (a : A) :
  lookupZ l i = Some a ->
  0 <= i < Z.of_nat (length l) /\ nth_error l (Z.to_nat i) = Some a.
Proof.
  unfold lookupZ. destruct (Z.ltb_spec i 0) as [Hneg|Hpos]; [discriminate|].
  intros H. split; [|exact H].
  assert (Z.to_nat i < length l)%nat by (apply nth_error_Some; congruence). lia.
Qed.

Lemma seatOK_frame (i : Z) (p q : Player) :
  frame q = frame p -> seatOK i p -> seatOK i q.
Proof.
  unfold frame, seatOK. intros H. inversion H. congruence.
Qed.

Lemma seatsOK_length (ps : list Player) : seatsOK ps -> length ps = 4%nat.
Proof. intros H. apply Forall2_length in H. simpl in H. lia. Qed.

Lemma Forall2_setAt (ix : list Z) :
  forall ps n p q,
    Forall2 seatOK ix ps ->
    nth_error ps n = Some p ->
    (forall i, seatOK i p -> seatOK i q) ->
    Forall2 seatOK ix (setAt n q ps).
Proof.
  induction ix as [|i ix IH]; intros ps n p q H Hn Hq; inversion H; subst.
  - destruct n; discriminate.
  - destruct n as [|n]; simpl in *.
    + inversion Hn; subst. constructor; auto.
    + constructor; [assumption|]. eapply IH; eauto.
Qed.

Lemma Forall2_map_seat (f : Player -> Player) (ix : list Z) :
  (forall i p, seatOK i p -> seatOK i (f p)) ->
  forall ps, Forall2 seatOK ix ps -> Forall2 seatOK ix (map f ps).
Proof.
  intros Hf ps. induction 1; simpl; constructor; auto.
Qed.

Lemma Forall2_frames (ix : list Z) :
  forall ps qs,
    Forall2 seatOK ix ps -> map frame qs = map frame ps -> Forall2 seatOK ix qs.
Proof.
  induction ix as [|i ix IH]; intros ps qs H F; inversion H; subst.
  - destruct qs; [constructor | discriminate].
  - destruct qs as [|q qs]; [discriminate|]. simpl in F.
    assert (F1 : frame q = frame y) by congruence.
    assert (F2 : map frame qs = map frame l') by congruence.
    constructor.
    + apply (seatOK_frame i y q F1). assumption.
    + apply (IH l' qs); assumption.
Qed.

Lemma seatOK_scoreSeat (i : Z) (p : Player) : seatOK i p -> seatOK i (scoreSeat p).
Proof. unfold seatOK, scoreSeat. simpl. tauto. Qed.

Lemma computeBid_seatOK (i : Z) (p : Player) : seatOK i p -> seatOK i (computeBid p).
Proof.
  unfold computeBid. rewrite computeBidWith_spec. unfold seatOK, specBid. simpl.
  pose proof (specHCP_nonneg (hand p)) as H.
  pose proof (specLengthBonus_nonneg (hand p)) as B.
  pose proof (Z.div_pos (specHCP (hand p)) 2 H ltac:(lia)) as D.
  intuition lia.
Qed.

Lemma seatsOK_aiBids (ps : list Player) : seatsOK ps -> seatsOK (aiBids ps).
Proof.
  unfold seatsOK. intros H. inversion H as [|i p ix ps' Hp Hps]; subst. simpl.
  constructor; [assumption|].
  apply Forall2_map_seat; [apply computeBid_seatOK | assumption].
Qed.

Lemma playCard_frame_A (lead : option Suit) (trump : Suit) (p : Player) :
  frame (snd (TrumpAware.playCard lead trump p)) = frame p.
Proof. reflexivity. Qed.

Lemma playCard_frame_B (lead : option Suit) (p : Player) :
  frame (snd (LeadOnly.playCard lead p)) = frame p.
Proof. reflexivity. Qed.

Lemma updatePlayer_run_A (g : TrumpAware.Game) (i : Z) (f : Player -> Player) (p : Player) :
  lookupZ (TrumpAware.players g) i = Some p ->
  TrumpAware.updatePlayer i f g
  = (Ok tt,
     TrumpAware.setPlayers (setAt (Z.to_nat i) (f p) (TrumpAware.players g)) g).
Proof.
  intros H. unfold TrumpAware.updatePlayer, bind, get, lift, modify.
  rewrite H. reflexivity.
Qed.

Lemma updatePlayer_fail_A (g : TrumpAware.Game) (i : Z) (f : Player -> Player) :
  lookupZ (TrumpAware.players g) i = None ->
  TrumpAware.updatePlayer i f g = (Throw TypeError, g).
Proof.
  intros H. unfold TrumpAware.updatePlayer, bind, get, lift. rewrite H. reflexivity.
Qed.

Lemma wfA_setSeat (g : TrumpAware.Game) (i : Z) (p q : Player) :
  wellFormedA g ->
  lookupZ (TrumpAware.players g) i = Some p ->
  (forall j, seatOK j p -> seatOK j q) ->
  wellFormedA (TrumpAware.setPlayers (setAt (Z.to_nat i) q (TrumpAware.players g)) g).
Proof.
  intros (H1 & H2) E Hq. apply lookupZ_Some in E. destruct E as [_ E].
  split; [|exact H2]. simpl. eapply Forall2_setAt; eauto.
Qed.

Lemma pA_schedule (t : Timer) : preserves wellFormedA (TrumpAware.schedule t).
Proof. apply preserves_modify. intros s H. exact H. Qed.

Lemma pA_updatePlayer (i : Z) (f : Player -> Player) :
  (forall j p, seatOK j p -> seatOK j (f p)) ->
  preserves wellFormedA (TrumpAware.updatePlayer i f).
Proof.
  intros Hf s Hs.
  destruct (lookupZ (TrumpAware.players s) i) as [p|] eqn:E.
  - rewrite (updatePlayer_run_A s i f p E). simpl.
    apply (wfA_setSeat s i p (f p) Hs E). intros j. apply Hf.
  - rewrite (updatePlayer_fail_A s i f E). exact Hs.
Qed.

Lemma pA_persistHistory : preserves wellFormedA TrumpAware.persistHistory.
Proof.
  intros s H. unfold TrumpAware.persistHistory, bind, get, throw, lift, modify.
  cbn [fst snd]. destruct (TrumpAware.state s); exact H.
Qed.

Lemma pA_finishRound : preserves wellFormedA TrumpAware.finishRound.
Proof.
  unfold TrumpAware.finishRound.
  apply preserves_bind; [|intros; apply preserves_bind;
                           [apply pA_persistHistory|];
                           intros; apply preserves_modify; intros s H; exact H].
  apply preserves_modify. intros s (H1 & H2). split; [|exact H2]. simpl.
  apply Forall2_map_seat; [apply seatOK_scoreSeat | exact H1].
Qed.

Lemma pA_resolveTrick : preserves wellFormedA TrumpAware.resolveTrick.
Proof.
  unfold TrumpAware.resolveTrick.
  repeat first [ apply pA_schedule | apply pA_updatePlayer | preserves_step ].
  unfold seatOK. simpl. intuition lia.
Qed.

Lemma pA_nextToPlay (idx : Z) : preserves wellFormedA (TrumpAware.nextToPlay idx).
Proof.
  unfold TrumpAware.nextToPlay, throw.
  destruct (idx >=? 4); [apply pA_resolveTrick|].
  apply preserves_bind; [preserves_step|]. intros g.
  destruct (lookupZ (TrumpAware.playOrder g) idx); [|preserves_step].
  apply preserves_bind; [preserves_step|]. intros p.
  destruct (isHuman p); [preserves_step | apply pA_schedule].
Qed.

Lemma pA_playTrick : preserves wellFormedA TrumpAware.playTrick.
Proof.
  unfold TrumpAware.playTrick.
  apply preserves_bind; [preserves_step|]. intros g.
  apply preserves_bind; [preserves_step|]. intros human.
  destruct (length (hand human) =? 0)%nat; [apply pA_finishRound|].
  intros s (H1 & H2 & H3 & _). unfold bind at 1, modify at 1. unfold bind at 1, modify at 1.
  apply pA_nextToPlay.
  split; [exact H1|]. split; [exact H2|]. split; [exact H3|].
  split; [reflexivity | constructor].
Qed.

Lemma pA_placeCard (pid : Z) (card : option Card) :
  0 <= pid < 4 -> preserves wellFormedA (TrumpAware.placeCard pid card).
Proof.
  intros Hpid s Hs. pose proof Hs as (H1 & H2 & H3 & H4 & H5).
  assert (Hnew : forall c,
             Forall (fun t => 0 <= TrumpAware.pid t < 4)
               (TrumpAware.table s ++ [TrumpAware.mkPlay pid c])).
  { intros c. apply Forall_app. split; [exact H5|]. repeat constructor; simpl; lia. }
  unfold TrumpAware.placeCard, bind, get, throw, lift, modify.
  destruct (TrumpAware.leadingSuit s) as [l|] eqn:El; destruct card as [c|]; simpl;
    try exact Hs.
  - split; [exact H1|]. split; [exact H2|]. split; [exact H3|].
    split; [|apply Hnew]. simpl.
    destruct (TrumpAware.table s); [discriminate H4|]. simpl. congruence.
  - split; [exact H1|]. split; [exact H2|]. split; [exact H3|].
    split; [|apply Hnew]. simpl.
    destruct (TrumpAware.table s); [reflexivity | discriminate H4].
Qed.

Lemma pA_onCardClick (card : Card) : preserves wellFormedA (TrumpAware.onCardClick card).
Proof.
  unfold TrumpAware.onCardClick, TrumpAware.isLegal.
  apply preserves_bind; [repeat preserves_step|]. intros legal.
  destruct (negb legal); [preserves_step|].
  repeat first [ apply pA_updatePlayer | apply pA_placeCard; lia
               | apply pA_nextToPlay | preserves_step ].
  intros j p. unfold seatOK. simpl. tauto.
Qed.

Lemma pA_aiPlay (pid idx : Z) : preserves wellFormedA (TrumpAware.aiPlay pid idx).
Proof.
  intros s Hs. unfold TrumpAware.aiPlay. unfold bind at 1, get. unfold bind at 1, lift.
  destruct (lookupZ (TrumpAware.players s) pid) as [p|] eqn:E; cbn [deref snd];
    [|exact Hs].
  pose proof (playCard_frame_A (TrumpAware.leadingSuit s) (TrumpAware.trumpSuit s) p) as F.
  destruct (TrumpAware.playCard _ _ p) as [card p']. cbn [snd] in F.
  unfold bind at 1. rewrite (updatePlayer_run_A s pid (fun _ => p') p E).
  assert (Hpid : 0 <= pid < 4).
  { apply lookupZ_Some in E. destruct Hs as (H1 & _).
    apply seatsOK_length in H1. lia. }
  apply (preserves_bind wellFormedA (TrumpAware.placeCard pid card)
           (fun _ => TrumpAware.nextToPlay (idx + 1))).
  - now apply pA_placeCard.
  - intros _. apply pA_nextToPlay.
  - apply (wfA_setSeat s pid p p' Hs E). intros j. now apply seatOK_frame.
Qed.

Lemma pA_fire (t : Timer) : preserves wellFormedA (TrumpAware.fire t).
Proof.
  unfold TrumpAware.fire, TrumpAware.trickWon.
  apply preserves_bind; [apply preserves_modify; intros s H; exact H|]. intros _.
  destruct t; [apply pA_aiPlay | apply pA_playTrick | preserves_step].
Qed.

Lemma pA_onHumanBid (v : option Z) : preserves wellFormedA (TrumpAware.onHumanBid v).
Proof.
  unfold TrumpAware.onHumanBid, TrumpAware.determineTurnOrder.
  destruct v as [v|]; [|preserves_step].
  destruct (Z.ltb_spec v 0) as [Hlo|Hlo]; simpl; [preserves_step|].
  destruct (Z.gtb_spec v 13) as [Hhi|Hhi]; simpl; [preserves_step|].
  apply preserves_bind; [|intros _].
  { apply pA_updatePlayer. intros j p. unfold seatOK. simpl. intuition lia. }
  apply preserves_bind; [apply preserves_modify; intros s Hs; exact Hs|]. intros _.
  apply preserves_bind; [|intros _; apply pA_playTrick].
  apply preserves_modify. intros s (H1 & H2 & _ & H4).
  split; [exact H1|]. split; [exact H2|]. split; [right; reflexivity | exact H4].
Qed.

Lemma deal_frame_A (pick : nat -> nat) (d d' : Deck) (ps ps' : list Player) :
  TrumpAware.deal pick d ps = Some (d', ps') -> map frame ps' = map frame ps.
Proof.
  unfold TrumpAware.deal. destruct (shuffle pick d); [|discriminate].
  destruct (dealRounds 13 _ _) as [[cs qs]|] eqn:E; [|discriminate].
  intros H. inversion H; subst. apply dealRounds_Some in E.
  destruct E as [_ ->]. rewrite map_map. reflexivity.
Qed.

Lemma pA_startRound (pick : nat -> nat) (trumpPick : nat) :
  preserves wellFormedA (TrumpAware.startRound pick trumpPick).
Proof.
  intros s (H1 & H2 & H3 & H4 & H5).
  assert (Hreset : seatsOK (map (setTricks 0) (TrumpAware.players s))).
  { apply Forall2_map_seat; [|exact H1]. intros j p. unfold seatOK. simpl. intuition lia. }
  assert (Hd : 0 <= Z.rem (jsAdd (TrumpAware.dealerIndex s) 1) 4 < 4).
  { unfold jsAdd. rewrite toDouble_exact by (unfold maxExact; lia).
    rewrite Z.rem_mod_nonneg by lia. apply Z.mod_pos_bound. lia. }
  unfold TrumpAware.startRound, bind, modify, gets, lift, typed. simpl.
  destruct (TrumpAware.deal pick newDeck (map (setTricks 0) (TrumpAware.players s)))
    as [[d' ps']|] eqn:E; simpl.
  - apply deal_frame_A in E.
    assert (Hps : seatsOK ps') by (eapply Forall2_frames; eauto).
    destruct (nth_error suits trumpPick); simpl.
    + split; [now apply seatsOK_aiBids|]. split; [exact Hd|].
      split; [left; reflexivity|]. split; [reflexivity | constructor].
    + split; [exact Hps|]. split; [exact Hd|].
      split; [left; reflexivity|]. split; [reflexivity | constructor].
  - split; [exact Hreset|]. split; [exact H2|].
    split; [left; reflexivity|]. split; [reflexivity | constructor].
Qed.

(** ** Runs that stay within the typed lists *)

Section InModel.

Context {S : Type}.

Lemma inModel_ret {A : Type} (a : A) : inModel (S := S) (ret a).
Proof. intros s. discriminate. Qed.

Lemma inModel_lift {A : Type} (r : Result A) :
  r <> OffModel -> inModel (S := S) (lift r).
Proof. intros H s. exact H. Qed.

Lemma inModel_deref {A : Type} (o : option A) : inModel (S := S) (lift (deref o)).
Proof. intros s. destruct o; discriminate. Qed.

Lemma inModel_throw {A : Type} (e : Exn) : inModel (S := S) (A := A) (throw e).
Proof. intros s. discriminate. Qed.

Lemma inModel_get : inModel (S := S) get.
Proof. intros s. discriminate. Qed.

Lemma inModel_modify (f : S -> S) : inModel (modify f).
Proof. intros s. discriminate. Qed.

Lemma inModel_bind {A B : Type} (m : M S A) (k : A -> M S B) :
  inModel m -> (forall a, inModel (k a)) -> inModel (bind m k).
Proof.
  intros Hm Hk s. unfold bind. specialize (Hm s).
  destruct (m s) as [[a|e|] s']; cbn [fst] in *; [apply Hk | discriminate | congruence].
Qed.

End InModel.

Ltac inModel_step :=
  first
    [ apply inModel_ret | apply inModel_deref | apply inModel_throw
    | apply inModel_get | apply inModel_modify
    | apply inModel_bind; [|intros] ].

Lemma iM_updatePlayer_A (i : Z) (f : Player -> Player) :
  inModel (TrumpAware.updatePlayer i f).
Proof. unfold TrumpAware.updatePlayer. repeat inModel_step. Qed.

Lemma iM_finishRound_A : inModel TrumpAware.finishRound.
Proof.
  unfold TrumpAware.finishRound, TrumpAware.persistHistory.
  repeat inModel_step. destruct (TrumpAware.state a0); inModel_step.
Qed.

Lemma iM_resolveTrick_A : inModel TrumpAware.resolveTrick.
Proof.
  unfold TrumpAware.resolveTrick, TrumpAware.schedule.
  apply inModel_bind; [inModel_step|]. intros g.
  apply inModel_bind.
  - apply inModel_lift. unfold TrumpAware.winningPlay.
    destruct (TrumpAware.table g); discriminate.
  - intros w. apply inModel_bind; [apply iM_updatePlayer_A|]. intros. inModel_step.
Qed.

Lemma iM_nextToPlay_A (idx : Z) : inModel (TrumpAware.nextToPlay idx).
Proof.
  unfold TrumpAware.nextToPlay, TrumpAware.schedule.
  destruct (idx >=? 4); [apply iM_resolveTrick_A|].
  apply inModel_bind; [inModel_step|]. intros g.
  destruct (lookupZ (TrumpAware.playOrder g) idx); [|inModel_step].
  apply inModel_bind; [inModel_step|]. intros p.
  destruct (isHuman p); inModel_step.
Qed.

Lemma iM_playTrick_A : inModel TrumpAware.playTrick.
Proof.
  unfold TrumpAware.playTrick.
  apply inModel_bind; [inModel_step|]. intros g.
  apply inModel_bind; [inModel_step|]. intros human.
  destruct (length (hand human) =? 0)%nat; [apply iM_finishRound_A|].
  repeat first [apply iM_nextToPlay_A | inModel_step].
Qed.

Lemma iM_placeCard_A (pid : Z) (c : Card) : inModel (TrumpAware.placeCard pid (Some c)).
Proof.
  unfold TrumpAware.placeCard.
  apply inModel_bind; [inModel_step|]. intros g.
  destruct (TrumpAware.leadingSuit g); repeat inModel_step.
Qed.

Lemma iM_onCardClick_A (c : Card) : inModel (TrumpAware.onCardClick c).
Proof.
  unfold TrumpAware.onCardClick, TrumpAware.isLegal.
  apply inModel_bind.
  - apply inModel_bind; [inModel_step|]. intros g. apply inModel_lift.
    unfold isLegalIn. destruct (TrumpAware.leadingSuit g); [|discriminate].
    destruct (TrumpAware.players g); discriminate.
  - intros legal. destruct (negb legal); [inModel_step|].
    repeat first [ apply iM_updatePlayer_A | apply iM_placeCard_A
                 | apply iM_nextToPlay_A | inModel_step ].
Qed.

Lemma iM_onHumanBid_A (v : option Z) : inModel (TrumpAware.onHumanBid v).
Proof.
  unfold TrumpAware.onHumanBid, TrumpAware.determineTurnOrder.
  destruct v as [v|]; [|inModel_step].
  destruct ((v <? 0) || (v >? 13)); [inModel_step|].
  repeat first [ apply iM_updatePlayer_A | apply iM_playTrick_A | inModel_step ].
Qed.

(** The callback of a computer seat leaves the typed lists only by pushing
    a play without a card. *)
Lemma aiPlay_leaves_A (pid idx : Z) (g : TrumpAware.Game) :
  fst (TrumpAware.fire (AIPlay pid idx) g) = OffModel ->
  exists p,
    lookupZ (TrumpAware.players g) pid = Some p
    /\ TrumpAware.leadingSuit g <> None
    /\ fst (TrumpAware.playCard (TrumpAware.leadingSuit g) (TrumpAware.trumpSuit g) p)
       = None.
Proof.
  unfold TrumpAware.fire, TrumpAware.aiPlay.
  unfold bind at 1, modify. cbn [fst snd].
  set (g0 := TrumpAware.setTimers (dequeue (AIPlay pid idx) (TrumpAware.timers g)) g).
  unfold bind at 1, get. cbn [fst snd]. unfold bind at 1, lift. cbn [fst snd].
  change (TrumpAware.players g0) with (TrumpAware.players g).
  change (TrumpAware.leadingSuit g0) with (TrumpAware.leadingSuit g).
  change (TrumpAware.trumpSuit g0) with (TrumpAware.trumpSuit g).
  destruct (lookupZ (TrumpAware.players g) pid) as [p|] eqn:E; [|discriminate].
  cbn [deref].
  destruct (TrumpAware.playCard (TrumpAware.leadingSuit g) (TrumpAware.trumpSuit g) p)
    as [card p'] eqn:Ep.
  intros H. exists p. split; [reflexivity|].
  destruct card as [c|].
  - exfalso. revert H.
    apply (inModel_bind (TrumpAware.updatePlayer pid (fun _ => p'))
             (fun _ => TrumpAware.placeCard pid (Some c) ;; TrumpAware.nextToPlay (idx + 1))).
    + apply iM_updatePlayer_A.
    + intros _. apply inModel_bind; [apply iM_placeCard_A|].
      intros _. apply iM_nextToPlay_A.
  - split; [|now rewrite Ep]. intros Hl. revert H.
    assert (E0 : lookupZ (TrumpAware.players g0) pid = Some p) by exact E.
    unfold bind at 1. rewrite (updatePlayer_run_A g0 pid _ p E0).
    unfold bind at 1. unfold TrumpAware.placeCard, bind, get, throw, lift.
    cbn [fst snd TrumpAware.leadingSuit TrumpAware.setPlayers]. unfold g0.
    cbn [TrumpAware.leadingSuit TrumpAware.setTimers]. rewrite Hl. discriminate.
Qed.

(** X9. The trump-aware engine keeps its state well formed in every run
    that its typed lists can follow.  The new game is well formed, and
    whatever the user or the browser triggers on a well formed game -- a
    new round, a bid, a click on any card, any callback -- the game is well
    formed afterwards, whether the handler returns or raises, unless the run
    is [OffModel]: a callback in which [playCard] returns [undefined] while
    a suit leads, so that [placeCard] pushes a play without a card, or a
    [startRound] whose random draws are out of range.  Well formed means:
    four seats with their identities, bids in 0..13 and tricks not
    negative, a dealer among the seats, no turn order or the dealer's
    rotation, the leading suit null on an empty table and the suit of the
    first play otherwise, every play made by a seat. *)
Theorem trumpAware_engine_stays_well_formed :
  wellFormedA TrumpAware.initialGame
  /\ (forall (e : Event) (g : TrumpAware.Game),
        wellFormedA g ->
        fst (handleA e g) <> OffModel ->
        wellFormedA (snd (handleA e g)))
  /\ (forall (e : Event) (g : TrumpAware.Game),
        wellFormedA g ->
        fst (handleA e g) = OffModel ->
        leavesModelA e g).
Proof.
  split; [|split].
  - unfold wellFormedA, seatsOK, seatOK. simpl.
    repeat split; auto; try lia; repeat constructor; simpl; lia.
  - intros e g Hg _. destruct e; simpl.
    + now apply pA_startRound.
    + now apply pA_onHumanBid.
    + now apply pA_onCardClick.
    + now apply pA_fire.
  - intros e g Hg H. destruct e as [pick trumpPick|v|c|[pid idx| |]]; cbn [handleA] in H.
    + intros [Hp Ht]. destruct Hg as (H1 & _).
      destruct (startRound_trumpAware pick trumpPick g Hp Ht (seatsOK_length _ H1))
        as (ps' & t & _ & _ & _ & E).
      rewrite E in H. discriminate H.
    + exact (iM_onHumanBid_A v g H).
    + exact (iM_onCardClick_A c g H).
    + exact (aiPlay_leaves_A pid idx g H).
    + unfold TrumpAware.fire, TrumpAware.trickWon in H.
      refine (inModel_bind _ _ _ _ g H);
        [apply inModel_modify | intros _; apply iM_playTrick_A].
    + unfold TrumpAware.fire in H.
      refine (inModel_bind _ _ _ _ g H);
        [apply inModel_modify | intros _; apply inModel_ret].
Qed.

Lemma trumpAware_engine_stays_well_formed_witness :
  wellFormedA
    (snd (handleA (ClickCard (mkCard Heart R5))
            (snd (handleA (SubmitBid (Some 3))
                    (snd (handleA (NextRound (fun _ => 0%nat) 1) TrumpAware.initialGame)))))).
Proof.
  destruct trumpAware_engine_stays_well_formed as [H0 H].
  apply H; [apply H; [apply H; [exact H0|] |] |]; vm_compute; discriminate.
Defined.

Lemma updatePlayer_run_B (g : LeadOnly.Game) (i : Z) (f : Player -> Player) (p : Player) :
  lookupZ (LeadOnly.players g) i = Some p ->
  LeadOnly.updatePlayer i f g
  = (Ok tt, LeadOnly.setPlayers (setAt (Z.to_nat i) (f p) (LeadOnly.players g)) g).
Proof.
  intros H. unfold LeadOnly.updatePlayer, bind, get, lift, modify.
  rewrite H. reflexivity.
Qed.

Lemma updatePlayer_fail_B (g : LeadOnly.Game) (i : Z) (f : Player -> Player) :
  lookupZ (LeadOnly.players g) i = None ->
  LeadOnly.updatePlayer i f g = (Throw TypeError, g).
Proof.
  intros H. unfold LeadOnly.updatePlayer, bind, get, lift. rewrite H. reflexivity.
Qed.

Lemma wfB_setSeat (g : LeadOnly.Game) (i : Z) (p q : Player) :
  wellFormedB g ->
  lookupZ (LeadOnly.players g) i = Some p ->
  (forall j, seatOK j p -> seatOK j q) ->
  wellFormedB (LeadOnly.setPlayers (setAt (Z.to_nat i) q (LeadOnly.players g)) g).
Proof.
  intros (H1 & H2) E Hq. apply lookupZ_Some in E. destruct E as [_ E].
  split; [|exact H2]. simpl. eapply Forall2_setAt; eauto.
Qed.

Lemma pB_schedule (t : Timer) : preserves wellFormedB (LeadOnly.schedule t).
Proof. apply preserves_modify. intros s H. exact H. Qed.

Lemma pB_updatePlayer (i : Z) (f : Player -> Player) :
  (forall j p, seatOK j p -> seatOK j (f p)) ->
  preserves wellFormedB (LeadOnly.updatePlayer i f).
Proof.
  intros Hf s Hs.
  destruct (lookupZ (LeadOnly.players s) i) as [p|] eqn:E.
  - rewrite (updatePlayer_run_B s i f p E). simpl.
    apply (wfB_setSeat s i p (f p) Hs E). intros j. apply Hf.
  - rewrite (updatePlayer_fail_B s i f E). exact Hs.
Qed.

Lemma pB_persistHistory : preserves wellFormedB LeadOnly.persistHistory.
Proof.
  intros s H. unfold LeadOnly.persistHistory, bind, get, throw, lift, modify.
  cbn [fst snd]. destruct (LeadOnly.state s); exact H.
Qed.

Lemma pB_finishRound : preserves wellFormedB LeadOnly.finishRound.
Proof.
  unfold LeadOnly.finishRound.
  apply preserves_bind; [|intros; apply preserves_bind;
                           [apply pB_persistHistory|];
                           intros; apply preserves_modify; intros s H; exact H].
  apply preserves_modify. intros s (H1 & H2). split; [|exact H2]. simpl.
  apply Forall2_map_seat; [apply seatOK_scoreSeat | exact H1].
Qed.

Lemma pB_nextToPlay (idx : Z) : preserves wellFormedB (LeadOnly.nextToPlay idx).
Proof.
  unfold LeadOnly.nextToPlay, throw.
  apply preserves_bind; [preserves_step|]. intros g.
  destruct (lookupZ (LeadOnly.playOrder g) idx); [|preserves_step].
  apply preserves_bind; [preserves_step|]. intros p.
  destruct (isHuman p); [preserves_step | apply pB_schedule].
Qed.

Lemma pB_playTrick : preserves wellFormedB LeadOnly.playTrick.
Proof.
  unfold LeadOnly.playTrick.
  apply preserves_bind; [preserves_step|]. intros g.
  apply preserves_bind; [preserves_step|]. intros human.
  destruct (length (hand human) =? 0)%nat; [apply pB_finishRound|].
  intros s (H1 & H2 & H3 & _). unfold bind at 1, modify at 1. unfold bind at 1, modify at 1.
  apply pB_nextToPlay.
  split; [exact H1|]. split; [exact H2|]. split; [exact H3|].
  split; [reflexivity | constructor].
Qed.

Lemma pB_resolveTrick : preserves wellFormedB LeadOnly.resolveTrick.
Proof.
  intros s Hs. unfold LeadOnly.resolveTrick. unfold bind at 1, get. unfold bind at 1, lift.
  destruct (LeadOnly.winningPlay (LeadOnly.leadingSuit s) (LeadOnly.tableCards s))
    as [w|e|]; cbn [snd]; try exact Hs.
  unfold bind at 1.
  destruct (lookupZ (LeadOnly.players s) (LeadOnly.playerId w)) as [p|] eqn:E.
  - rewrite (updatePlayer_run_B s _ _ p E).
    unfold bind at 1, modify at 1. apply pB_playTrick.
    assert (Hw : wellFormedB
                   (LeadOnly.setPlayers
                      (setAt (Z.to_nat (LeadOnly.playerId w))
                         (setTricks (tricks p + 1) p) (LeadOnly.players s)) s)).
    { apply (wfB_setSeat s _ p _ Hs E). unfold seatOK. simpl. intuition lia. }
    destruct Hw as (H1 & _ & H3 & H4 & H5).
    split; [exact H1|]. split; [|split; [exact H3 | split; [exact H4 | exact H5]]].
    simpl. apply lookupZ_Some in E. destruct Hs as (Hp & _).
    apply seatsOK_length in Hp. lia.
  - rewrite (updatePlayer_fail_B s _ _ E). exact Hs.
Qed.

Lemma pB_placeOnTable (playerId : Z) (card : option Card) :
  0 <= playerId < 4 -> preserves wellFormedB (LeadOnly.placeOnTable playerId card).
Proof.
  intros Hpid s Hs. pose proof Hs as (H1 & H2 & H3 & H4 & H5).
  assert (Hnew : forall c,
             Forall (fun t => 0 <= LeadOnly.playerId t < 4)
               (LeadOnly.tableCards s ++ [LeadOnly.mkPlay playerId c])).
  { intros c. apply Forall_app. split; [exact H5|]. repeat constructor; simpl; lia. }
  unfold LeadOnly.placeOnTable, bind, get, throw, lift, modify, ret.
  destruct (LeadOnly.leadingSuit s) as [l|] eqn:El; destruct card as [c|]; cbn [snd fst];
    try exact Hs.
  - cbn. destruct (length _ =? 4)%nat; simpl;
      (split; [exact H1|]; split; [exact H2|]; split; [exact H3|];
       split; [|apply Hnew]);
      (destruct (LeadOnly.tableCards s); [discriminate H4|]; simpl; congruence).
  - cbn. destruct (length _ =? 4)%nat; simpl;
      (split; [exact H1|]; split; [exact H2|]; split; [exact H3|];
       split; [|apply Hnew]);
      (destruct (LeadOnly.tableCards s); [reflexivity | discriminate H4]).
Qed.

Lemma pB_playCardFromHand (card : Card) :
  preserves wellFormedB (LeadOnly.playCardFromHand card).
Proof.
  unfold LeadOnly.playCardFromHand.
  repeat first [ apply pB_updatePlayer | apply pB_placeOnTable; lia
               | apply pB_nextToPlay | preserves_step ].
  intros j p. unfold seatOK. simpl. tauto.
Qed.

Lemma pB_onCardClick (card : Card) : preserves wellFormedB (LeadOnly.onCardClick card).
Proof.
  unfold LeadOnly.onCardClick, LeadOnly.isLegal.
  apply preserves_bind; [repeat preserves_step|]. intros legal.
  destruct legal; [apply pB_playCardFromHand | preserves_step].
Qed.

Lemma pB_aiPlay (playerId idx : Z) : preserves wellFormedB (LeadOnly.aiPlay playerId idx).
Proof.
  intros s Hs. unfold LeadOnly.aiPlay. unfold bind at 1, get. unfold bind at 1, lift.
  destruct (lookupZ (LeadOnly.players s) playerId) as [p|] eqn:E; cbn [deref snd];
    [|exact Hs].
  pose proof (playCard_frame_B (LeadOnly.leadingSuit s) p) as F.
  destruct (LeadOnly.playCard _ p) as [card p']. cbn [snd] in F.
  unfold bind at 1. rewrite (updatePlayer_run_B s playerId (fun _ => p') p E).
  assert (Hpid : 0 <= playerId < 4).
  { apply lookupZ_Some in E. destruct Hs as (H1 & _).
    apply seatsOK_length in H1. lia. }
  apply (preserves_bind wellFormedB (LeadOnly.placeOnTable playerId card)
           (fun _ => LeadOnly.nextToPlay (idx + 1))).
  - now apply pB_placeOnTable.
  - intros _. apply pB_nextToPlay.
  - apply (wfB_setSeat s playerId p p' Hs E). intros j. now apply seatOK_frame.
Qed.

Lemma pB_fire (t : Timer) : preserves wellFormedB (LeadOnly.fire t).
Proof.
  unfold LeadOnly.fire.
  apply preserves_bind; [apply preserves_modify; intros s H; exact H|]. intros _.
  destruct t; [apply pB_aiPlay | preserves_step | apply pB_resolveTrick].
Qed.

Lemma pB_onHumanBid (v : option Z) : preserves wellFormedB (LeadOnly.onHumanBid v).
Proof.
  unfold LeadOnly.onHumanBid, LeadOnly.determineTurnOrder.
  destruct v as [v|]; [|preserves_step].
  destruct (Z.ltb_spec v 0) as [Hlo|Hlo]; simpl; [preserves_step|].
  destruct (Z.gtb_spec v 13) as [Hhi|Hhi]; simpl; [preserves_step|].
  apply preserves_bind; [|intros _].
  { apply pB_updatePlayer. intros j p. unfold seatOK. simpl. intuition lia. }
  apply preserves_bind; [apply preserves_modify; intros s Hs; exact Hs|]. intros _.
  apply preserves_bind; [apply preserves_modify; intros s Hs; exact Hs|]. intros _.
  apply preserves_bind; [|intros _; apply pB_playTrick].
  apply preserves_modify. intros s (H1 & H2 & _ & H4).
  split; [exact H1|]. split; [exact H2|]. split; [|exact H4].
  right. exists (LeadOnly.dealerIndex s). split; [exact H2 | reflexivity].
Qed.

Lemma deal_frame_B (pick : nat -> nat) (d d' : Deck) (ps ps' : list Player) :
  LeadOnly.deal pick d ps = Some (d', ps') -> map frame ps' = map frame ps.
Proof.
  unfold LeadOnly.deal. destruct (shuffle pick d); [|discriminate].
  destruct (dealRounds 13 _ _) as [[cs qs]|] eqn:E; [|discriminate].
  intros H. inversion H; subst. apply dealRounds_Some in E. apply E.
Qed.

Lemma pB_startRound (pick : nat -> nat) : preserves wellFormedB (LeadOnly.startRound pick).
Proof.
  intros s (H1 & H2 & H3 & H4 & H5).
  assert (Hreset : seatsOK (map (fun p => setTricks 0 (setHand [] p)) (LeadOnly.players s))).
  { apply Forall2_map_seat; [|exact H1]. intros j p. unfold seatOK. simpl. intuition lia. }
  assert (Hd : 0 <= Z.rem (jsAdd (LeadOnly.dealerIndex s) 1) 4 < 4).
  { unfold jsAdd. rewrite toDouble_exact by (unfold maxExact; lia).
    rewrite Z.rem_mod_nonneg by lia. apply Z.mod_pos_bound. lia. }
  unfold LeadOnly.startRound, bind, modify, gets, lift, typed. simpl.
  destruct (LeadOnly.deal pick newDeck
              (map (fun p => setTricks 0 (setHand [] p)) (LeadOnly.players s)))
    as [[d' ps']|] eqn:E; simpl.
  - apply deal_frame_B in E.
    assert (Hps : seatsOK ps') by (eapply Forall2_frames; eauto).
    split; [now apply seatsOK_aiBids|]. split; [exact Hd|].
    split; [left; reflexivity|]. split; [reflexivity | constructor].
  - split; [exact Hreset|]. split; [exact H2|].
    split; [left; reflexivity|]. split; [reflexivity | constructor].
Qed.

Lemma playCard_leadOnly_plays (lead : option Suit) (p : Player) :
  hand p <> [] ->
  exists c, fst (LeadOnly.playCard lead p) = Some c /\ In c (hand p).
Proof.
  intros Hne. unfold LeadOnly.playCard.
  set (followers := filter (suitIs lead) (hand p)).
  set (cands := if (length followers =? 0)%nat then hand p else followers).
  assert (Hc : cands <> []).
  { unfold cands. destruct followers; simpl; [assumption | discriminate]. }
  assert (Hsub : forall x, In x cands -> In x (hand p)).
  { unfold cands, followers. intros x.
    destruct (length _ =? 0)%nat; [auto|]. intros H. now apply filter_In in H. }
  destruct (sorted_choice (tricks p <? bid p) cands Hc) as (c & E & Hin & _).
  exists c. cbn [fst]. split; [exact E | auto].
Qed.

Lemma iM_updatePlayer_B (i : Z) (f : Player -> Player) :
  inModel (LeadOnly.updatePlayer i f).
Proof. unfold LeadOnly.updatePlayer. repeat inModel_step. Qed.

Lemma iM_finishRound_B : inModel LeadOnly.finishRound.
Proof.
  unfold LeadOnly.finishRound, LeadOnly.persistHistory.
  repeat inModel_step. destruct (LeadOnly.state a0); inModel_step.
Qed.

Lemma iM_nextToPlay_B (idx : Z) : inModel (LeadOnly.nextToPlay idx).
Proof.
  unfold LeadOnly.nextToPlay, LeadOnly.schedule.
  apply inModel_bind; [inModel_step|]. intros g.
  destruct (lookupZ (LeadOnly.playOrder g) idx); [|inModel_step].
  apply inModel_bind; [inModel_step|]. intros p.
  destruct (isHuman p); inModel_step.
Qed.

Lemma iM_playTrick_B : inModel LeadOnly.playTrick.
Proof.
  unfold LeadOnly.playTrick.
  apply inModel_bind; [inModel_step|]. intros g.
  apply inModel_bind; [inModel_step|]. intros human.
  destruct (length (hand human) =? 0)%nat; [apply iM_finishRound_B|].
  repeat first [apply iM_nextToPlay_B | inModel_step].
Qed.

Lemma iM_resolveTrick_B : inModel LeadOnly.resolveTrick.
Proof.
  unfold LeadOnly.resolveTrick.
  apply inModel_bind; [inModel_step|]. intros g.
  apply inModel_bind.
  - apply inModel_lift. unfold LeadOnly.winningPlay, reduce1.
    destruct (filter _ (LeadOnly.tableCards g)); discriminate.
  - intros w. repeat first [apply iM_updatePlayer_B | apply iM_playTrick_B | inModel_step].
Qed.

Lemma iM_placeOnTable_B (pid : Z) (c : Card) : inModel (LeadOnly.placeOnTable pid (Some c)).
Proof.
  unfold LeadOnly.placeOnTable, LeadOnly.schedule.
  apply inModel_bind; [inModel_step|]. intros g.
  destruct (LeadOnly.leadingSuit g).
  - repeat inModel_step. destruct (length (LeadOnly.tableCards a1) =? 4)%nat; inModel_step.
  - repeat inModel_step. destruct (length (LeadOnly.tableCards a1) =? 4)%nat; inModel_step.
Qed.

Lemma iM_onCardClick_B (c : Card) : inModel (LeadOnly.onCardClick c).
Proof.
  unfold LeadOnly.onCardClick, LeadOnly.isLegal, LeadOnly.playCardFromHand.
  apply inModel_bind.
  - apply inModel_bind; [inModel_step|]. intros g. apply inModel_lift.
    unfold isLegalIn. destruct (LeadOnly.leadingSuit g); [|discriminate].
    destruct (LeadOnly.players g); discriminate.
  - intros legal. destruct legal; [|inModel_step].
    repeat first [ apply iM_updatePlayer_B | apply iM_placeOnTable_B
                 | apply iM_nextToPlay_B | inModel_step ].
Qed.

Lemma iM_onHumanBid_B (v : option Z) : inModel (LeadOnly.onHumanBid v).
Proof.
  unfold LeadOnly.onHumanBid, LeadOnly.determineTurnOrder.
  destruct v as [v|]; [|inModel_step].
  destruct ((v <? 0) || (v >? 13)); [inModel_step|].
  repeat first [ apply iM_updatePlayer_B | apply iM_playTrick_B | inModel_step ].
Qed.

(** The callback of a computer seat leaves the typed lists only by pushing
    a play without a card, which takes an empty hand. *)
Lemma aiPlay_leaves_B (pid idx : Z) (g : LeadOnly.Game) :
  fst (LeadOnly.fire (AIPlay pid idx) g) = OffModel ->
  exists p,
    lookupZ (LeadOnly.players g) pid = Some p
    /\ LeadOnly.leadingSuit g <> None
    /\ hand p = [].
Proof.
  unfold LeadOnly.fire, LeadOnly.aiPlay.
  unfold bind at 1, modify. cbn [fst snd].
  set (g0 := LeadOnly.setTimers (dequeue (AIPlay pid idx) (LeadOnly.timers g)) g).
  unfold bind at 1, get. cbn [fst snd]. unfold bind at 1, lift. cbn [fst snd].
  change (LeadOnly.players g0) with (LeadOnly.players g).
  change (LeadOnly.leadingSuit g0) with (LeadOnly.leadingSuit g).
  destruct (lookupZ (LeadOnly.players g) pid) as [p|] eqn:E; [|discriminate].
  cbn [deref].
  destruct (LeadOnly.playCard (LeadOnly.leadingSuit g) p) as [card p'] eqn:Ep.
  intros H. exists p. split; [reflexivity|].
  destruct card as [c|].
  - exfalso. revert H.
    apply (inModel_bind (LeadOnly.updatePlayer pid (fun _ => p'))
             (fun _ => LeadOnly.placeOnTable pid (Some c) ;; LeadOnly.nextToPlay (idx + 1))).
    + apply iM_updatePlayer_B.
    + intros _. apply inModel_bind; [apply iM_placeOnTable_B|].
      intros _. apply iM_nextToPlay_B.
  - split.
    + intros Hl. revert H.
      assert (E0 : lookupZ (LeadOnly.players g0) pid = Some p) by exact E.
      unfold bind at 1. rewrite (updatePlayer_run_B g0 pid _ p E0).
      unfold bind at 1. unfold LeadOnly.placeOnTable, bind, get, throw, lift.
      cbn [fst snd LeadOnly.leadingSuit LeadOnly.setPlayers]. unfold g0.
      cbn [LeadOnly.leadingSuit LeadOnly.setTimers]. rewrite Hl. discriminate.
    + destruct (hand p) as [|c0 h] eqn:Eh; [reflexivity|]. exfalso.
      destruct (playCard_leadOnly_plays (LeadOnly.leadingSuit g) p) as (c & Ec & _).
      { rewrite Eh. discriminate. }
      rewrite Ep in Ec. discriminate Ec.
Qed.

(** X10. The leading-suit-only engine keeps its state well formed in the
    same sense, for every event and whether the handler returns or raises,
    unless the run is [OffModel]: a callback of a seat with an empty hand
    while a suit leads, in which [placeOnTable] pushes a play without a
    card, or a [startRound] whose shuffle draws are out of range.  Its turn
    order is the rotation of some seat, not always the current
    [dealerIndex], which [resolveTrick] overwrites with a seat. *)
Theorem leadOnly_engine_stays_well_formed :
  wellFormedB LeadOnly.initialGame
  /\ (forall (e : Event) (g : LeadOnly.Game),
        wellFormedB g ->
        fst (handleB e g) <> OffModel ->
        wellFormedB (snd (handleB e g)))
  /\ (forall (e : Event) (g : LeadOnly.Game),
        wellFormedB g ->
        fst (handleB e g) = OffModel ->
        leavesModelB e g).
Proof.
  split; [|split].
  - unfold wellFormedB, seatsOK, seatOK. simpl.
    repeat split; auto; try lia; repeat constructor; simpl; lia.
  - intros e g Hg _. destruct e; simpl.
    + now apply pB_startRound.
    + now apply pB_onHumanBid.
    + now apply pB_onCardClick.
    + now apply pB_fire.
  - intros e g Hg H. destruct e as [pick trumpPick|v|c|[pid idx| |]]; cbn [handleB] in H.
    + intros Hp. destruct Hg as (H1 & _).
      destruct (startRound_leadOnly pick g Hp (seatsOK_length _ H1)) as (ps' & _ & _ & E).
      rewrite E in H. discriminate H.
    + exact (iM_onHumanBid_B v g H).
    + exact (iM_onCardClick_B c g H).
    + exact (aiPlay_leaves_B pid idx g H).
    + unfold LeadOnly.fire in H.
      refine (inModel_bind _ _ _ _ g H);
        [apply inModel_modify | intros _; apply inModel_ret].
    + unfold LeadOnly.fire in H.
      refine (inModel_bind _ _ _ _ g H);
        [apply inModel_modify | intros _; apply iM_resolveTrick_B].
Qed.

Lemma leadOnly_engine_stays_well_formed_witness :
  wellFormedB
    (snd (handleB (SubmitBid (Some 3))
            (snd (handleB (NextRound (fun _ => 0%nat) 0) LeadOnly.initialGame)))).
Proof.
  destruct leadOnly_engine_stays_well_formed as [H0 H].
  apply H; [apply H; [exact H0|] |]; vm_compute; discriminate.
Defined.

(** ** Resolving a trick *)

Lemma totalTricks_app (a b : list Player) :
  totalTricks (a ++ b) = totalTricks a + totalTricks b.
Proof. induction a as [|p a IH]; simpl; [reflexivity | rewrite IH; lia]. Qed.

Lemma totalTricks_setAt (l : list Player) (n : nat) (p : Player) :
  nth_error l n = Some p ->
  totalTricks (setAt n (setTricks (tricks p + 1) p) l) = totalTricks l + 1.
Proof.
  intros H. destruct (nth_error_split _ _ H) as (l1 & l2 & -> & <-).
  rewrite setAt_app, !totalTricks_app. simpl. lia.
Qed.

Lemma totalTricks_map (ps : list Player) :
  totalTricks ps = fold_right Z.add 0 (map tricks ps).
Proof. induction ps as [|p ps IH]; simpl; [reflexivity | now rewrite IH]. Qed.

Lemma lookupZ_in_range {A : Type} (l : list A) (i : Z) :
  0 <= i < Z.of_nat (length l) -> exists a, lookupZ l i = Some a.
Proof.
  intros H. unfold lookupZ. destruct (Z.ltb_spec i 0) as [Hn|Hn]; [lia|].
  destruct (nth_error l (Z.to_nat i)) eqn:E; [eauto|].
  apply nth_error_None in E. lia.
Qed.

Lemma hands_setAt_tricks (l : list Player) (n : nat) (p : Player) (t : Z) :
  nth_error l n = Some p ->
  map hand (setAt n (setTricks t p) l) = map hand l
  /\ map score (setAt n (setTricks t p) l) = map score l
  /\ map bid (setAt n (setTricks t p) l) = map bid l.
Proof.
  intros H. destruct (nth_error_split _ _ H) as (l1 & l2 & -> & <-).
  rewrite setAt_app, !map_app. simpl. auto.
Qed.

Lemma resolveTrick_run_A (g : TrumpAware.Game) :
  wellFormedA g ->
  TrumpAware.table g <> [] ->
  exists w g',
    TrumpAware.winningPlay (TrumpAware.trumpSuit g) (TrumpAware.leadingSuit g)
      (TrumpAware.table g) = Ok w
    /\ In w (TrumpAware.table g)
    /\ TrumpAware.resolveTrick g = (Ok tt, g')
    /\ totalTricks (TrumpAware.players g') = totalTricks (TrumpAware.players g) + 1
    /\ map hand (TrumpAware.players g') = map hand (TrumpAware.players g)
    /\ map score (TrumpAware.players g') = map score (TrumpAware.players g)
    /\ map bid (TrumpAware.players g') = map bid (TrumpAware.players g)
    /\ TrumpAware.table g' = TrumpAware.table g
    /\ TrumpAware.timers g' = TrumpAware.timers g ++ [TrickWon].
Proof.
  intros (H1 & _ & _ & _ & H5) Hne.
  destruct (TrumpAware.table g) as [|t0 rest] eqn:Et; [contradiction|].
  destruct (winningPlay_trumpAware_defined (TrumpAware.trumpSuit g)
              (TrumpAware.leadingSuit g) t0 rest) as (w & Ew & Hin).
  rewrite Forall_forall in H5. pose proof (H5 w Hin) as Hpid.
  destruct (lookupZ_in_range (TrumpAware.players g) (TrumpAware.pid w)) as (p & Ep).
  { rewrite (seatsOK_length _ H1). simpl. lia. }
  exists w. eexists. split; [exact Ew|]. split; [exact Hin|].
  unfold TrumpAware.resolveTrick. unfold bind at 1, get. unfold bind at 1, lift.
  rewrite Et, Ew. unfold bind at 1. rewrite (updatePlayer_run_A g _ _ p Ep).
  unfold TrumpAware.schedule, modify. cbn.
  split; [reflexivity|].
  apply lookupZ_Some in Ep. destruct Ep as [_ Ep].
  destruct (hands_setAt_tricks _ _ _ (tricks p + 1) Ep) as (Hh & Hs & Hb).
  split; [now apply totalTricks_setAt|].
  repeat split; auto.
Qed.

(** X11. Trump-aware [resolveTrick] (lines 272-291) in a well formed game:
    on a table that is not empty it never raises; the winner is a play of
    the table, exactly one trick is credited over all seats, hands, bids
    and scores are untouched, the table stays, and the only callback it
    schedules is the end of the animation.  On an empty table it raises a
    [TypeError] and changes nothing. *)
Theorem trumpAware_resolveTrick_credits_one_trick (g : TrumpAware.Game) :
  wellFormedA g ->
  (TrumpAware.table g <> [] ->
   exists w g',
     TrumpAware.winningPlay (TrumpAware.trumpSuit g) (TrumpAware.leadingSuit g)
       (TrumpAware.table g) = Ok w
     /\ In w (TrumpAware.table g)
     /\ TrumpAware.resolveTrick g = (Ok tt, g')
     /\ totalTricks (TrumpAware.players g') = totalTricks (TrumpAware.players g) + 1
     /\ map hand (TrumpAware.players g') = map hand (TrumpAware.players g)
     /\ map score (TrumpAware.players g') = map score (TrumpAware.players g)
     /\ map bid (TrumpAware.players g') = map bid (TrumpAware.players g)
     /\ TrumpAware.table g' = TrumpAware.table g
     /\ TrumpAware.timers g' = TrumpAware.timers g ++ [TrickWon])
  /\ (TrumpAware.table g = [] -> TrumpAware.resolveTrick g = (Throw TypeError, g)).
Proof.
  intros Hg. split.
  - now apply resolveTrick_run_A.
  - intros Et. unfold TrumpAware.resolveTrick, bind, get, lift. rewrite Et. reflexivity.
Qed.

Lemma trumpAware_resolveTrick_credits_one_trick_witness :
  exists w g',
    TrumpAware.winningPlay Spade (Some Heart) (TrumpAware.table lateTrickA) = Ok w
    /\ TrumpAware.resolveTrick lateTrickA = (Ok tt, g')
    /\ totalTricks (TrumpAware.players g') = 1.
Proof.
  destruct (trumpAware_resolveTrick_credits_one_trick lateTrickA) as [H _].
  - unfold wellFormedA, seatsOK, seatOK, lateTrickA, seatsWithClubs. simpl.
    split; [repeat constructor; simpl; lia|]. split; [lia|].
    split; [right; reflexivity|]. split; [reflexivity|].
    repeat constructor; simpl; lia.
  - destruct H as (w & g' & Ew & _ & Er & Ht & _); [discriminate|].
    exists w, g'. repeat split; assumption.
Defined.

Lemma keeps_tricks_playTrick_B :
  keeps (fun g => map tricks (LeadOnly.players g)) LeadOnly.playTrick.
Proof.
  unfold LeadOnly.playTrick.
  apply keeps_bind; [keeps_step|]. intros g.
  apply keeps_bind; [keeps_step|]. intros human.
  destruct (length (hand human) =? 0)%nat.
  - unfold LeadOnly.finishRound.
    apply keeps_bind; [|intros; apply keeps_bind; [|intros; keeps_step]].
    + apply keeps_modify. intros s. simpl. rewrite map_map. reflexivity.
    + intros s. unfold LeadOnly.persistHistory, bind, get, throw, lift, modify.
      cbn [fst snd]. destruct (LeadOnly.state s); reflexivity.
  - apply keeps_bind; [keeps_step|]. intros _.
    apply keeps_bind; [keeps_step|]. intros _.
    unfold LeadOnly.nextToPlay, throw.
    apply keeps_bind; [keeps_step|]. intros g0.
    destruct (lookupZ (LeadOnly.playOrder g0) 0); [|keeps_step].
    apply keeps_bind; [keeps_step|]. intros p.
    destruct (isHuman p); [keeps_step|]. unfold LeadOnly.schedule. keeps_step.
Qed.

(** X12. Leading-suit-only [resolveTrick] (lines 658-667) in a well formed
    game with a table that is not empty: the filter and [reduce] never
    raise; the winner is a leading-suit play of the table; whatever
    [playTrick] does next, exactly one trick has been credited over all
    seats and [dealerIndex] holds the winner's seat. *)
Theorem leadOnly_resolveTrick_credits_one_trick (g : LeadOnly.Game) :
  wellFormedB g ->
  LeadOnly.tableCards g <> [] ->
  exists w,
    LeadOnly.winningPlay (LeadOnly.leadingSuit g) (LeadOnly.tableCards g) = Ok w
    /\ In w (LeadOnly.tableCards g)
    /\ Some (suit (LeadOnly.card w)) = LeadOnly.leadingSuit g
    /\ totalTricks (LeadOnly.players (snd (LeadOnly.resolveTrick g)))
       = totalTricks (LeadOnly.players g) + 1
    /\ LeadOnly.dealerIndex (snd (LeadOnly.resolveTrick g)) = LeadOnly.playerId w.
Proof.
  intros (H1 & _ & _ & H4 & H5) Hne.
  destruct (LeadOnly.tableCards g) as [|t0 rest] eqn:Et; [contradiction|].
  destruct (winningPlay_leadOnly_defined (suit (LeadOnly.card t0)) (t0 :: rest))
    as (w & Ew & Hin & Hs).
  { exists t0. split; [now left | reflexivity]. }
  rewrite Forall_forall in H5. pose proof (H5 w Hin) as Hpid.
  destruct (lookupZ_in_range (LeadOnly.players g) (LeadOnly.playerId w)) as (p & Ep).
  { rewrite (seatsOK_length _ H1). simpl. lia. }
  exists w. rewrite H4. split; [exact Ew|]. split; [exact Hin|].
  split; [now rewrite Hs|].
  set (s1 := LeadOnly.setDealerIndex (LeadOnly.playerId w)
               (LeadOnly.setPlayers
                  (setAt (Z.to_nat (LeadOnly.playerId w))
                     (setTricks (tricks p + 1) p) (LeadOnly.players g)) g)).
  assert (Hrun : LeadOnly.resolveTrick g = LeadOnly.playTrick s1).
  { unfold LeadOnly.resolveTrick. unfold bind at 1, get. unfold bind at 1, lift.
    rewrite Et, H4, Ew. unfold bind at 1. rewrite (updatePlayer_run_B g _ _ p Ep).
    unfold bind at 1, modify at 1. reflexivity. }
  rewrite Hrun.
  assert (Kt : map tricks (LeadOnly.players (snd (LeadOnly.playTrick s1)))
               = map tricks (LeadOnly.players s1))
    by apply (keeps_tricks_playTrick_B s1).
  assert (Kd : LeadOnly.dealerIndex (snd (LeadOnly.playTrick s1))
               = LeadOnly.dealerIndex s1)
    by apply (f_equal snd (keeps_playTrick_B s1)).
  split.
  - rewrite !totalTricks_map, Kt. unfold s1.
    cbn [LeadOnly.players LeadOnly.setDealerIndex LeadOnly.setPlayers].
    rewrite <- !totalTricks_map. apply totalTricks_setAt.
    apply lookupZ_Some in Ep. apply Ep.
  - rewrite Kd. reflexivity.
Qed.

Lemma leadOnly_resolveTrick_credits_one_trick_witness :
  exists w,
    LeadOnly.winningPlay (Some Heart) (LeadOnly.tableCards lateTrickB) = Ok w
    /\ LeadOnly.dealerIndex (snd (LeadOnly.resolveTrick lateTrickB)) = LeadOnly.playerId w.
Proof.
  destruct (leadOnly_resolveTrick_credits_one_trick lateTrickB)
    as (w & Ew & _ & _ & _ & Ed).
  - unfold wellFormedB, seatsOK, seatOK, lateTrickB, seatsWithClubs. simpl.
    split; [repeat constructor; simpl; lia|]. split; [lia|].
    split; [right; exists 0; split; [lia | reflexivity]|]. split; [reflexivity|].
    repeat constructor; simpl; lia.
  - discriminate.
  - exists w. split; assumption.
Defined.

(** ** Bids and clicks *)

(** Turns [Pos.to_nat] of a literal, left behind by [lookupZ], into the
    number. *)
Ltac to_nat_literals :=
  repeat match goal with
         | |- context [Pos.to_nat ?k] =>
             let n := eval vm_compute in (Pos.to_nat k) in
             change (Pos.to_nat k) with n
         end.

Lemma seatsOK_inv (ps : list Player) :
  seatsOK ps ->
  exists p0 p1 p2 p3,
    ps = [p0; p1; p2; p3]
    /\ isHuman p0 = true /\ isHuman p1 = false
    /\ isHuman p2 = false /\ isHuman p3 = false.
Proof.
  unfold seatsOK. intros H.
  inversion H as [|? p0 ? l0 (_ & h0 & _) H0]; subst.
  inversion H0 as [|? p1 ? l1 (_ & h1 & _) H1]; subst.
  inversion H1 as [|? p2 ? l2 (_ & h2 & _) H2]; subst.
  inversion H2 as [|? p3 ? l3 (_ & h3 & _) H3]; subst.
  inversion H3; subst.
  exists p0, p1, p2, p3. repeat split; assumption.
Qed.

(** X13. [onHumanBid] (lines 203-211).  A bid that is not a number, is
    negative or exceeds 13 changes nothing.  A bid in 0..13, in a well formed
    game whose human hand is not empty, is stored for seat 0 only, fixes the
    turn order to the rotation after the dealer, disables the bid button,
    clears the table and calls on the first seat of the order: a callback
    for seat dealer+1 is scheduled, or, when the dealer is seat 3, the
    engine waits for the human. *)
Theorem trumpAware_onHumanBid_opens_the_first_trick (g : TrumpAware.Game) (v : Z) :
  wellFormedA g ->
  (exists human rest, TrumpAware.players g = human :: rest /\ hand human <> []) ->
  (TrumpAware.onHumanBid None g = (Ok tt, g))
  /\ ((v < 0 \/ 13 < v) -> TrumpAware.onHumanBid (Some v) g = (Ok tt, g))
  /\ (0 <= v <= 13 ->
      exists g',
        TrumpAware.onHumanBid (Some v) g = (Ok tt, g')
        /\ map bid (TrumpAware.players g') = v :: tl (map bid (TrumpAware.players g))
        /\ map hand (TrumpAware.players g') = map hand (TrumpAware.players g)
        /\ TrumpAware.playOrder g' = turnOrder (TrumpAware.dealerIndex g)
        /\ TrumpAware.table g' = []
        /\ TrumpAware.leadingSuit g' = None
        /\ TrumpAware.submitBidDisabled g' = true
        /\ TrumpAware.timers g'
           = TrumpAware.timers g
               ++ (if TrumpAware.dealerIndex g =? 3 then []
                   else [AIPlay (TrumpAware.dealerIndex g + 1) 0])).
Proof.
  intros (H1 & H2 & _) (human & rest & Ep & Hh).
  split; [reflexivity|]. split.
  - intros Hv. unfold TrumpAware.onHumanBid.
    destruct (Z.ltb_spec v 0); [reflexivity|].
    destruct (Z.gtb_spec v 13); [reflexivity | lia].
  - intros Hv. destruct (seatsOK_inv _ H1) as (p0 & p1 & p2 & p3 & E & h0 & h1 & h2 & h3).
    rewrite E in Ep. inversion Ep; subst human rest. clear Ep.
    unfold TrumpAware.onHumanBid.
    destruct (Z.ltb_spec v 0); [lia|]. destruct (Z.gtb_spec v 13); [lia|]. cbn [orb].
    unfold TrumpAware.determineTurnOrder, TrumpAware.playTrick, TrumpAware.nextToPlay,
      TrumpAware.updatePlayer, TrumpAware.schedule, bind, get, lift, modify, ret.
    rewrite E. cbn.
    destruct (hand p0) as [|c0 h] eqn:Eh; [contradiction|]. cbn.
    assert (C : TrumpAware.dealerIndex g = 0 \/ TrumpAware.dealerIndex g = 1
                \/ TrumpAware.dealerIndex g = 2 \/ TrumpAware.dealerIndex g = 3) by lia.
    destruct C as [C | [C | [C | C]]]; rewrite C; cbn; to_nat_literals; cbn;
      rewrite ?h0, ?h1, ?h2, ?h3; cbn;
      eexists; (split; [reflexivity|]); cbn; rewrite ?E, ?Eh, ?app_nil_r;
      repeat split; reflexivity.
Qed.

Lemma trumpAware_onHumanBid_opens_the_first_trick_witness :
  exists g',
    TrumpAware.onHumanBid (Some 4)
      (TrumpAware.setPlayers seatsWithClubs TrumpAware.initialGame) = (Ok tt, g')
    /\ TrumpAware.playOrder g' = turnOrder 0
    /\ TrumpAware.timers g' = [AIPlay 1 0].
Proof.
  destruct (trumpAware_onHumanBid_opens_the_first_trick
              (TrumpAware.setPlayers seatsWithClubs TrumpAware.initialGame) 4)
    as (_ & _ & H).
  - unfold wellFormedA, seatsOK, seatOK, seatsWithClubs. simpl.
    split; [repeat constructor; simpl; lia|]. split; [lia|].
    split; [left; reflexivity|]. split; [reflexivity | constructor].
  - eexists. eexists. split; [reflexivity | discriminate].
  - destruct H as (g' & E & _ & _ & O & _ & _ & _ & T); [lia|].
    exists g'. repeat split; assumption.
Defined.

Lemma placeCard_run_A (s : TrumpAware.Game) (pid : Z) (c : Card) :
  exists s',
    TrumpAware.placeCard pid (Some c) s = (Ok tt, s')
    /\ TrumpAware.table s' = TrumpAware.table s ++ [TrumpAware.mkPlay pid c]
    /\ TrumpAware.leadingSuit s' = leadAfter (TrumpAware.leadingSuit s) c
    /\ TrumpAware.players s' = TrumpAware.players s
    /\ TrumpAware.playOrder s' = TrumpAware.playOrder s
    /\ TrumpAware.timers s' = TrumpAware.timers s.
Proof.
  unfold TrumpAware.placeCard, bind, get, modify.
  destruct (TrumpAware.leadingSuit s) eqn:E; eexists; (split; [reflexivity|]);
    cbn; rewrite ?E; repeat split; reflexivity.
Qed.

Lemma keeps_seen_updateTricks_A (i : Z) :
  keeps seenA (TrumpAware.updatePlayer i (fun p => setTricks (tricks p + 1) p)).
Proof.
  intros s. destruct (lookupZ (TrumpAware.players s) i) as [p|] eqn:E.
  - rewrite (updatePlayer_run_A s i _ p E). unfold seenA. cbn.
    apply lookupZ_Some in E. destruct E as [_ E].
    destruct (hands_setAt_tricks _ _ _ (tricks p + 1) E) as (-> & _). reflexivity.
  - rewrite (updatePlayer_fail_A s i _ E). reflexivity.
Qed.

Lemma keeps_seen_nextToPlay_A (idx : Z) : keeps seenA (TrumpAware.nextToPlay idx).
Proof.
  unfold TrumpAware.nextToPlay, TrumpAware.resolveTrick, TrumpAware.schedule, throw.
  destruct (idx >=? 4).
  - repeat first [ apply keeps_seen_updateTricks_A | keeps_step ].
  - apply keeps_bind; [keeps_step|]. intros g.
    destruct (lookupZ (TrumpAware.playOrder g) idx); [|keeps_step].
    apply keeps_bind; [keeps_step|]. intros p.
    destruct (isHuman p); keeps_step.
Qed.

(** The run of an accepted click up to the call of the next seat. *)
Lemma onCardClick_run_A (g : TrumpAware.Game) (c : Card) (human : Player)
    (rest : list Player) :
  TrumpAware.players g = human :: rest ->
  isLegalIn (TrumpAware.leadingSuit g) (TrumpAware.players g) c = Ok true ->
  exists s,
    TrumpAware.onCardClick c g
    = TrumpAware.nextToPlay (Z.of_nat (length (TrumpAware.table s))) s
    /\ TrumpAware.table s = TrumpAware.table g ++ [TrumpAware.mkPlay 0 c]
    /\ TrumpAware.leadingSuit s = leadAfter (TrumpAware.leadingSuit g) c
    /\ TrumpAware.players s
       = setHand (filter (differs (Some c)) (hand human)) human :: rest
    /\ TrumpAware.playOrder s = TrumpAware.playOrder g
    /\ TrumpAware.timers s = TrumpAware.timers g
    /\ (wellFormedA g -> wellFormedA s).
Proof.
  intros Ep Hl.
  assert (E0 : lookupZ (TrumpAware.players g) 0 = Some human) by (rewrite Ep; reflexivity).
  set (s1 := TrumpAware.setPlayers
               (setAt (Z.to_nat 0)
                  (setHand (filter (differs (Some c)) (hand human)) human)
                  (TrumpAware.players g)) g).
  destruct (placeCard_run_A s1 0 c) as (s2 & E2 & T2 & L2 & P2 & O2 & M2).
  exists s2. split.
  - unfold TrumpAware.onCardClick, TrumpAware.isLegal.
    unfold bind at 1. unfold bind at 1, get, lift. rewrite Hl. cbn [negb].
    unfold bind at 1.
    rewrite (updatePlayer_run_A g 0 _ human E0). fold s1.
    unfold bind at 1. rewrite E2. unfold bind at 1. reflexivity.
  - rewrite T2, L2, P2, O2, M2. unfold s1 at 1 2 3 4 5. cbn. rewrite Ep.
    repeat (split; [reflexivity|]).
    intros Hg.
    assert (H1 : wellFormedA s1).
    { apply (wfA_setSeat g 0 human _ Hg E0). intros j. unfold seatOK. simpl. tauto. }
    pose proof (pA_placeCard 0 (Some c) ltac:(lia) s1 H1) as H2.
    now rewrite E2 in H2.
Qed.

(** X14. [onCardClick] (lines 248-256) in the trump-aware build.  A card
    that fails the legality test is ignored: nothing changes.  A card that
    passes it is taken out of the human hand and put on the table as the
    play of seat 0, and the handler checks nothing else: not that the card
    is in the hand (then the hand stays as it is), not that it is the
    human's turn.  Whatever the call of the next seat does, the table and
    the hands stay as the click left them. *)
Theorem trumpAware_click_is_checked_for_suit_only
    (g : TrumpAware.Game) (c : Card) (human : Player) (rest : list Player) :
  TrumpAware.players g = human :: rest ->
  (isLegalIn (TrumpAware.leadingSuit g) (TrumpAware.players g) c = Ok false ->
   TrumpAware.onCardClick c g = (Ok tt, g))
  /\ (isLegalIn (TrumpAware.leadingSuit g) (TrumpAware.players g) c = Ok true ->
      let g' := snd (TrumpAware.onCardClick c g) in
      TrumpAware.table g' = TrumpAware.table g ++ [TrumpAware.mkPlay 0 c]
      /\ map hand (TrumpAware.players g')
         = handsAfterClick c (map hand (TrumpAware.players g))
      /\ TrumpAware.leadingSuit g' = leadAfter (TrumpAware.leadingSuit g) c
      /\ (~ In c (hand human) ->
          map hand (TrumpAware.players g') = map hand (TrumpAware.players g))).
Proof.
  intros Ep. split.
  - intros Hl. unfold TrumpAware.onCardClick, TrumpAware.isLegal, bind, get, lift.
    rewrite Hl. reflexivity.
  - intros Hl g'.
    destruct (onCardClick_run_A g c human rest Ep Hl) as (s & E & T & L & P & _).
    pose proof (keeps_seen_nextToPlay_A (Z.of_nat (length (TrumpAware.table s))) s) as K.
    unfold g'. rewrite E. unfold seenA in K. injection K as K1 K2 K3.
    rewrite K1, K2, K3, T, L, P, Ep. cbn.
    repeat split. intros Hn. now rewrite filter_differs_absent.
Qed.

Lemma trumpAware_click_is_checked_for_suit_only_witness :
  TrumpAware.table
    (snd (TrumpAware.onCardClick (mkCard Diamond RA) lateTrickA))
  = TrumpAware.table lateTrickA ++ [TrumpAware.mkPlay 0 (mkCard Diamond RA)]
  /\ map hand (TrumpAware.players (snd (TrumpAware.onCardClick (mkCard Diamond RA) lateTrickA)))
     = map hand (TrumpAware.players lateTrickA).
Proof.
  destruct (trumpAware_click_is_checked_for_suit_only lateTrickA (mkCard Diamond RA)
              (setHand [mkCard Club R2] (newPlayer 0 true))
              [setHand [mkCard Club R3] (newPlayer 1 false);
               setHand [mkCard Club R4] (newPlayer 2 false);
               setHand [mkCard Club R5] (newPlayer 3 false)] eq_refl) as [_ H].
  destruct (H eq_refl) as (T & _ & _ & Hh).
  split; [exact T|]. apply Hh. simpl. intuition discriminate.
Defined.

(** X15. Trump-aware build, lines 248-256 with 231-246: when it is the
    human's turn (the turn order holds seat 0 at the position the table has
    reached) and the clicked card passes the legality test, the click is
    followed by the call of the next seat: a callback for seat 1, the seat
    after the human in every rotation, or, when the human played fourth,
    the resolution of the trick. *)
Theorem trumpAware_click_hands_over_to_seat_1 (g : TrumpAware.Game) (c : Card) :
  wellFormedA g ->
  TrumpAware.playOrder g = turnOrder (TrumpAware.dealerIndex g) ->
  lookupZ (TrumpAware.playOrder g) (Z.of_nat (length (TrumpAware.table g))) = Some 0 ->
  isLegalIn (TrumpAware.leadingSuit g) (TrumpAware.players g) c = Ok true ->
  exists g',
    TrumpAware.onCardClick c g = (Ok tt, g')
    /\ TrumpAware.timers g'
       = TrumpAware.timers g
           ++ [if (length (TrumpAware.table g) =? 3)%nat then TrickWon
               else AIPlay 1 (Z.of_nat (length (TrumpAware.table g)) + 1)].
Proof.
  intros Hg Ho Hturn Hl. pose proof Hg as (H1 & H2 & _).
  destruct (seatsOK_inv _ H1) as (p0 & p1 & p2 & p3 & Ep & h0 & h1 & h2 & h3).
  destruct (onCardClick_run_A g c p0 [p1; p2; p3] Ep Hl)
    as (s & E & T & L & P & O & M & W).
  specialize (W Hg). rewrite E, T. rewrite Ho in Hturn, O.
  assert (B : (length (TrumpAware.table g) < 4)%nat).
  { destruct (lookupZ_Some _ _ _ Hturn) as [Hb _].
    replace (length (turnOrder (TrumpAware.dealerIndex g))) with 4%nat in Hb
      by reflexivity.
    lia. }
  assert (C : TrumpAware.dealerIndex g = 0 \/ TrumpAware.dealerIndex g = 1
              \/ TrumpAware.dealerIndex g = 2 \/ TrumpAware.dealerIndex g = 3) by lia.
  destruct (TrumpAware.table g) as [|t1 [|t2 [|t3 [|t4 l]]]] eqn:Et;
    [| | | |cbn [length] in B; lia];
    destruct C as [C | [C | [C | C]]]; rewrite C in Hturn, O;
    try (vm_compute in Hturn; discriminate Hturn); cbn [app length Nat.eqb].
  - rewrite (nextToPlay_calls_on_order_A s (Z.of_nat 1) 1 p1);
      [|lia|rewrite O; reflexivity|rewrite P; reflexivity].
    rewrite h1. eexists. split; [reflexivity|]. cbn [TrumpAware.timers TrumpAware.setTimers].
    rewrite M. reflexivity.
  - rewrite (nextToPlay_calls_on_order_A s (Z.of_nat 2) 1 p1);
      [|lia|rewrite O; reflexivity|rewrite P; reflexivity].
    rewrite h1. eexists. split; [reflexivity|]. cbn [TrumpAware.timers TrumpAware.setTimers].
    rewrite M. reflexivity.
  - rewrite (nextToPlay_calls_on_order_A s (Z.of_nat 3) 1 p1);
      [|lia|rewrite O; reflexivity|rewrite P; reflexivity].
    rewrite h1. eexists. split; [reflexivity|]. cbn [TrumpAware.timers TrumpAware.setTimers].
    rewrite M. reflexivity.
  - destruct (resolveTrick_run_A s W) as (w & g' & _ & _ & Er & _ & _ & _ & _ & _ & Tm).
    { rewrite T. discriminate. }
    exists g'. split; [|now rewrite Tm, M].
    unfold TrumpAware.nextToPlay. cbn. exact Er.
Qed.

Lemma trumpAware_click_hands_over_to_seat_1_witness :
  exists g',
    TrumpAware.onCardClick (mkCard Club R2)
      (TrumpAware.setPlayOrder (turnOrder 3)
         (TrumpAware.setDealerIndex 3
            (TrumpAware.setPlayers seatsWithClubs TrumpAware.initialGame)))
    = (Ok tt, g')
    /\ TrumpAware.timers g' = [AIPlay 1 1].
Proof.
  destruct (trumpAware_click_hands_over_to_seat_1
              (TrumpAware.setPlayOrder (turnOrder 3)
                 (TrumpAware.setDealerIndex 3
                    (TrumpAware.setPlayers seatsWithClubs TrumpAware.initialGame)))
              (mkCard Club R2)) as (g' & E & T).
  - unfold wellFormedA, seatsOK, seatOK, seatsWithClubs. simpl.
    split; [repeat constructor; simpl; lia|]. split; [lia|].
    split; [right; reflexivity|]. split; [reflexivity | constructor].
  - reflexivity.
  - reflexivity.
  - reflexivity.
  - exists g'. split; [exact E | exact T].
Defined.

Lemma placeOnTable_run_B (s : LeadOnly.Game) (pid : Z) (c : Card) :
  exists s',
    LeadOnly.placeOnTable pid (Some c) s = (Ok tt, s')
    /\ LeadOnly.tableCards s' = LeadOnly.tableCards s ++ [LeadOnly.mkPlay pid c]
    /\ LeadOnly.leadingSuit s' = leadAfter (LeadOnly.leadingSuit s) c
    /\ LeadOnly.players s' = LeadOnly.players s
    /\ LeadOnly.playOrder s' = LeadOnly.playOrder s
    /\ LeadOnly.timers s'
       = LeadOnly.timers s
           ++ (if (length (LeadOnly.tableCards s) =? 3)%nat then [Resolve] else []).
Proof.
  assert (L : forall x : LeadOnly.Play,
             (length (LeadOnly.tableCards s ++ [x]) =? 4)%nat
             = (length (LeadOnly.tableCards s) =? 3)%nat).
  { intros x. rewrite length_app, Nat.add_1_r. reflexivity. }
  unfold LeadOnly.placeOnTable, LeadOnly.schedule, bind, get, modify, ret.
  destruct (LeadOnly.leadingSuit s) eqn:E; cbn; rewrite L;
    destruct (length (LeadOnly.tableCards s) =? 3)%nat;
    eexists; (split; [reflexivity|]); cbn; rewrite ?E, ?app_nil_r;
    repeat split; reflexivity.
Qed.

(** X16. Leading-suit-only build, [playCardFromHand] (lines 641-647) with
    [placeOnTable] and [nextToPlay]: after the human's card is on the table
    the handler calls [nextToPlay] with the position that card took, which
    is the human's own position.  So when the human plays in turn, no
    computer seat is called: the only callback the click can add is the
    resolution of the trick, when the card was the fourth. *)
Theorem leadOnly_click_asks_the_human_again (g : LeadOnly.Game) (c : Card) :
  wellFormedB g ->
  lookupZ (LeadOnly.playOrder g) (Z.of_nat (length (LeadOnly.tableCards g))) = Some 0 ->
  isLegalIn (LeadOnly.leadingSuit g) (LeadOnly.players g) c = Ok true ->
  exists g',
    LeadOnly.onCardClick c g = (Ok tt, g')
    /\ LeadOnly.tableCards g' = LeadOnly.tableCards g ++ [LeadOnly.mkPlay 0 c]
    /\ LeadOnly.timers g'
       = LeadOnly.timers g
           ++ (if (length (LeadOnly.tableCards g) =? 3)%nat then [Resolve] else []).
Proof.
  intros (H1 & _) Hturn Hl.
  destruct (seatsOK_inv _ H1) as (p0 & p1 & p2 & p3 & Ep & h0 & _).
  assert (E0 : lookupZ (LeadOnly.players g) 0 = Some p0) by (rewrite Ep; reflexivity).
  set (s1 := LeadOnly.setPlayers
               (setAt (Z.to_nat 0)
                  (setHand (filter (differs (Some c)) (hand p0)) p0)
                  (LeadOnly.players g)) g).
  destruct (placeOnTable_run_B s1 0 c) as (s2 & E2 & T2 & L2 & P2 & O2 & M2).
  exists s2. split; [|split; [exact T2 | exact M2]].
  unfold LeadOnly.onCardClick, LeadOnly.isLegal.
  unfold bind at 1. unfold bind at 1, get, lift. rewrite Hl. cbn [negb].
  unfold LeadOnly.playCardFromHand. unfold bind at 1.
  rewrite (updatePlayer_run_B g 0 _ p0 E0). fold s1.
  unfold bind at 1. rewrite E2. unfold bind at 1, get.
  rewrite T2, length_app. cbn [length fst snd].
  replace (Z.of_nat (length (LeadOnly.tableCards s1) + 1) - 1)
    with (Z.of_nat (length (LeadOnly.tableCards g))) by (unfold s1; cbn; lia).
  unfold LeadOnly.nextToPlay, bind, get, lift. rewrite O2. unfold s1 at 1.
  cbn [LeadOnly.playOrder LeadOnly.setPlayers]. rewrite Hturn, P2. unfold s1 at 1.
  cbn [LeadOnly.players LeadOnly.setPlayers]. rewrite Ep. cbn. rewrite h0. reflexivity.
Qed.

Lemma leadOnly_click_asks_the_human_again_witness :
  exists g',
    LeadOnly.onCardClick (mkCard Club R2)
      (LeadOnly.setPlayOrder (turnOrder 3)
         (LeadOnly.setPlayers seatsWithClubs LeadOnly.initialGame))
    = (Ok tt, g')
    /\ LeadOnly.tableCards g' = [LeadOnly.mkPlay 0 (mkCard Club R2)]
    /\ LeadOnly.timers g' = [].
Proof.
  destruct (leadOnly_click_asks_the_human_again
              (LeadOnly.setPlayOrder (turnOrder 3)
                 (LeadOnly.setPlayers seatsWithClubs LeadOnly.initialGame))
              (mkCard Club R2)) as (g' & E & T & M).
  - unfold wellFormedB, seatsOK, seatOK, seatsWithClubs. simpl.
    split; [repeat constructor; simpl; lia|]. split; [lia|].
    split; [right; exists 3; split; [lia | reflexivity]|].
    split; [reflexivity | constructor].
  - reflexivity.
  - reflexivity.
  - exists g'. split; [exact E | split; [exact T | exact M]].
Defined.

(** X17. [Player.playCard] (lines 94-108 and 502-515), both builds.  A seat
    that holds a card of the leading suit plays one: of its cards of that
    suit the highest when it still needs tricks, the lowest otherwise.  The
    two builds choose the same card, and the seat's hand afterwards is the
    hand without it. *)
Theorem computer_seat_follows_suit (s trump : Suit) (p : Player) :
  existsb (suitIs (Some s)) (hand p) = true ->
  exists c,
    TrumpAware.playCard (Some s) trump p
    = (Some c, setHand (filter (differs (Some c)) (hand p)) p)
    /\ LeadOnly.playCard (Some s) p
       = (Some c, setHand (filter (differs (Some c)) (hand p)) p)
    /\ In c (hand p) /\ suit c = s
    /\ (tricks p < bid p ->
        forall x, In x (hand p) -> suit x = s -> value x <= value c)
    /\ (bid p <= tricks p ->
        forall x, In x (hand p) -> suit x = s -> value c <= value x).
Proof.
  intros Hex. apply existsb_exists in Hex. destruct Hex as (x0 & Hx0 & Sx0).
  set (followers := filter (suitIs (Some s)) (hand p)).
  assert (Hin0 : In x0 followers) by (apply filter_In; auto).
  assert (Hne : followers <> []) by (intros E; rewrite E in Hin0; destruct Hin0).
  assert (Hlen : (length followers =? 0)%nat = false).
  { destruct followers; [congruence | reflexivity]. }
  assert (Hf : forall x, In x followers <-> In x (hand p) /\ suit x = s).
  { intros x. unfold followers. rewrite filter_In. unfold suitIs.
    split; intros [H1 H2]; (split; [exact H1|]); now apply Suit_eqb_eq. }
  destruct (sorted_choice (tricks p <? bid p) followers Hne)
    as (c & E & Hin & Hhi & Hlo).
  exists c. unfold TrumpAware.playCard, LeadOnly.playCard.
  fold followers. rewrite Hlen, E.
  split; [reflexivity|]. split; [reflexivity|].
  apply Hf in Hin. destruct Hin as [Hc1 Hc2].
  split; [exact Hc1|]. split; [exact Hc2|]. split.
  - intros H x Hx Hs. apply Hhi; [now apply Z.ltb_lt | apply Hf; auto].
  - intros H x Hx Hs. apply Hlo; [now apply Z.ltb_ge | apply Hf; auto].
Qed.

Lemma computer_seat_follows_suit_witness :
  exists c,
    TrumpAware.playCard (Some Heart) Spade
      (setBid 3 (setHand [mkCard Heart R9; mkCard Spade RA; mkCard Heart RK]
                   (newPlayer 1 false)))
    = (Some c,
       setHand (filter (differs (Some c))
                  [mkCard Heart R9; mkCard Spade RA; mkCard Heart RK])
         (setBid 3 (setHand [mkCard Heart R9; mkCard Spade RA; mkCard Heart RK]
                      (newPlayer 1 false))))
    /\ suit c = Heart.
Proof.
  destruct (computer_seat_follows_suit Heart Spade
              (setBid 3 (setHand [mkCard Heart R9; mkCard Spade RA; mkCard Heart RK]
                           (newPlayer 1 false))) eq_refl)
    as (c & E & _ & _ & S & _).
  exists c. split; [exact E | exact S].
Defined.

Lemma setAt_unchanged {A : Type} (l : list A) (i : nat) (x : A) :
  nth_error l i = Some x -> setAt i x l = l.
Proof.
  revert i. induction l as [|a l IH]; intros [|i] H; simpl in *; try discriminate.
  - congruence.
  - now rewrite IH.
Qed.

Lemma filter_nothing {A : Type} (f : A -> bool) (l : list A) :
  (forall x, In x l -> f x = false) -> filter f l = [].
Proof.
  induction l as [|a l IH]; intros H; simpl; [reflexivity|].
  rewrite (H a (or_introl eq_refl)). apply IH. intros x Hx. apply H. now right.
Qed.

Lemma filter_everything {A : Type} (l : list A) : filter (fun _ => true) l = l.
Proof. induction l as [|a l IH]; simpl; congruence. Qed.

(** X18. The callback of a computer seat in the trump-aware build (lines
    240-244 with [playCard], lines 94-108, and [placeCard], lines 258-262):
    when the seat has to lead and holds no trump, the candidates are the
    empty list of its trumps, [playCard] returns [undefined], and
    [placeCard] raises a [TypeError] at [card.suit].  The hand, the table
    and the list of callbacks are as before, so no seat is called after
    it. *)
Theorem trumpAware_leader_without_trump_raises
    (g : TrumpAware.Game) (pid idx : Z) (p : Player) :
  lookupZ (TrumpAware.players g) pid = Some p ->
  TrumpAware.leadingSuit g = None ->
  (forall c, In c (hand p) -> suit c <> TrumpAware.trumpSuit g) ->
  TrumpAware.aiPlay pid idx g = (Throw TypeError, g)
  /\ TrumpAware.fire (AIPlay pid idx) g
     = (Throw TypeError,
        TrumpAware.setTimers (dequeue (AIPlay pid idx) (TrumpAware.timers g)) g).
Proof.
  assert (Hrun : forall s : TrumpAware.Game,
             lookupZ (TrumpAware.players s) pid = Some p ->
             TrumpAware.leadingSuit s = None ->
             (forall c, In c (hand p) -> suit c <> TrumpAware.trumpSuit s) ->
             TrumpAware.aiPlay pid idx s = (Throw TypeError, s)).
  { intros s Hp Hl Ht.
    assert (F1 : filter (suitIs None) (hand p) = []).
    { apply filter_nothing. reflexivity. }
    assert (F2 : filter (fun c => Suit_eqb (suit c) (TrumpAware.trumpSuit s)) (hand p)
                 = []).
    { apply filter_nothing. intros c Hc. specialize (Ht c Hc).
      unfold Suit_eqb. destruct (Suit_eq_dec _ _); [contradiction | reflexivity]. }
    assert (Epc : TrumpAware.playCard None (TrumpAware.trumpSuit s) p = (None, p)).
    { unfold TrumpAware.playCard, arrayTruthy. rewrite F1. cbn [length Nat.eqb].
      rewrite F2. destruct (tricks p <? bid p); cbn [sortBy fold_right nth_error differs];
        rewrite filter_everything; destruct p; reflexivity. }
    unfold TrumpAware.aiPlay. unfold bind at 1, get. unfold bind at 1, lift.
    rewrite Hp. cbn [deref fst snd]. rewrite Hl, Epc.
    unfold bind at 1. rewrite (updatePlayer_run_A s pid _ p Hp).
    apply lookupZ_Some in Hp. destruct Hp as [_ Hp].
    rewrite (setAt_unchanged _ _ _ Hp).
    replace (TrumpAware.setPlayers (TrumpAware.players s) s) with s
      by (destruct s; reflexivity).
    unfold bind at 1. unfold TrumpAware.placeCard, bind, get, throw.
    cbn [fst snd]. rewrite Hl. reflexivity. }
  intros Hp Hl Ht. split; [now apply Hrun|].
  unfold TrumpAware.fire. unfold bind at 1, modify. cbn [fst snd].
  apply Hrun; assumption.
Qed.

Lemma trumpAware_leader_without_trump_raises_witness :
  TrumpAware.aiPlay 1 0 (TrumpAware.setPlayers seatsWithClubs TrumpAware.initialGame)
  = (Throw TypeError, TrumpAware.setPlayers seatsWithClubs TrumpAware.initialGame).
Proof.
  refine (proj1 (trumpAware_leader_without_trump_raises
                   (TrumpAware.setPlayers seatsWithClubs TrumpAware.initialGame) 1 0
                   (setHand [mkCard Club R3] (newPlayer 1 false)) _ eq_refl _)).
  - reflexivity.
  - intros c [<-|[]]. discriminate.
Defined.

(** X19. The callback of a computer seat in the leading-suit-only build
    (lines 623-627) when the seat plays as the last of the four positions:
    the chosen card is put on the table, [placeOnTable] schedules the
    resolution when this makes four cards, and then [nextToPlay(4)] reads
    [playOrder[4]], which is [undefined], and raises a [TypeError] at
    [player.isHuman]. *)
Theorem leadOnly_last_computer_play_raises
    (g : LeadOnly.Game) (pid : Z) (p : Player) :
  wellFormedB g ->
  lookupZ (LeadOnly.players g) pid = Some p ->
  hand p <> [] ->
  exists c g',
    fst (LeadOnly.playCard (LeadOnly.leadingSuit g) p) = Some c
    /\ LeadOnly.aiPlay pid 3 g = (Throw TypeError, g')
    /\ LeadOnly.tableCards g' = LeadOnly.tableCards g ++ [LeadOnly.mkPlay pid c]
    /\ LeadOnly.timers g'
       = LeadOnly.timers g
           ++ (if (length (LeadOnly.tableCards g) =? 3)%nat then [Resolve] else []).
Proof.
  intros (_ & _ & Ho & _) Hp Hne.
  destruct (playCard_leadOnly_plays (LeadOnly.leadingSuit g) p Hne) as (c & Ec & _).
  destruct (LeadOnly.playCard (LeadOnly.leadingSuit g) p) as [card p'] eqn:Epc.
  cbn [fst] in Ec. subst card.
  set (s1 := LeadOnly.setPlayers (setAt (Z.to_nat pid) p' (LeadOnly.players g)) g).
  destruct (placeOnTable_run_B s1 pid c) as (s2 & E2 & T2 & _ & _ & O2 & M2).
  exists c, s2. split; [reflexivity|]. split; [|split; [exact T2 | exact M2]].
  unfold LeadOnly.aiPlay. unfold bind at 1, get. unfold bind at 1, lift.
  rewrite Hp. cbn [deref fst snd]. rewrite Epc.
  unfold bind at 1. rewrite (updatePlayer_run_B g pid _ p Hp). fold s1.
  unfold bind at 1. rewrite E2.
  unfold LeadOnly.nextToPlay, bind, get, throw. cbn [fst snd].
  rewrite O2. unfold s1. cbn [LeadOnly.playOrder LeadOnly.setPlayers].
  destruct Ho as [-> | (d & _ & ->)]; reflexivity.
Qed.

Lemma leadOnly_last_computer_play_raises_witness :
  exists g',
    LeadOnly.aiPlay 3 3
      (LeadOnly.setPlayOrder (turnOrder 3)
         (LeadOnly.setPlayers seatsWithClubs LeadOnly.initialGame))
    = (Throw TypeError, g')
    /\ LeadOnly.tableCards g' = [LeadOnly.mkPlay 3 (mkCard Club R5)].
Proof.
  destruct (leadOnly_last_computer_play_raises
              (LeadOnly.setPlayOrder (turnOrder 3)
                 (LeadOnly.setPlayers seatsWithClubs LeadOnly.initialGame))
              3 (setHand [mkCard Club R5] (newPlayer 3 false)))
    as (c & g' & Ec & E & T & _).
  - unfold wellFormedB, seatsOK, seatOK, seatsWithClubs. simpl.
    split; [repeat constructor; simpl; lia|]. split; [lia|].
    split; [right; exists 3; split; [lia | reflexivity]|].
    split; [reflexivity | constructor].
  - reflexivity.
  - discriminate.
  - exists g'. split; [exact E|]. rewrite T.
    vm_compute in Ec. injection Ec as <-. reflexivity.
Defined.

Lemma aiBids_bid (ps : list Player) (i : nat) (p : Player) :
  (1 <= i)%nat ->
  nth_error (aiBids ps) i = Some p ->
  bid p = specBid true (hand p) /\ 0 <= bid p <= 13.
Proof.
  intros Hi H. destruct ps as [|h ais]; [destruct i; discriminate|].
  destruct i as [|j]; [lia|]. cbn [aiBids nth_error] in H.
  rewrite nth_error_map in H. destruct (nth_error ais j) as [q|]; [|discriminate].
  injection H as <-. unfold computeBid. rewrite computeBidWith_spec.
  cbn [bid hand setBid]. split; [reflexivity|].
  pose proof (specHCP_nonneg (hand q)) as H.
  pose proof (specLengthBonus_nonneg (hand q)) as B.
  pose proof (Z.div_pos (specHCP (hand q)) 2 H ltac:(lia)) as D.
  unfold specBid. cbn [AI_ADVANCED_HEURISTIC]. lia.
Qed.

Lemma aiBids_human (ps qs : list Player) :
  map frame ps = map frame qs ->
  option_map bid (nth_error (aiBids ps) 0) = option_map bid (nth_error qs 0).
Proof.
  destruct ps as [|p ps], qs as [|q qs]; simpl; try discriminate; [reflexivity|].
  intros H. injection H as H _. unfold frame in H. congruence.
Qed.

(** X20. [startRound] (lines 183-201 and 570-585) with [deal] and
    [computeBid]: with four seats and shuffle draws in range, it completes
    with the 52 cards of a new deck dealt out, thirteen to each seat, every
    computer seat bidding the advanced-mode bid of the hand it was dealt, a
    number in 0..13, and the human's bid left as it was; the table is empty,
    no suit leads, the turn order is empty, bidding is enabled and the
    next-round button disabled.  The trump-aware build also draws the trump
    suit. *)
Theorem startRound_deals_and_bids (pick : nat -> nat) :
  (forall k, (pick k <= k)%nat) ->
  (forall (trumpPick : nat) (g : TrumpAware.Game),
      (trumpPick < 4)%nat ->
      length (TrumpAware.players g) = 4%nat ->
      exists g',
        TrumpAware.startRound pick trumpPick g = (Ok tt, g')
        /\ partitioned (map hand (TrumpAware.players g'))
        /\ (forall i p, (1 <= i)%nat -> nth_error (TrumpAware.players g') i = Some p ->
              bid p = specBid true (hand p) /\ 0 <= bid p <= 13)
        /\ option_map bid (nth_error (TrumpAware.players g') 0)
           = option_map bid (nth_error (TrumpAware.players g) 0)
        /\ TrumpAware.table g' = [] /\ TrumpAware.leadingSuit g' = None
        /\ TrumpAware.playOrder g' = []
        /\ TrumpAware.submitBidDisabled g' = false
        /\ TrumpAware.nextRoundDisabled g' = true
        /\ nth_error suits trumpPick = Some (TrumpAware.trumpSuit g'))
  /\ (forall g : LeadOnly.Game,
        length (LeadOnly.players g) = 4%nat ->
        exists g',
          LeadOnly.startRound pick g = (Ok tt, g')
          /\ partitioned (map hand (LeadOnly.players g'))
          /\ (forall i p, (1 <= i)%nat -> nth_error (LeadOnly.players g') i = Some p ->
                bid p = specBid true (hand p) /\ 0 <= bid p <= 13)
          /\ option_map bid (nth_error (LeadOnly.players g') 0)
             = option_map bid (nth_error (LeadOnly.players g) 0)
          /\ LeadOnly.tableCards g' = [] /\ LeadOnly.leadingSuit g' = None
          /\ LeadOnly.playOrder g' = []
          /\ LeadOnly.phase g' = Some LeadOnly.Bidding
          /\ LeadOnly.submitBidDisabled g' = false
          /\ LeadOnly.nextRoundDisabled g' = true).
Proof.
  intros Hpick. split.
  - intros trumpPick g Ht Hps.
    destruct (startRound_trumpAware pick trumpPick g Hpick Ht Hps)
      as (ps' & t & Ed & F & Et & E).
    destruct (deal_trumpAware pick newDeck (map (setTricks 0) (TrumpAware.players g))
                Hpick (Permutation_refl _)) as (ps2 & Ed2 & (_ & D) & _).
    { now rewrite length_map. }
    assert (ps2 = ps') by congruence. subst ps2.
    eexists. split; [exact E|].
    cbn [TrumpAware.players TrumpAware.table TrumpAware.leadingSuit
         TrumpAware.playOrder TrumpAware.submitBidDisabled
         TrumpAware.nextRoundDisabled TrumpAware.trumpSuit].
    split; [now rewrite aiBids_hand|].
    split; [intros i p; apply aiBids_bid|].
    split; [|repeat split; exact Et].
    rewrite (aiBids_human _ _ F).
    destruct (TrumpAware.players g); reflexivity.
  - intros g Hps.
    destruct (startRound_leadOnly pick g Hpick Hps) as (ps' & Ed & F & E).
    destruct (deal_leadOnly pick newDeck
                (map (fun p => setTricks 0 (setHand [] p)) (LeadOnly.players g))
                Hpick (Permutation_refl _)) as (ps2 & Ed2 & (_ & D) & _).
    { now rewrite length_map. }
    { apply Forall_forall. intros p Hp. apply in_map_iff in Hp.
      destruct Hp as (q & <- & _). reflexivity. }
    assert (ps2 = ps') by congruence. subst ps2.
    eexists. split; [exact E|].
    cbn [LeadOnly.players LeadOnly.tableCards LeadOnly.leadingSuit
         LeadOnly.playOrder LeadOnly.submitBidDisabled LeadOnly.phase
         LeadOnly.nextRoundDisabled].
    split; [now rewrite aiBids_hand|].
    split; [intros i p; apply aiBids_bid|].
    split; [|repeat split].
    rewrite (aiBids_human _ _ F).
    destruct (LeadOnly.players g); reflexivity.
Qed.

Lemma startRound_deals_and_bids_witness :
  exists g',
    LeadOnly.startRound (fun _ => 0%nat) LeadOnly.initialGame = (Ok tt, g')
    /\ partitioned (map hand (LeadOnly.players g')).
Proof.
  destruct (startRound_deals_and_bids (fun _ => 0%nat)) as [_ H].
  - intros k. lia.
  - destruct (H LeadOnly.initialGame eq_refl) as (g' & E & P & _).
    exists g'. split; [exact E | exact P].
Defined.

Section SavingFacts.

Import String.StringSyntax.
Local Open Scope string_scope.

Lemma firstn_setAt {A : Type} (l : list A) (i : nat) (x : A) :
  (i < length l)%nat -> firstn (S i) (setAt i x l) = firstn i l ++ [x].
Proof.
  revert i. induction l as [|a l IH]; intros [|i] H; cbn [length] in H; try lia.
  - reflexivity.
  - cbn [setAt]. change (firstn (S (S i)) (a :: setAt i x l))
      with (a :: firstn (S i) (setAt i x l)).
    rewrite IH by lia. reflexivity.
Qed.

Lemma firstn_snoc {A : Type} (l : list A) (i : nat) (x : A) :
  nth_error l i = Some x -> firstn (S i) l = firstn i l ++ [x].
Proof.
  revert i. induction l as [|a l IH]; intros [|i] H; try discriminate.
  - cbn in H. injection H as ->. reflexivity.
  - cbn [nth_error] in H. change (firstn (S (S i)) (a :: l)) with (a :: firstn (S i) l).
    rewrite (IH i H). reflexivity.
Qed.

Lemma orZero_number (z : Z) :
  Persistence.orZero (Some (Persistence.JNum z)) = Persistence.JNum z.
Proof.
  unfold Persistence.orZero, Persistence.truthy.
  destruct (Z.eqb_spec z 0) as [->|]; reflexivity.
Qed.

Lemma restore_scores (v : Persistence.JSON) (sc : list Z) (n : nat) :
  Persistence.getNamed v "scores"
  = Ok (Some (Persistence.JArr (map Persistence.JNum sc))) ->
  forall (i : nat) (m : Persistence.MatchState),
    (i + n)%nat = length (Persistence.playerScores m) ->
    length sc = length (Persistence.playerScores m) ->
    firstn i (Persistence.playerScores m) = map Persistence.JNum (firstn i sc) ->
    Persistence.forEachSeat n i
      (fun i =>
         stored <- lift (Persistence.getNamed v "scores") ;;
         entry <- lift (match stored with
                        | Some sv => Persistence.getIndex sv i
                        | None => Throw TypeError
                        end) ;;
         modify (Persistence.setPlayerScore i (Persistence.orZero entry))) m
    = (Ok tt,
       Persistence.mkMatch (map Persistence.JNum sc)
         (Persistence.dealerIndex m) (Persistence.round m)).
Proof.
  intros Hv. induction n as [|n IH]; intros i m Hn Hl Hf.
  - cbn [Persistence.forEachSeat]. unfold ret.
    rewrite Nat.add_0_r in Hn. subst i.
    rewrite firstn_all in Hf. rewrite <- Hl, firstn_all in Hf.
    destruct m as [ps d r]. cbn in *. now rewrite Hf.
  - cbn [Persistence.forEachSeat]. unfold bind at 1.
    assert (Hi : (i < length sc)%nat) by lia.
    destruct (nth_error sc i) as [z|] eqn:Ez;
      [|apply nth_error_None in Ez; lia].
    assert (Estep :
              (stored <- lift (Persistence.getNamed v "scores") ;;
               entry <- lift (match stored with
                              | Some sv => Persistence.getIndex sv i
                              | None => Throw TypeError
                              end) ;;
               modify (Persistence.setPlayerScore i (Persistence.orZero entry))) m
              = (Ok tt, Persistence.setPlayerScore i (Persistence.JNum z) m)).
    { unfold bind, lift, modify. rewrite Hv. cbn [Persistence.getIndex fst snd].
      rewrite nth_error_map, Ez. cbn [option_map]. now rewrite orZero_number. }
    rewrite Estep. cbn [fst snd].
    rewrite IH.
    + reflexivity.
    + cbn. rewrite length_setAt. lia.
    + cbn. now rewrite length_setAt.
    + cbn [Persistence.playerScores Persistence.setPlayerScore].
      rewrite firstn_setAt by lia. rewrite Hf, (firstn_snoc _ _ _ Ez), map_app.
      reflexivity.
Qed.

Lemma loadMatch_of_saved (v : Persistence.JSON) (snap : Snapshot)
    (m : Persistence.MatchState) :
  holdsSnapshot v snap ->
  length (scores snap) = length (Persistence.playerScores m) ->
  Persistence.loadMatch (Persistence.JSONText v) m
  = (Ok tt,
     Persistence.mkMatch (map Persistence.JNum (scores snap))
       (Persistence.JNum (savedDealerIndex snap))
       (Persistence.JNum (savedRound snap))).
Proof.
  intros (Hs & Hd & Hr) Hl. unfold Persistence.loadMatch. unfold bind at 1, lift.
  cbn [Persistence.loadState fst snd]. unfold Persistence.restoreHistory.
  unfold bind at 1, lift. rewrite Hs.
  cbn [Persistence.truthy fst snd].
  unfold bind at 1, get. cbn [fst snd]. unfold bind at 1.
  pose proof (restore_scores v (scores snap) (length (Persistence.playerScores m)) Hs
                0 m eq_refl Hl eq_refl) as R.
  unfold lift in R. rewrite Hs in R. rewrite R.
  rewrite Hd, Hr.
  unfold bind, modify. cbn [fst snd]. rewrite !orZero_number. reflexivity.
Qed.

End SavingFacts.

(** X21. [finishRound] with [persistHistory], then [loadState] and
    [restoreHistory] on the next page load (lines 12-14, 134-146, 326-336
    and 424-426, 540-552, 669-680).  With four seats and a [this.state] that
    takes properties, a finished round leaves in [this.state] the four
    scores as [finishRound] computed them, the dealer index and the round
    number; and whenever the stored text parses to an object that holds
    these three under their names, a fresh game restores exactly them. *)
Theorem finished_round_is_restored
    (gA : TrumpAware.Game) (gB : LeadOnly.Game) (vA vB : Persistence.JSON) :
  length (TrumpAware.players gA) = 4%nat ->
  TrumpAware.state gA <> Primitive ->
  length (LeadOnly.players gB) = 4%nat ->
  LeadOnly.state gB <> Primitive ->
  (exists g1 snap,
      TrumpAware.finishRound gA = (Ok tt, g1)
      /\ TrumpAware.state g1 = Holder (Some snap)
      /\ snap = mkSnapshot (map score (TrumpAware.players g1))
                  (TrumpAware.dealerIndex g1) (TrumpAware.round g1)
      /\ (holdsSnapshot vA snap ->
          Persistence.loadMatch (Persistence.JSONText vA) Persistence.freshMatch
          = (Ok tt,
             Persistence.mkMatch
               (map Persistence.JNum (map score (TrumpAware.players g1)))
               (Persistence.JNum (TrumpAware.dealerIndex g1))
               (Persistence.JNum (TrumpAware.round g1)))))
  /\ (exists g1 snap,
        LeadOnly.finishRound gB = (Ok tt, g1)
        /\ LeadOnly.state g1 = Holder (Some snap)
        /\ snap = mkSnapshot (map score (LeadOnly.players g1))
                    (LeadOnly.dealerIndex g1) (LeadOnly.round g1)
        /\ (holdsSnapshot vB snap ->
            Persistence.loadMatch (Persistence.JSONText vB) Persistence.freshMatch
            = (Ok tt,
               Persistence.mkMatch
                 (map Persistence.JNum (map score (LeadOnly.players g1)))
                 (Persistence.JNum (LeadOnly.dealerIndex g1))
                 (Persistence.JNum (LeadOnly.round g1))))).
Proof.
  intros LA SA LB SB. split.
  - destruct (finishRound_run_A gA) as (r & g1 & E & P & D & R & _ & _ & Ho).
    destruct (Ho SA) as (-> & St & _).
    exists g1. eexists. split; [exact E|]. split; [exact St|].
    split; [now rewrite P, D, R|].
    intros Hv. rewrite (loadMatch_of_saved _ _ _ Hv).
    + cbn [scores savedDealerIndex savedRound]. now rewrite P, D, R.
    + cbn. rewrite !length_map. exact LA.
  - destruct (finishRound_run_B gB) as (r & g1 & E & P & D & R & _ & _ & Ho).
    destruct (Ho SB) as (-> & St & _).
    exists g1. eexists. split; [exact E|]. split; [exact St|].
    split; [now rewrite P, D, R|].
    intros Hv. rewrite (loadMatch_of_saved _ _ _ Hv).
    + cbn [scores savedDealerIndex savedRound]. now rewrite P, D, R.
    + cbn. rewrite !length_map. exact LB.
Qed.

Section SavingWitness.

Import String.StringSyntax.
Local Open Scope string_scope.

(** X21 at the end of a round with the scores 92, -70, -50 and 0, read back
    from an object that holds them with dealer index 0 and round 0. *)
Lemma finished_round_is_restored_witness :
  Persistence.loadMatch
    (Persistence.JSONText
       (Persistence.JObj
          [("scores",
            Persistence.JArr [Persistence.JNum 92; Persistence.JNum (-70);
                              Persistence.JNum (-50); Persistence.JNum 0]);
           ("dealerIndex", Persistence.JNum 0);
           ("round", Persistence.JNum 0)]))
    Persistence.freshMatch
  = (Ok tt,
     Persistence.mkMatch
       [Persistence.JNum 92; Persistence.JNum (-70);
        Persistence.JNum (-50); Persistence.JNum 0]
       (Persistence.JNum 0) (Persistence.JNum 0)).
Proof.
  destruct (finished_round_is_restored
              (TrumpAware.setPlayers scoredSeats TrumpAware.initialGame)
              (LeadOnly.setPlayers scoredSeats LeadOnly.initialGame)
              (Persistence.JObj
                 [("scores",
                   Persistence.JArr [Persistence.JNum 92; Persistence.JNum (-70);
                                     Persistence.JNum (-50); Persistence.JNum 0]);
                  ("dealerIndex", Persistence.JNum 0);
                  ("round", Persistence.JNum 0)])
              Persistence.JNull
              eq_refl ltac:(discriminate) eq_refl ltac:(discriminate))
    as ((g1 & snap & E & _ & Es & H) & _).
  injection E as <-. subst snap.
  exact (H (conj eq_refl (conj eq_refl eq_refl))).
Defined.

End SavingWitness.

(** ** From one round to the next *)

Lemma jsAdd_one (z : Z) : incrementsExactly z -> jsAdd z 1 = z + 1.
Proof.
  unfold incrementsExactly, jsAdd, maxExact. intros H.
  apply toDouble_exact. unfold maxExact. lia.
Qed.

(** The run of the leading-suit-only [resolveTrick] up to [playTrick]. *)
Lemma resolveTrick_run_B (g : LeadOnly.Game) :
  wellFormedB g ->
  LeadOnly.tableCards g <> [] ->
  exists w p,
    LeadOnly.winningPlay (LeadOnly.leadingSuit g) (LeadOnly.tableCards g) = Ok w
    /\ In w (LeadOnly.tableCards g)
    /\ 0 <= LeadOnly.playerId w < 4
    /\ nth_error (LeadOnly.players g) (Z.to_nat (LeadOnly.playerId w)) = Some p
    /\ LeadOnly.resolveTrick g
       = LeadOnly.playTrick
           (LeadOnly.setDealerIndex (LeadOnly.playerId w)
              (LeadOnly.setPlayers
                 (setAt (Z.to_nat (LeadOnly.playerId w))
                    (setTricks (tricks p + 1) p) (LeadOnly.players g)) g)).
Proof.
  intros (H1 & _ & _ & H4 & H5) Hne.
  destruct (LeadOnly.tableCards g) as [|t0 rest] eqn:Et; [contradiction|].
  destruct (winningPlay_leadOnly_defined (suit (LeadOnly.card t0)) (t0 :: rest))
    as (w & Ew & Hin & Hs).
  { exists t0. split; [now left | reflexivity]. }
  rewrite Forall_forall in H5. pose proof (H5 w Hin) as Hpid.
  destruct (lookupZ_in_range (LeadOnly.players g) (LeadOnly.playerId w)) as (p & Ep).
  { rewrite (seatsOK_length _ H1). simpl. lia. }
  exists w, p. rewrite H4. split; [exact Ew|]. split; [exact Hin|].
  split; [exact Hpid|]. split; [now apply lookupZ_Some in Ep|].
  unfold LeadOnly.resolveTrick. unfold bind at 1, get. unfold bind at 1, lift.
  rewrite Et, H4, Ew. unfold bind at 1. rewrite (updatePlayer_run_B g _ _ p Ep).
  unfold bind at 1, modify at 1. reflexivity.
Qed.

(** C6 as amended.  In both builds, with four seats, shuffle draws in
    range, a [this.state] that takes properties and a round counter and a
    dealer index below 2^53, [finishRound] followed by [startRound]
    completes with every seat's tricks at 0, every score as [finishRound]
    left it, the round number one higher, and [dealerIndex] equal to
    ([dealerIndex] at [finishRound] + 1) rem 4, which is that index plus one
    modulo 4 when it is not negative.  In the trump-aware build no handler
    that runs between two [startRound]s writes [dealerIndex], so the index
    at [finishRound] is the round's dealer.  In the leading-suit-only build
    [resolveTrick] writes the winner's seat into [dealerIndex] before
    [playTrick] reaches [finishRound]: when the human hand is played out,
    the resolution of the last trick finishes the round with the winner's
    seat as [dealerIndex], and the next round's dealer is the seat after
    that winner. *)
Theorem round_transition (pick : nat -> nat) :
  (forall k, (pick k <= k)%nat) ->
  (forall (trumpPick : nat) (g : TrumpAware.Game),
      (trumpPick < 4)%nat ->
      length (TrumpAware.players g) = 4%nat ->
      TrumpAware.state g <> Primitive ->
      incrementsExactly (TrumpAware.round g) ->
      incrementsExactly (TrumpAware.dealerIndex g) ->
      exists g1 g2,
        TrumpAware.finishRound g = (Ok tt, g1)
        /\ TrumpAware.nextRoundDisabled g1 = false
        /\ TrumpAware.startRound pick trumpPick g1 = (Ok tt, g2)
        /\ Forall (fun t => t = 0) (map tricks (TrumpAware.players g2))
        /\ map score (TrumpAware.players g2) = map score (TrumpAware.players g1)
        /\ TrumpAware.round g2 = TrumpAware.round g + 1
        /\ TrumpAware.dealerIndex g2 = Z.rem (TrumpAware.dealerIndex g + 1) 4
        /\ (0 <= TrumpAware.dealerIndex g ->
            TrumpAware.dealerIndex g2 = (TrumpAware.dealerIndex g + 1) mod 4))
  /\ (forall (g : TrumpAware.Game) t c v,
        TrumpAware.dealerIndex (snd (TrumpAware.fire t g)) = TrumpAware.dealerIndex g
        /\ TrumpAware.dealerIndex (snd (TrumpAware.onCardClick c g))
           = TrumpAware.dealerIndex g
        /\ TrumpAware.dealerIndex (snd (TrumpAware.onHumanBid v g))
           = TrumpAware.dealerIndex g)
  /\ (forall g : LeadOnly.Game,
        length (LeadOnly.players g) = 4%nat ->
        LeadOnly.state g <> Primitive ->
        incrementsExactly (LeadOnly.round g) ->
        incrementsExactly (LeadOnly.dealerIndex g) ->
        exists g1 g2,
          LeadOnly.finishRound g = (Ok tt, g1)
          /\ LeadOnly.nextRoundDisabled g1 = false
          /\ LeadOnly.startRound pick g1 = (Ok tt, g2)
          /\ Forall (fun t => t = 0) (map tricks (LeadOnly.players g2))
          /\ map score (LeadOnly.players g2) = map score (LeadOnly.players g1)
          /\ LeadOnly.round g2 = LeadOnly.round g + 1
          /\ LeadOnly.dealerIndex g2 = Z.rem (LeadOnly.dealerIndex g + 1) 4
          /\ (0 <= LeadOnly.dealerIndex g ->
              LeadOnly.dealerIndex g2 = (LeadOnly.dealerIndex g + 1) mod 4))
  /\ (forall (g : LeadOnly.Game) (human : Player),
        wellFormedB g ->
        LeadOnly.tableCards g <> [] ->
        nth_error (LeadOnly.players g) 0 = Some human ->
        hand human = [] ->
        LeadOnly.state g <> Primitive ->
        incrementsExactly (LeadOnly.round g) ->
        exists w g1 g2,
          LeadOnly.winningPlay (LeadOnly.leadingSuit g) (LeadOnly.tableCards g) = Ok w
          /\ In w (LeadOnly.tableCards g)
          /\ LeadOnly.resolveTrick g = (Ok tt, g1)
          /\ LeadOnly.dealerIndex g1 = LeadOnly.playerId w
          /\ LeadOnly.nextRoundDisabled g1 = false
          /\ LeadOnly.startRound pick g1 = (Ok tt, g2)
          /\ Forall (fun t => t = 0) (map tricks (LeadOnly.players g2))
          /\ map score (LeadOnly.players g2) = map score (LeadOnly.players g1)
          /\ LeadOnly.round g2 = LeadOnly.round g + 1
          /\ LeadOnly.dealerIndex g2 = (LeadOnly.playerId w + 1) mod 4).
Proof.
  intros Hpick. split; [|split; [|split]].
  - intros trumpPick g Ht Hps Hst Hr Hd.
    destruct (finishRound_run_A g) as (r & g1 & E1 & P1 & D1 & R1 & _ & _ & Ho).
    destruct (Ho Hst) as (-> & _ & N1).
    assert (Hps1 : length (TrumpAware.players g1) = 4%nat).
    { now rewrite P1, length_scored. }
    destruct (startRound_trumpAware pick trumpPick g1 Hpick Ht Hps1)
      as (ps' & t & _ & F & _ & E2).
    exists g1. eexists. split; [exact E1|]. split; [exact N1|]. split; [exact E2|].
    cbn [TrumpAware.players TrumpAware.round TrumpAware.dealerIndex].
    rewrite R1, D1, (jsAdd_one _ Hr), (jsAdd_one _ Hd).
    split; [|split; [|split; [|split]]].
    + rewrite aiBids_tricks, (frame_tricks _ _ F). apply map_tricks_reset.
    + rewrite aiBids_score, (frame_score _ _ F), map_map. reflexivity.
    + reflexivity.
    + reflexivity.
    + intros H0. apply Z.rem_mod_nonneg; lia.
  - intros g t c v. split; [|split].
    + apply (keeps_snd orderA), keeps_fire_A.
    + apply (keeps_snd orderA), keeps_onCardClick_A.
    + apply keeps_onHumanBid_A.
  - intros g Hps Hst Hr Hd.
    destruct (finishRound_run_B g) as (r & g1 & E1 & P1 & D1 & R1 & _ & _ & Ho).
    destruct (Ho Hst) as (-> & _ & N1).
    assert (Hps1 : length (LeadOnly.players g1) = 4%nat).
    { now rewrite P1, length_scored. }
    destruct (startRound_leadOnly pick g1 Hpick Hps1) as (ps' & _ & F & E2).
    exists g1. eexists. split; [exact E1|]. split; [exact N1|]. split; [exact E2|].
    cbn [LeadOnly.players LeadOnly.round LeadOnly.dealerIndex].
    rewrite R1, D1, (jsAdd_one _ Hr), (jsAdd_one _ Hd).
    split; [|split; [|split; [|split]]].
    + rewrite aiBids_tricks, (frame_tricks _ _ F), map_map.
      clear. induction (LeadOnly.players g1); simpl; constructor; auto.
    + rewrite aiBids_score, (frame_score _ _ F), map_map. reflexivity.
    + reflexivity.
    + reflexivity.
    + intros H0. apply Z.rem_mod_nonneg; lia.
  - intros g human Hg Hne Hh He Hst Hr.
    destruct (resolveTrick_run_B g Hg Hne) as (w & p & Ew & Hin & Hpid & Ep & Erun).
    set (s1 := LeadOnly.setDealerIndex (LeadOnly.playerId w)
                 (LeadOnly.setPlayers
                    (setAt (Z.to_nat (LeadOnly.playerId w))
                       (setTricks (tricks p + 1) p) (LeadOnly.players g)) g)) in *.
    assert (Hplay : LeadOnly.playTrick s1 = LeadOnly.finishRound s1).
    { destruct (hands_setAt_tricks _ _ _ (tricks p + 1) Ep) as (Hhands & _).
      assert (Hn : nth_error (map hand (LeadOnly.players s1)) 0 = Some []).
      { unfold s1. cbn [LeadOnly.players LeadOnly.setDealerIndex LeadOnly.setPlayers].
        rewrite Hhands, nth_error_map, Hh. cbn. now rewrite He. }
      rewrite nth_error_map in Hn.
      unfold LeadOnly.playTrick. unfold bind at 1, get. unfold bind at 1, lift.
      cbn [fst snd].
      destruct (nth_error (LeadOnly.players s1) 0) as [h1|]; [|discriminate].
      cbn in Hn. injection Hn as Hn. cbn [deref]. now rewrite Hn. }
    destruct (finishRound_run_B s1) as (r & g1 & E1 & P1 & D1 & R1 & _ & _ & Ho).
    destruct Ho as (-> & _ & N1); [exact Hst|].
    assert (Hps1 : length (LeadOnly.players g1) = 4%nat).
    { rewrite P1, length_scored. unfold s1.
      cbn [LeadOnly.players LeadOnly.setDealerIndex LeadOnly.setPlayers].
      rewrite length_setAt. destruct Hg as (H1 & _). now apply seatsOK_length. }
    destruct (startRound_leadOnly pick g1 Hpick Hps1) as (ps' & _ & F & E2).
    exists w, g1. eexists.
    split; [exact Ew|]. split; [exact Hin|].
    split; [now rewrite Erun, Hplay|].
    split; [now rewrite D1|]. split; [exact N1|]. split; [exact E2|].
    cbn [LeadOnly.players LeadOnly.round LeadOnly.dealerIndex].
    split; [|split; [|split]].
    + rewrite aiBids_tricks, (frame_tricks _ _ F), map_map.
      clear. induction (LeadOnly.players g1); simpl; constructor; auto.
    + rewrite aiBids_score, (frame_score _ _ F), map_map. reflexivity.
    + rewrite R1. unfold s1. cbn [LeadOnly.round LeadOnly.setDealerIndex LeadOnly.setPlayers].
      now apply jsAdd_one.
    + rewrite D1. unfold s1.
      cbn [LeadOnly.dealerIndex LeadOnly.setDealerIndex LeadOnly.setPlayers].
      rewrite jsAdd_one by (unfold incrementsExactly, maxExact; lia).
      apply Z.rem_mod_nonneg; lia.
Qed.

(** C6 as amended, with the draws that always pick index 0: at the end of
    the fourth round of the trump-aware build, dealt by seat 2, and at the
    last trick of a leading-suit-only round dealt by seat 0, which seat 3
    wins. *)
Lemma round_transition_witness :
  (forall k, ((fun _ : nat => 0%nat) k <= k)%nat)
  /\ (exists g1 g2,
        TrumpAware.finishRound roundPlayedA = (Ok tt, g1)
        /\ TrumpAware.startRound (fun _ => 0%nat) 0 g1 = (Ok tt, g2)
        /\ Forall (fun t => t = 0) (map tricks (TrumpAware.players g2))
        /\ map score (TrumpAware.players g1) = [92; -70; -50; 0]
        /\ map score (TrumpAware.players g2) = map score (TrumpAware.players g1)
        /\ TrumpAware.round g2 = 5
        /\ TrumpAware.dealerIndex g2 = 3)
  /\ (exists w g1 g2,
        LeadOnly.winningPlay (Some Heart) (LeadOnly.tableCards lastTrickB) = Ok w
        /\ LeadOnly.playerId w = 3
        /\ LeadOnly.resolveTrick lastTrickB = (Ok tt, g1)
        /\ LeadOnly.startRound (fun _ => 0%nat) g1 = (Ok tt, g2)
        /\ LeadOnly.round g2 = 5
        /\ LeadOnly.dealerIndex g2 = 0).
Proof.
  assert (Hpick : forall k, ((fun _ : nat => 0%nat) k <= k)%nat) by (intros; lia).
  split; [exact Hpick|].
  destruct (round_transition (fun _ => 0%nat) Hpick) as (HA & _ & _ & HB).
  split.
  - destruct (HA 0%nat roundPlayedA ltac:(simpl; lia) eq_refl ltac:(discriminate))
      as (g1 & g2 & E1 & _ & E2 & T & S & R & D & _).
    { unfold incrementsExactly, maxExact. cbn. lia. }
    { unfold incrementsExactly, maxExact. cbn. lia. }
    exists g1, g2. split; [exact E1|]. split; [exact E2|]. split; [exact T|].
    split; [|split; [exact S|split; [exact R | exact D]]].
    injection E1 as <-. reflexivity.
  - destruct (HB lastTrickB (newPlayer 0 true)) as (w & g1 & g2 & Ew & _ & E1 & D1 & _ & E2 & _ & _ & R & D).
    { unfold wellFormedB, seatsOK, seatOK, lastTrickB. simpl.
      split; [repeat constructor; simpl; lia|]. split; [lia|].
      split; [right; exists 0; split; [lia | reflexivity]|].
      split; [reflexivity|]. repeat constructor; simpl; lia. }
    { discriminate. }
    { reflexivity. }
    { reflexivity. }
    { discriminate. }
    { unfold incrementsExactly, maxExact. cbn. lia. }
    assert (Hw : w = LeadOnly.mkPlay 3 (mkCard Heart RA)).
    { cbn in Ew. injection Ew as <-. reflexivity. }
    exists w, g1, g2. split; [exact Ew|]. split; [now rewrite Hw|].
    split; [exact E1|]. split; [exact E2|]. split; [exact R|].
    rewrite D, Hw. reflexivity.
Defined.
